(** * Action recorder: the event-to-record pipeline of
      [recorder_clicks_window.py]

    A shallow embedding of the recorder's capture / inspect / annotate /
    append pipeline, together with a small-step model of its two listener
    threads and of the lock that serialises [record].

    Python integers are unbounded, hence [Z].  A Python [str] is
    represented by its UTF-8 encoding, a [string] of bytes.  Everything
    that the program obtains from the outside (the clock, the screenshot
    primitive, the window lookups, Pillow's file I/O and drawing, whether
    standard output accepts a line) is an input of the model: either a
    field of an oracle record or an argument of a transition label. *)

From Stdlib Require Import ZArith List String Ascii Bool Lia.
From Stdlib Require Import DecimalString DecimalZ DecimalPos Decimal.
From Stdlib Require Import Permutation Sorted FinFun.
Import ListNotations.

Local Open Scope string_scope.
Local Open Scope Z_scope.

(* ================================================================== *)
(** * Python values and exceptions *)
(* ================================================================== *)

Module Py.

(** The outcome of a call that may raise: a value, or an exception with
    its message ([str(e)]). *)
Inductive Exc (A : Type) : Type :=
| Ok (v : A)
| Raise (msg : string).
Arguments Ok {A} v.
Arguments Raise {A} msg.

Definition bind {A B} (m : Exc A) (k : A -> Exc B) : Exc B :=
  match m with
  | Ok v => k v
  | Raise e => Raise e
  end.

(** [try: body / except Exception: handler] *)
Definition try_except {A} (body : Exc A) (handler : string -> Exc A) : Exc A :=
  match body with
  | Ok v => Ok v
  | Raise e => handler e
  end.

Definition raised {A} (m : Exc A) : bool :=
  match m with Ok _ => false | Raise _ => true end.

(** [str(n)] for an [int]. *)
Definition str_int (n : Z) : string := NilZero.string_of_int (Z.to_int n).

(** [str(v)] for an [Optional[int]]. *)
Definition str_opt_int (v : option Z) : string :=
  match v with
  | Some n => str_int n
  | None => "None"
  end.

(** [v or ""] for a value that is a string or [None]. *)
Definition or_empty (v : option string) : string :=
  match v with
  | Some s => s
  | None => ""
  end.

(** Truth value of a string, of an integer and of an optional handle. *)
Definition truthy_str (s : string) : bool :=
  match s with EmptyString => false | _ => true end.
Definition truthy_int (n : Z) : bool := negb (n =? 0).
Definition truthy_opt_int (v : option Z) : bool :=
  match v with Some n => truthy_int n | None => false end.

(** [s.startswith(p)] *)
Definition startswith (s p : string) : bool := String.prefix p s.

(** [s.replace(old, new)] for a non-empty [old]: every occurrence of [old],
    scanning from the left and without overlap, becomes [new].  [skip]
    counts the characters of a matched occurrence still to be dropped. *)
Fixpoint replace_from (skip : nat) (old new s : string) : string :=
  match s with
  | EmptyString => EmptyString
  | String c s' =>
      match skip with
      | S k => replace_from k old new s'
      | O =>
          if String.prefix old s
          then new ++ replace_from (Nat.pred (String.length old)) old new s'
          else String c (replace_from O old new s')
      end
  end.

Definition replace (s old new : string) : string := replace_from O old new s.

(** The string of the bytes [l]. *)
Definition bytes (l : list nat) : string :=
  string_of_list_ascii (map ascii_of_nat l).

(** The characters removed by [str.strip()], those for which
    [str.isspace()] holds, in UTF-8: U+0009 to U+000D, U+001C to U+001F,
    U+0020, U+0085, U+00A0, U+1680, U+2000 to U+200A, U+2028, U+2029,
    U+202F, U+205F and U+3000. *)
Definition whitespace : list string :=
  map bytes
    [ [9]; [10]; [11]; [12]; [13]; [28]; [29]; [30]; [31]; [32];
      [194; 133]; [194; 160];
      [225; 154; 128];
      [226; 128; 128]; [226; 128; 129]; [226; 128; 130]; [226; 128; 131];
      [226; 128; 132]; [226; 128; 133]; [226; 128; 134]; [226; 128; 135];
      [226; 128; 136]; [226; 128; 137]; [226; 128; 138];
      [226; 128; 168]; [226; 128; 169]; [226; 128; 175];
      [226; 129; 159];
      [227; 128; 128] ]%nat.

(** [s] without its first [n] bytes. *)
Fixpoint drop (n : nat) (s : string) : string :=
  match n, s with
  | O, _ => s
  | S k, String _ s' => drop k s'
  | S _, EmptyString => EmptyString
  end.

(** [s] without the character of [ws] it starts with, if any. *)
Fixpoint strip_one (ws : list string) (s : string) : option string :=
  match ws with
  | [] => None
  | w :: rest =>
      if String.prefix w s then Some (drop (String.length w) s)
      else strip_one rest s
  end.

(** Removes leading characters of [ws], at most [fuel] of them. *)
Fixpoint lstrip_with (ws : list string) (fuel : nat) (s : string) : string :=
  match fuel with
  | O => s
  | S k =>
      match strip_one ws s with
      | Some r => lstrip_with ws k r
      | None => s
      end
  end.

Fixpoint rev_onto (s acc : string) : string :=
  match s with
  | EmptyString => acc
  | String c s' => rev_onto s' (String c acc)
  end.

Definition rev_string (s : string) : string := rev_onto s EmptyString.

Definition lstrip (s : string) : string :=
  lstrip_with whitespace (String.length s) s.

(** Trailing white space is leading white space of the reversed string,
    a character's bytes being reversed too. *)
Definition rstrip (s : string) : string :=
  rev_string
    (lstrip_with (map rev_string whitespace) (String.length s) (rev_string s)).

Definition strip (s : string) : string := rstrip (lstrip s).

End Py.
Import Py.

Notation "x <- m ;; k" := (Py.bind m (fun x => k))
  (at level 61, m at next level, right associativity).

(* ================================================================== *)
(** * Statements that mutate variables and may raise *)
(* ================================================================== *)

(** A block of statements over mutable variables [S].  A block that raises
    leaves the variables as they were when the exception was raised, which
    is what an [except] clause then sees. *)
Definition M (S A : Type) : Type := S -> Exc A * S.

Definition ret {S A} (v : A) : M S A := fun s => (Ok v, s).

Definition mbind {S A B} (m : M S A) (k : A -> M S B) : M S B :=
  fun s =>
    match m s with
    | (Ok v, s') => k v s'
    | (Raise e, s') => (Raise e, s')
    end.

Definition call {S A} (r : Exc A) : M S A := fun s => (r, s).
Definition get {S} : M S S := fun s => (Ok s, s).
Definition modify {S} (f : S -> S) : M S unit := fun s => (Ok tt, f s).

(** [try: body / except Exception as e: handler e] *)
Definition mtry {S A} (body : M S A) (handler : string -> M S A) : M S A :=
  fun s =>
    match body s with
    | (Ok v, s') => (Ok v, s')
    | (Raise e, s') => handler e s'
    end.

Notation "x <~ m ;; k" := (mbind m (fun x => k))
  (at level 61, m at next level, right associativity).
Notation "m ;;; k" := (mbind m (fun _ => k))
  (at level 61, right associativity).

(** [pass] *)
Definition pass {S} : M S unit := ret tt.

(* ================================================================== *)
(** * Data model *)
(* ================================================================== *)

(** A path below [BASE_OUT]: the directory ([IMAGES_DIR] or
    [IMAGES_MARKED_DIR]) and the file name ([Path.name]). *)
Record Path := { dir : string; name : string }.

Definition IMAGES_DIR : string := "images".
Definition IMAGES_MARKED_DIR : string := "images_marked".

(** [d / f] *)
Definition slash (d f : string) : Path := {| dir := d; name := f |}.

(** The dataclass [Step]. *)
Record Step := {
  idx : Z;
  ts : string;
  action : string;
  x : option Z;
  y : option Z;
  window_title : string;
  app_name : string;
  img_rel : string;
  img_mark_rel : string
}.

(** The module's mutable globals, and the lines of the [print] calls that
    returned. *)
Record Globals := {
  steps : list Step;
  running : bool;
  step_counter : Z;
  console : list string
}.

Definition initial_globals : Globals :=
  {| steps := []; running := true; step_counter := 0; console := [] |}.

Definition set_step_counter (n : Z) (g : Globals) : Globals :=
  {| steps := steps g; running := running g;
     step_counter := n; console := console g |}.

Definition set_running (b : bool) (g : Globals) : Globals :=
  {| steps := steps g; running := b;
     step_counter := step_counter g; console := console g |}.

Definition steps_append (st : Step) (g : Globals) : Globals :=
  {| steps := steps g ++ [st]; running := running g;
     step_counter := step_counter g; console := console g |}.

Definition console_append (line : string) (g : Globals) : Globals :=
  {| steps := steps g; running := running g;
     step_counter := step_counter g; console := console g ++ [line] |}.

(** [print(line)]: [out] tells whether standard output accepts the line
    (it raises [UnicodeEncodeError] for text it cannot encode); the line
    is on the console when the call returns. *)
Definition print (out : string -> Exc unit) (line : string)
  : M Globals unit :=
  call (out line) ;;;
  modify (console_append line).

(** ** Configuration constants *)

Definition ANNOTATE_CLICK : bool := true.
Definition CIRCLE_RADIUS : Z := 18.
Definition CIRCLE_WIDTH : Z := 5.

(** A colour given as a 3-tuple or as a 4-tuple with alpha. *)
Inductive Color :=
| rgb (r g b : Z)
| rgba (r g b a : Z).

Definition CIRCLE_COLOR : Color := rgb 220 40 40.
Definition SHADOW_COLOR : Color := rgba 0 0 0 90.

(** What is fixed when the module is loaded: the crop radius (the source
    ships [CROP_RADIUS = 0] and documents other values), the platform
    test, and which of the optional imports succeeded. *)
Record Setup := {
  CROP_RADIUS : Z;
  is_windows : bool;
  gw : bool;            (* [gw is not None] *)
  win32gui : bool;      (* truth value of [win32gui] *)
  win32process : bool   (* truth value of [win32process] *)
}.

(** The source as shipped, on a platform whose imports all succeed. *)
Definition shipped (windows : bool) : Setup :=
  {| CROP_RADIUS := 0; is_windows := windows; gw := true;
     win32gui := windows; win32process := windows |}.

(** ** The window libraries *)

(** A window object returned by [gw.getActiveWindow()]: reading [.title]
    may raise and may give [None]; [_hWnd] is absent outside Windows. *)
Record Window := {
  title : Exc (option string);
  _hWnd : option Z
}.

(** Results of the calls into pygetwindow, win32gui, win32process and
    psutil during one [active_window_info()]. *)
Record WinCalls := {
  getActiveWindow : Exc (option Window);
  GetForegroundWindow : Exc Z;
  GetWindowText : Z -> Exc (option string);
  GetWindowThreadProcessId : Z -> Exc Z;      (* the pid of the pair *)
  Process_name : Z -> Exc string              (* [psutil.Process(pid).name()] *)
}.

(** ** Pillow *)

Inductive Mode := RGB | RGBA.

Definition Pixel : Type := (Z * Z * Z * Z)%type.

Record Image := {
  mode : Mode;
  width : Z;
  height : Z;
  getpixel : Z -> Z -> Pixel
}.

(** The colour channels of a pixel. *)
Definition channels (p : Pixel) : Z * Z * Z :=
  let '(r, g, b, _) := p in (r, g, b).

(** [im.convert(m)] between the two modes: to RGBA an opaque alpha
    channel is added to an RGB image, to RGB the alpha channel is dropped
    (kept here as opaque). *)
Definition convert (m : Mode) (im : Image) : Image :=
  match m, mode im with
  | RGBA, RGBA => im
  | RGB, RGB => im
  | _, _ =>
      {| mode := m; width := width im; height := height im;
         getpixel := fun i j => let '(r, g, b, _) := getpixel im i j in
                                (r, g, b, 255) |}
  end.

(** A bounding box [(x0, y0, x1, y1)]. *)
Definition Box : Type := (Z * Z * Z * Z)%type.

(** Pillow's behaviour during one [annotate_click_on_image]: opening and
    decoding a file, drawing an ellipse outline of a given width, and
    saving. *)
Record Pillow := {
  Image_open : Path -> Exc Image;
  ellipse : Image -> Box -> Color -> Z -> Exc Image;
  Image_save : Image -> Path -> Exc unit
}.

(** A region [(left, top, width, height)] handed to the screenshot
    primitive. *)
Definition Region : Type := (Z * Z * Z * Z)%type.

(** ** Input events *)

(** A member of pynput's [mouse.Button] enumeration; [str(button)] is
    ["Button." ++ name]. *)
Record Button := { button_name : string }.

Definition str_Button (b : Button) : string := "Button." ++ button_name b.

Definition Button_left : Button := {| button_name := "left" |}.
Definition Button_middle : Button := {| button_name := "middle" |}.
Definition Button_right : Button := {| button_name := "right" |}.

Inductive Key :=
| Key_esc
| Key_f9
| Key_other (k : string).

Definition Key_eqb (a b : Key) : bool :=
  match a, b with
  | Key_esc, Key_esc => true
  | Key_f9, Key_f9 => true
  | Key_other k, Key_other k' => String.eqb k k'
  | _, _ => false
  end.

(** What a listener callback returns: [None], or [False], which makes
    pynput stop the listener. *)
Inductive Returned := ret_None | ret_False.

(** The outside world during one callback: the clock reading
    [int(time.time()*1000)], the outcome of
    [pyautogui.screenshot(region=...).save(p)], the window libraries,
    Pillow, the string [now_human()] returns, and whether standard output
    accepts a line. *)
Record World := {
  time_ms : Z;
  screenshot_save : option Region -> Path -> Exc unit;
  windows : WinCalls;
  pillow : Pillow;
  now_human : string;
  stdout : string -> Exc unit
}.

(* ================================================================== *)
(** * The helpers and the callbacks *)
(* ================================================================== *)

Section Recorder.

Variable cfg : Setup.

(** ** [active_window_info] *)

(** The local variables [(title, app)]. *)
Definition Vars : Type := (string * string)%type.

Definition assign_title (t : string) : M Vars unit :=
  modify (fun v => (t, snd v)).
Definition assign_app (a : string) : M Vars unit :=
  modify (fun v => (fst v, a)).

(** [win._hWnd] *)
Definition attr_hWnd (win : Window) : Exc Z :=
  match _hWnd win with
  | Some h => Ok h
  | None => Raise "AttributeError: _hWnd"
  end.

Definition active_window_info_body (w : WinCalls) : M Vars (string * string) :=
  modify (fun _ => ("", "")) ;;;
  (if gw cfg then
     mtry
       (win <~ call (getActiveWindow w) ;;
        match win with
        | Some win =>
            t <~ call (title win) ;;
            assign_title (strip (or_empty t)) ;;;
            if is_windows cfg && truthy_opt_int (_hWnd win)
               && win32gui cfg && win32process cfg
            then
              mtry
                (hwnd <~ call (attr_hWnd win) ;;
                 pid <~ call (GetWindowThreadProcessId w hwnd) ;;
                 if truthy_int pid
                 then n <~ call (Process_name w pid) ;; assign_app n
                 else pass)
                (fun _ => pass)
            else pass
        | None => pass
        end)
       (fun _ => pass)
   else pass) ;;;
  v <~ get ;;
  (if negb (truthy_str (fst v)) && is_windows cfg && win32gui cfg then
     mtry
       (hwnd <~ call (GetForegroundWindow w) ;;
        if truthy_int hwnd
        then
          t <~ call (GetWindowText w hwnd) ;;
          assign_title (strip (or_empty t)) ;;;
          if win32process cfg
          then
            mtry
              (pid <~ call (GetWindowThreadProcessId w hwnd) ;;
               if truthy_int pid
               then n <~ call (Process_name w pid) ;; assign_app n
               else pass)
              (fun _ => pass)
          else pass
        else pass)
       (fun _ => pass)
   else pass) ;;;
  get.

(** The call [active_window_info()]: its value, or the exception that
    escapes it. *)
Definition active_window_info (w : WinCalls) : Exc (string * string) :=
  fst (active_window_info_body w ("", "")).

(** ** Capture *)

Definition screenshot_path (o : World) (prefix : string) : Path :=
  slash IMAGES_DIR (prefix ++ "_" ++ str_int (time_ms o) ++ ".png").

Definition capture (o : World) (region : option Region) : Exc Path :=
  let p := screenshot_path o "step" in
  _ <- screenshot_save o region p ;;
  Ok p.

Definition capture_with_optional_crop (o : World) (x y : option Z)
  : Exc Path :=
  match truthy_int (CROP_RADIUS cfg), x, y with
  | true, Some x, Some y =>
      let left := Z.max 0 (x - CROP_RADIUS cfg) in
      let top := Z.max 0 (y - CROP_RADIUS cfg) in
      let width := CROP_RADIUS cfg * 2 in
      let height := CROP_RADIUS cfg * 2 in
      capture o (Some (left, top, width, height))
  | _, _, _ => capture o None
  end.

(** ** Annotation *)

(** Arithmetic on a coordinate that may be [None]. *)
Definition coord (v : option Z) : Exc Z :=
  match v with
  | Some n => Ok n
  | None => Raise "TypeError: unsupported operand type(s)"
  end.

(** Returns the image written to [dst]. *)
Definition annotate_click_on_image (pil : Pillow) (src dst : Path)
    (click_xy : option (option Z * option Z)) : Exc Image :=
  im <- Image_open pil src ;;
  let im := convert RGBA im in
  im <- match click_xy with
        | Some (x, y) =>
            x <- coord x ;;
            y <- coord y ;;
            im <- ellipse pil im
                    (x - CIRCLE_RADIUS - 2, y - CIRCLE_RADIUS - 2,
                     x + CIRCLE_RADIUS + 2, y + CIRCLE_RADIUS + 2)
                    SHADOW_COLOR (CIRCLE_WIDTH + 2) ;;
            ellipse pil im
              (x - CIRCLE_RADIUS, y - CIRCLE_RADIUS,
               x + CIRCLE_RADIUS, y + CIRCLE_RADIUS)
              CIRCLE_COLOR CIRCLE_WIDTH
        | None => Ok im
        end ;;
  let out := convert RGB im in
  _ <- Image_save pil out dst ;;
  Ok out.

(** ** [record]: the statements of the [with lock:] block *)

(** [step_counter += 1] *)
Definition record_incr : M Globals unit :=
  modify (fun g => set_step_counter (step_counter g + 1) g).

(** [title, app = active_window_info()] *)
Definition record_inspect (o : World) : M Globals (string * string) :=
  call (active_window_info (windows o)).

(** The value of [marked_rel] after the annotation block. *)
Definition record_mark (o : World) (action : string) (x y : option Z)
    (img_path : Path) : M Globals string :=
  if ANNOTATE_CLICK && startswith action "click" then
    let marked := slash IMAGES_MARKED_DIR (name img_path) in
    call (try_except
            (_ <- annotate_click_on_image (pillow o) img_path marked
                    (Some (x, y)) ;;
             Ok ("images_marked/" ++ name marked))
            (fun _ => Ok ""))
  else ret "".

(** [step = Step(...)] and [steps.append(step)] *)
Definition record_append (o : World) (action : string) (x y : option Z)
    (img_path : Path) (title app marked_rel : string) : M Globals Step :=
  g <~ get ;;
  let step :=
    {| idx := step_counter g;
       ts := now_human o;
       action := action;
       x := x; y := y;
       window_title := title;
       app_name := app;
       img_rel := "images/" ++ name img_path;
       img_mark_rel := if truthy_str marked_rel then marked_rel
                       else "images/" ++ name img_path |} in
  modify (steps_append step) ;;;
  ret step.

(** The line that [record] prints. *)
Definition record_line (step : Step) (action : string) (x y : option Z)
    (img_path : Path) (title app : string) : string :=
  "[" ++ ts step ++ "] " ++ action
  ++ " (" ++ str_opt_int x ++ "," ++ str_opt_int y ++ ") -> "
  ++ name img_path ++ " | " ++ title ++ " (" ++ app ++ ")".

Definition record_print (o : World) (step : Step) (action : string)
    (x y : option Z) (img_path : Path) (title app : string)
  : M Globals unit :=
  print (stdout o) (record_line step action x y img_path title app).

Definition record (o : World) (action : string) (x y : option Z)
    (img_path : Path) : M Globals unit :=
  record_incr ;;;
  ta <~ record_inspect o ;;
  marked_rel <~ record_mark o action x y img_path ;;
  step <~ record_append o action x y img_path (fst ta) (snd ta) marked_rel ;;
  record_print o step action x y img_path (fst ta) (snd ta).

(** ** The listener callbacks *)

Definition click_action (button : Button) : string :=
  let btn := replace (str_Button button) "Button." "" in
  "click " ++ btn.

Definition scroll_action (dx dy : Z) : string :=
  "scroll dx=" ++ str_int dx ++ " dy=" ++ str_int dy.

Definition on_click (o : World) (x y : Z) (button : Button) (pressed : bool)
  : M Globals Returned :=
  if negb pressed then ret ret_None
  else
    img <~ call (capture_with_optional_crop o (Some x) (Some y)) ;;
    record o (click_action button) (Some x) (Some y) img ;;;
    ret ret_None.

Definition on_scroll (o : World) (x y dx dy : Z) : M Globals Returned :=
  img <~ call (capture_with_optional_crop o (Some x) (Some y)) ;;
  record o (scroll_action dx dy) (Some x) (Some y) img ;;;
  ret ret_None.

Definition on_press (o : World) (key : Key) : M Globals Returned :=
  mtry
    (if Key_eqb key Key_esc then
       modify (set_running false) ;;;
       ret ret_False
     else
       (if Key_eqb key Key_f9 then
          img <~ call (capture o None) ;;
          record o "manual screenshot" None None img
        else pass) ;;;
       ret ret_None)
    (fun e => print (stdout o) ("on_press error: " ++ e) ;;; ret ret_None).

End Recorder.

(* ================================================================== *)
(** * The two listener threads *)
(* ================================================================== *)

(** pynput runs the mouse callbacks on one thread and the keyboard
    callback on another.  A callback is executed statement by statement;
    between any two statements of one thread the other thread may run.
    [lock] is the module's [threading.Lock]. *)

Inductive tid := Mouse | Keyboard.

Inductive event :=
| Click (x y : Z) (button : Button) (pressed : bool)
| Scroll (x y dx dy : Z)
| Press (key : Key).

Inductive callback := cb_on_click | cb_on_scroll | cb_on_press.

(** The arguments of a pending [record] call, with the callback it was
    made from. *)
Record Frame := {
  f_cb : callback;
  f_action : string;
  f_x : option Z;
  f_y : option Z;
  f_img : Path
}.

(** Where a listener thread stands. *)
Inductive pc :=
| Idle                                    (* no callback running *)
| AtCapture (cb : callback) (action : string) (x y : option Z)
                                          (* about to call [capture...] *)
| AtLock (f : Frame)                      (* [with lock:], waiting *)
| AtIncr (f : Frame)                      (* [step_counter += 1] *)
| AtInspect (f : Frame)                   (* [active_window_info()] *)
| AtMark (f : Frame) (title app : string) (* the annotation block *)
| AtAppend (f : Frame) (title app marked_rel : string)
                                          (* [Step(...)], [steps.append] *)
| AtPrint (f : Frame) (title app : string) (step : Step)
                                          (* [print(...)] *)
| AtRelease (f : Frame)                   (* end of the [with] block *)
| Stopped                                 (* the callback returned [False] *)
| Crashed (e : string).                   (* an exception left the callback *)

Record State := {
  glob : Globals;
  lock : option tid;
  mouse : pc;
  keyboard : pc
}.

Definition initial : State :=
  {| glob := initial_globals; lock := None; mouse := Idle; keyboard := Idle |}.

Definition tid_eqb (a b : tid) : bool :=
  match a, b with
  | Mouse, Mouse | Keyboard, Keyboard => true
  | _, _ => false
  end.

Definition pc_of (t : tid) (s : State) : pc :=
  match t with Mouse => mouse s | Keyboard => keyboard s end.

Definition other (t : tid) : tid :=
  match t with Mouse => Keyboard | Keyboard => Mouse end.

Definition set_pc (t : tid) (p : pc) (s : State) : State :=
  match t with
  | Mouse => {| glob := glob s; lock := lock s; mouse := p;
                keyboard := keyboard s |}
  | Keyboard => {| glob := glob s; lock := lock s; mouse := mouse s;
                   keyboard := p |}
  end.

Definition set_glob (g : Globals) (s : State) : State :=
  {| glob := g; lock := lock s; mouse := mouse s; keyboard := keyboard s |}.

Definition set_lock (l : option tid) (s : State) : State :=
  {| glob := glob s; lock := l; mouse := mouse s; keyboard := keyboard s |}.

(** An exception [e] reaches the top of a callback.  [on_press] catches
    it and prints; when that [print] returns the callback returns
    [None], when it raises its exception leaves the callback.  [on_click]
    and [on_scroll] have no handler and [e] leaves the callback. *)
Definition unwound (cb : callback) (e : string) (o : World) (g : Globals)
  : pc * Globals :=
  match cb with
  | cb_on_press =>
      match print (stdout o) ("on_press error: " ++ e) g with
      | (Ok _, g') => (Idle, g')
      | (Raise e', g') => (Crashed e', g')
      end
  | _ => (Crashed e, g)
  end.

Definition unwind (t : tid) (cb : callback) (e : string) (o : World)
    (s : State) : State :=
  set_pc t (fst (unwound cb e o (glob s)))
    (set_glob (snd (unwound cb e o (glob s))) s).

(** One statement [m] of thread [t] outside the [with] block. *)
Definition statement {A} (t : tid) (cb : callback) (o : World)
    (m : M Globals A) (next : A -> pc) (s : State) : State :=
  match m (glob s) with
  | (Ok v, g) => set_pc t (next v) (set_glob g s)
  | (Raise e, g) => unwind t cb e o (set_glob g s)
  end.

(** One statement of thread [t] inside the [with lock:] block: an
    exception leaves the block, which releases the lock. *)
Definition locked_statement {A} (t : tid) (cb : callback) (o : World)
    (m : M Globals A) (next : A -> pc) (s : State) : State :=
  match m (glob s) with
  | (Ok v, g) => set_pc t (next v) (set_glob g s)
  | (Raise e, g) => unwind t cb e o (set_lock None (set_glob g s))
  end.

Inductive label :=
| Deliver (t : tid) (ev : event)   (* pynput calls the callback *)
| Capture (t : tid) (o : World)
| Acquire (t : tid)
| Incr (t : tid)
| Inspect (t : tid) (o : World)
| Mark (t : tid) (o : World)
| Append (t : tid) (o : World)
| Emit (t : tid) (o : World)
| Release (t : tid).

Definition label_tid (l : label) : tid :=
  match l with
  | Deliver t _ | Capture t _ | Acquire t | Incr t | Inspect t _
  | Mark t _ | Append t _ | Emit t _ | Release t => t
  end.

Section Threads.

Variable cfg : Setup.

(** The callback starts: the statements before the first call that
    touches the screen. *)
Definition deliver (t : tid) (ev : event) (s : State) : option State :=
  match pc_of t s, t, ev with
  | Idle, Mouse, Click x y button pressed =>
      if negb pressed then Some s
      else Some (set_pc t (AtCapture cb_on_click (click_action button)
                             (Some x) (Some y)) s)
  | Idle, Mouse, Scroll x y dx dy =>
      Some (set_pc t (AtCapture cb_on_scroll (scroll_action dx dy)
                        (Some x) (Some y)) s)
  | Idle, Keyboard, Press key =>
      if Key_eqb key Key_esc then
        Some (set_pc t Stopped (set_glob (set_running false (glob s)) s))
      else if Key_eqb key Key_f9 then
        Some (set_pc t (AtCapture cb_on_press "manual screenshot" None None) s)
      else Some s
  | _, _, _ => None
  end.

(** The capture call of each callback: [on_press] calls [capture()],
    the mouse callbacks call [capture_with_optional_crop(x, y)]. *)
Definition captured (cb : callback) (o : World) (x y : option Z) : Exc Path :=
  match cb with
  | cb_on_press => capture o None
  | _ => capture_with_optional_crop cfg o x y
  end.

(** The step function: [None] when the label is not enabled. *)
Definition step (s : State) (l : label) : option State :=
  match l with
  | Deliver t ev => deliver t ev s
  | Capture t o =>
      match pc_of t s with
      | AtCapture cb action x y =>
          Some (statement t cb o (call (captured cb o x y))
                  (fun img => AtLock {| f_cb := cb; f_action := action;
                                        f_x := x; f_y := y; f_img := img |})
                  s)
      | _ => None
      end
  | Acquire t =>
      match pc_of t s, lock s with
      | AtLock f, None => Some (set_pc t (AtIncr f) (set_lock (Some t) s))
      | _, _ => None
      end
  | Incr t =>
      match pc_of t s with
      | AtIncr f =>
          (* an integer increment raises nothing *)
          Some (set_pc t (AtInspect f)
                  (set_glob (snd (record_incr (glob s))) s))
      | _ => None
      end
  | Inspect t o =>
      match pc_of t s with
      | AtInspect f =>
          Some (locked_statement t (f_cb f) o (record_inspect cfg o)
                  (fun ta => AtMark f (fst ta) (snd ta)) s)
      | _ => None
      end
  | Mark t o =>
      match pc_of t s with
      | AtMark f title app =>
          Some (locked_statement t (f_cb f) o
                  (record_mark o (f_action f) (f_x f) (f_y f) (f_img f))
                  (fun marked_rel => AtAppend f title app marked_rel) s)
      | _ => None
      end
  | Append t o =>
      match pc_of t s with
      | AtAppend f title app marked_rel =>
          Some (locked_statement t (f_cb f) o
                  (record_append o (f_action f) (f_x f) (f_y f) (f_img f)
                     title app marked_rel)
                  (fun st => AtPrint f title app st) s)
      | _ => None
      end
  | Emit t o =>
      match pc_of t s with
      | AtPrint f title app st =>
          Some (locked_statement t (f_cb f) o
                  (record_print o st (f_action f) (f_x f) (f_y f) (f_img f)
                     title app)
                  (fun _ => AtRelease f) s)
      | _ => None
      end
  | Release t =>
      match pc_of t s with
      | AtRelease f => Some (set_pc t Idle (set_lock None s))
      | _ => None
      end
  end.

(** A schedule is executed label by label. *)
Fixpoint run (s : State) (sched : list label) : option State :=
  match sched with
  | [] => Some s
  | l :: rest =>
      match step s l with
      | Some s' => run s' rest
      | None => None
      end
  end.

End Threads.

(* ================================================================== *)
(** * Concrete worlds *)
(* ================================================================== *)

(** A plain ring rasteriser standing for Pillow's [ellipse]: a pixel is
    painted when it lies in the ellipse inscribed in the box and not in the
    one inscribed in the box shrunk by [w] on every side. *)
Definition in_ellipse (b : Box) (i j : Z) : bool :=
  let '(x0, y0, x1, y1) := b in
  let a := x1 - x0 in
  let c := y1 - y0 in
  (x0 <=? i) && (i <=? x1) && (y0 <=? j) && (j <=? y1)
  && ((2 * i - x0 - x1) * (2 * i - x0 - x1) * (c * c)
      + (2 * j - y0 - y1) * (2 * j - y0 - y1) * (a * a) <=? a * a * (c * c)).

Definition shrink (b : Box) (w : Z) : Box :=
  let '(x0, y0, x1, y1) := b in (x0 + w, y0 + w, x1 - w, y1 - w).

Definition ink (c : Color) : Pixel :=
  match c with
  | rgb r g b => (r, g, b, 255)
  | rgba r g b a => (r, g, b, a)
  end.

Definition paint_ring (im : Image) (b : Box) (c : Color) (w : Z) : Image :=
  {| mode := mode im; width := width im; height := height im;
     getpixel := fun i j =>
       if in_ellipse b i j && negb (in_ellipse (shrink b w) i j)
       then ink c else getpixel im i j |}.

Definition grey_screen : Image :=
  {| mode := RGB; width := 1920; height := 1080;
     getpixel := fun _ _ => (40, 40, 40, 255) |}.

Definition studio : Pillow :=
  {| Image_open := fun _ => Ok grey_screen;
     ellipse := fun im b c w => Ok (paint_ring im b c w);
     Image_save := fun _ _ => Ok tt |}.

(** Pillow when the file cannot be decoded. *)
Definition broken_studio : Pillow :=
  {| Image_open := fun _ => Raise "cannot identify image file";
     ellipse := fun im b c w => Ok (paint_ring im b c w);
     Image_save := fun _ _ => Ok tt |}.

Definition notepad_window : Window :=
  {| title := Ok (Some "Notepad"); _hWnd := Some 4242 |}.

(** Every lookup succeeds: window "Notepad" of process notepad.exe. *)
Definition notepad : WinCalls :=
  {| getActiveWindow := Ok (Some notepad_window);
     GetForegroundWindow := Ok 4242;
     GetWindowText := fun _ => Ok (Some "Notepad");
     GetWindowThreadProcessId := fun _ => Ok 77;
     Process_name := fun _ => Ok "notepad.exe" |}.




(** A world in which everything works, at clock reading [ms]. *)
Definition fine (ms : Z) : World :=
  {| time_ms := ms;
     screenshot_save := fun _ _ => Ok tt;
     windows := notepad;
     pillow := studio;
     now_human := "2024-05-06 10:00:00";
     stdout := fun _ => Ok tt |}.

(** A world whose display cannot be read. *)
Definition dark (ms : Z) : World :=
  {| time_ms := ms;
     screenshot_save := fun _ _ => Raise "screen grab failed";
     windows := notepad;
     pillow := studio;
     now_human := "2024-05-06 10:00:00";
     stdout := fun _ => Ok tt |}.

(** The labels of one callback that runs to its end without the other
    thread running in between. *)
Definition solo (t : tid) (ev : event) (o : World) : list label :=
  [Deliver t ev; Capture t o; Acquire t; Incr t; Inspect t o; Mark t o;
   Append t o; Emit t o; Release t].

Definition glob_after (cfg : Setup) (sched : list label) : option Globals :=
  option_map glob (run cfg initial sched).

(* ================================================================== *)
(** * [active_window_info] *)
(* ================================================================== *)

(** A block from which no exception escapes. *)
Definition no_raise {S A} (m : M S A) : Prop :=
  forall s, exists v s', m s = (Ok v, s').




(* ================================================================== *)
(** * [record] *)
(* ================================================================== *)

(** Whether [record] annotates, and with what outcome. *)
Definition annotated (o : World) (action : string) (x y : option Z)
    (img_path : Path) : bool :=
  startswith action "click"
  && negb (raised (annotate_click_on_image (pillow o) img_path
                     (slash IMAGES_MARKED_DIR (name img_path))
                     (Some (x, y)))).

(** The step that [record] builds when the counter stands at [n] on
    entry and the window lookup gives [(title, app)]. *)
Definition recorded_step (o : World) (n : Z) (action : string)
    (x y : option Z) (img_path : Path) (title app : string) : Step :=
  {| idx := n + 1;
     ts := now_human o;
     action := action;
     x := x; y := y;
     window_title := title;
     app_name := app;
     img_rel := "images/" ++ name img_path;
     img_mark_rel := if annotated o action x y img_path
                     then "images_marked/" ++ name img_path
                     else "images/" ++ name img_path |}.

(* ================================================================== *)
(** * Invariants of the two threads *)
(* ================================================================== *)

(** The program points inside the [with lock:] block. *)
Definition in_lock (p : pc) : bool :=
  match p with
  | AtIncr _ | AtInspect _ | AtMark _ _ _ | AtAppend _ _ _ _
  | AtPrint _ _ _ _ | AtRelease _ => true
  | _ => false
  end.

(** By how much the counter runs ahead of the ledger at a program point:
    between the increment and the append. *)
Definition ahead (p : pc) : Z :=
  match p with
  | AtInspect _ | AtMark _ _ _ | AtAppend _ _ _ _ => 1
  | _ => 0
  end.

(** The indices [1, 2, ..., n]. *)
Definition one_to (n : nat) : list Z := map Z.of_nat (seq 1 n).
Arguments one_to : simpl never.

Record Inv (s : State) : Prop := {
  inv_numbered :
    map idx (steps (glob s)) = one_to (List.length (steps (glob s)));
  inv_owner :
    forall t, in_lock (pc_of t s) = true <-> lock s = Some t;
  inv_counter :
    step_counter (glob s)
    = Z.of_nat (List.length (steps (glob s))) + ahead (mouse s) + ahead (keyboard s)
}.

(* ================================================================== *)
(** * The steps, case by case *)
(* ================================================================== *)

(** The state after thread [t] moved to [p], leaving the globals [g] and
    the lock [lk]. *)
Definition upd (t : tid) (p : pc) (g : Globals) (lk : option tid)
    (s : State) : State :=
  set_pc t p (set_lock lk (set_glob g s)).

(** What one enabled label does: the new program point of its thread, the
    new globals and the new lock. *)
Inductive effect (cfg : Setup) (s : State)
  : label -> pc -> Globals -> option tid -> Prop :=
| E_unpressed x y b :
    pc_of Mouse s = Idle ->
    effect cfg s (Deliver Mouse (Click x y b false)) Idle (glob s) (lock s)
| E_click x y b :
    pc_of Mouse s = Idle ->
    effect cfg s (Deliver Mouse (Click x y b true))
      (AtCapture cb_on_click (click_action b) (Some x) (Some y))
      (glob s) (lock s)
| E_scroll x y dx dy :
    pc_of Mouse s = Idle ->
    effect cfg s (Deliver Mouse (Scroll x y dx dy))
      (AtCapture cb_on_scroll (scroll_action dx dy) (Some x) (Some y))
      (glob s) (lock s)
| E_esc :
    pc_of Keyboard s = Idle ->
    effect cfg s (Deliver Keyboard (Press Key_esc)) Stopped
      (set_running false (glob s)) (lock s)
| E_f9 :
    pc_of Keyboard s = Idle ->
    effect cfg s (Deliver Keyboard (Press Key_f9))
      (AtCapture cb_on_press "manual screenshot" None None)
      (glob s) (lock s)
| E_other_key k :
    pc_of Keyboard s = Idle ->
    effect cfg s (Deliver Keyboard (Press (Key_other k))) Idle
      (glob s) (lock s)
| E_captured t cb a x y o img :
    pc_of t s = AtCapture cb a x y ->
    captured cfg cb o x y = Ok img ->
    effect cfg s (Capture t o)
      (AtLock {| f_cb := cb; f_action := a; f_x := x; f_y := y;
                 f_img := img |})
      (glob s) (lock s)
| E_capture_raises t cb a x y o e p g :
    pc_of t s = AtCapture cb a x y ->
    captured cfg cb o x y = Raise e ->
    unwound cb e o (glob s) = (p, g) ->
    effect cfg s (Capture t o) p g (lock s)
| E_acquire t f :
    pc_of t s = AtLock f ->
    lock s = None ->
    effect cfg s (Acquire t) (AtIncr f) (glob s) (Some t)
| E_incr t f :
    pc_of t s = AtIncr f ->
    effect cfg s (Incr t) (AtInspect f)
      (set_step_counter (step_counter (glob s) + 1) (glob s)) (lock s)
| E_inspect t f o title app :
    pc_of t s = AtInspect f ->
    active_window_info cfg (windows o) = Ok (title, app) ->
    effect cfg s (Inspect t o) (AtMark f title app) (glob s) (lock s)
| E_mark t f title app o m :
    pc_of t s = AtMark f title app ->
    record_mark o (f_action f) (f_x f) (f_y f) (f_img f) (glob s)
    = (Ok m, glob s) ->
    effect cfg s (Mark t o) (AtAppend f title app m) (glob s) (lock s)
| E_append t f title app m o :
    pc_of t s = AtAppend f title app m ->
    let st :=
      {| idx := step_counter (glob s);
         ts := now_human o;
         action := f_action f;
         x := f_x f; y := f_y f;
         window_title := title;
         app_name := app;
         img_rel := "images/" ++ name (f_img f);
         img_mark_rel := if truthy_str m then m
                         else "images/" ++ name (f_img f) |} in
    effect cfg s (Append t o) (AtPrint f title app st)
      (steps_append st (glob s)) (lock s)
| E_emit t f title app st o :
    pc_of t s = AtPrint f title app st ->
    stdout o (record_line st (f_action f) (f_x f) (f_y f) (f_img f)
                title app) = Ok tt ->
    effect cfg s (Emit t o) (AtRelease f)
      (console_append
         (record_line st (f_action f) (f_x f) (f_y f) (f_img f) title app)
         (glob s))
      (lock s)
| E_emit_raises t f title app st o e p g :
    pc_of t s = AtPrint f title app st ->
    stdout o (record_line st (f_action f) (f_x f) (f_y f) (f_img f)
                title app) = Raise e ->
    unwound (f_cb f) e o (glob s) = (p, g) ->
    effect cfg s (Emit t o) p g None
| E_release t f :
    pc_of t s = AtRelease f ->
    effect cfg s (Release t) Idle (glob s) None.

(** ** The actions that reach the ledger *)

Definition action_form (a : string) : Prop :=
  (exists b, a = click_action b)
  \/ (exists dx dy, a = scroll_action dx dy)
  \/ a = "manual screenshot".

(** The action a thread is carrying towards the ledger. *)
Definition pc_action (p : pc) : option string :=
  match p with
  | AtCapture _ a _ _ => Some a
  | AtLock f | AtIncr f | AtInspect f | AtMark f _ _ | AtAppend f _ _ _ =>
      Some (f_action f)
  | _ => None
  end.

Definition carried_action_ok (p : pc) : Prop :=
  match pc_action p with
  | Some a => action_form a
  | None => True
  end.

Definition Actions (s : State) : Prop :=
  Forall (fun st => action_form (action st)) (steps (glob s))
  /\ forall t, carried_action_ok (pc_of t s).

(** ** The application name outside Windows *)

Definition carried_app_empty (p : pc) : Prop :=
  match p with
  | AtMark _ _ app | AtAppend _ _ app _ => app = ""
  | _ => True
  end.

Definition NoApp (s : State) : Prop :=
  Forall (fun st => app_name st = "") (steps (glob s))
  /\ forall t, carried_app_empty (pc_of t s).

(* ================================================================== *)
(** * File names *)
(* ================================================================== *)

(** The ledger reference of the file captured at clock reading [ms]. *)
Definition shot_ref (ms : Z) : string :=
  "images/" ++ name (slash IMAGES_DIR ("step" ++ "_" ++ str_int ms ++ ".png")).

(** ** Which captures reach the ledger *)

(** The image reference a thread is carrying towards the ledger. *)
Definition pending (p : pc) : list string :=
  match p with
  | AtLock f | AtIncr f | AtInspect f | AtMark f _ _ | AtAppend f _ _ _ =>
      ["images/" ++ name (f_img f)]
  | _ => []
  end.

(** The references in the ledger and those on their way to it. *)
Definition images (s : State) : list string :=
  (map img_rel (steps (glob s)) ++ pending (mouse s) ++ pending (keyboard s))%list.

(** The clock readings of the captures of a schedule, in order. *)
Fixpoint capture_times (sched : list label) : list Z :=
  match sched with
  | [] => []
  | Capture _ o :: rest => time_ms o :: capture_times rest
  | _ :: rest => capture_times rest
  end.

(** ** The capture behind each step *)

(** The clock readings of the latest capture of the mouse thread and of
    the keyboard thread. *)
Definition Reads : Type := (Z * Z)%type.

Definition held (h : Reads) (t : tid) : Z :=
  match t with Mouse => fst h | Keyboard => snd h end.

(** A capture of thread [t] reads the clock of its world, whether or not
    the screenshot is then saved. *)
Definition reads (h : Reads) (l : label) : Reads :=
  match l with
  | Capture Mouse o => (time_ms o, snd h)
  | Capture Keyboard o => (fst h, time_ms o)
  | _ => h
  end.

(** The step a thread appends is the step of its latest capture. *)
Definition appended (h : Reads) (l : label) : list Z :=
  match l with
  | Append t _ => [held h t]
  | _ => []
  end.

(** The clock readings of the captures behind the steps that a schedule
    appends, in the order of the ledger. *)
Fixpoint readings_from (h : Reads) (sched : list label) : list Z :=
  match sched with
  | [] => []
  | l :: rest => (appended h l ++ readings_from (reads h l) rest)%list
  end.

Definition step_readings (sched : list label) : list Z :=
  readings_from (0, 0) sched.

(** Each thread carries the file of its latest capture. *)
Definition Carried (h : Reads) (s : State) : Prop :=
  forall t, Forall (fun r => r = shot_ref (held h t)) (pending (pc_of t s)).

(* ================================================================== *)
(** * Schedules used as examples *)
(* ================================================================== *)

Definition left_click : event := Click 100 200 Button_left true.

(** A click and an F9 press arrive together.  The keyboard thread takes
    its screenshot first (clock 1000), the mouse thread second (clock
    1001), and the mouse thread is the first to get the lock. *)
Definition overtaking : list label :=
  [ Deliver Mouse left_click;
    Deliver Keyboard (Press Key_f9);
    Capture Keyboard (fine 1000);
    Capture Mouse (fine 1001);
    Acquire Mouse; Incr Mouse; Inspect Mouse (fine 1002);
    Mark Mouse (fine 1003); Append Mouse (fine 1004);
    Emit Mouse (fine 1004);
    Release Mouse;
    Acquire Keyboard; Incr Keyboard; Inspect Keyboard (fine 1005);
    Mark Keyboard (fine 1006); Append Keyboard (fine 1007);
    Emit Keyboard (fine 1007);
    Release Keyboard ].

Definition state_after (cfg : Setup) (sched : list label) : State :=
  match run cfg initial sched with
  | Some s => s
  | None => initial
  end.

Definition overtaking_end : State :=
  Eval vm_compute in state_after (shipped true) overtaking.

(** The keyboard thread is inside [record], holding the lock, when a
    click arrives. *)
Definition keyboard_busy : list label :=
  [ Deliver Keyboard (Press Key_f9);
    Capture Keyboard (fine 1000);
    Acquire Keyboard; Incr Keyboard;
    Deliver Mouse left_click ].

Definition keyboard_busy_end : State :=
  Eval vm_compute in state_after (shipped true) keyboard_busy.

Definition keyboard_busy_next : State :=
  Eval vm_compute in
    state_after (shipped true)
      (keyboard_busy ++ [Inspect Keyboard (fine 1001)]).

(** Both threads read the clock in the same millisecond. *)
Definition same_millisecond : list label :=
  [ Deliver Mouse left_click;
    Deliver Keyboard (Press Key_f9);
    Capture Mouse (fine 1000);
    Capture Keyboard (fine 1000);
    Acquire Mouse; Incr Mouse; Inspect Mouse (fine 1002);
    Mark Mouse (fine 1003); Append Mouse (fine 1004);
    Emit Mouse (fine 1004);
    Release Mouse;
    Acquire Keyboard; Incr Keyboard; Inspect Keyboard (fine 1005);
    Mark Keyboard (fine 1006); Append Keyboard (fine 1007);
    Emit Keyboard (fine 1007);
    Release Keyboard ].

(** Two captures in the same millisecond, then a click a second later. *)
Definition same_millisecond_then_click : list label :=
  (same_millisecond ++ solo Mouse left_click (fine 2000))%list.

Definition same_millisecond_then_click_end : State :=
  Eval vm_compute in state_after (shipped true) same_millisecond_then_click.

(** The labels that build a step: from the capture to the console line. *)
Definition builds_step (l : label) : bool :=
  match l with
  | Capture _ _ | Incr _ | Inspect _ _ | Mark _ _ | Append _ _ | Emit _ _ =>
      true
  | _ => false
  end.

Definition is_capture (l : label) : bool :=
  match l with
  | Capture _ _ => true
  | _ => false
  end.

(** The statements of [record]'s [with lock:] block. *)
Definition inside_with (l : label) : bool :=
  match l with
  | Incr _ | Inspect _ _ | Mark _ _ | Append _ _ | Emit _ _ => true
  | _ => false
  end.

(* ================================================================== *)
(** * The action field *)
(* ================================================================== *)

(** The three events of the specification's scenarios, one after the
    other. *)
Definition three_events : list label :=
  (solo Mouse left_click (fine 1000)
   ++ solo Mouse (Scroll 50 50 0 (-3)) (fine 2000)
   ++ solo Keyboard (Press Key_f9) (fine 3000))%list.

Definition three_events_end : State :=
  Eval vm_compute in state_after (shipped true) three_events.

(* ================================================================== *)
(** * The crop region *)
(* ================================================================== *)

(** The source with another crop radius. *)
Definition cropping (radius : Z) : Setup :=
  {| CROP_RADIUS := radius; is_windows := true; gw := true;
     win32gui := true; win32process := true |}.

(** The square of side [2 * radius] centred on [(x, y)]. *)
Definition centred_square (x y radius : Z) : Region :=
  (x - radius, y - radius, 2 * radius, 2 * radius).

Definition region_eqb (a b : option Region) : bool :=
  match a, b with
  | None, None => true
  | Some (l, t, w, h), Some (l', t', w', h') =>
      (l =? l') && (t =? t') && (w =? w') && (h =? h')
  | _, _ => false
  end.

(** A screenshot primitive that answers only when asked for [r]. *)
Definition expecting (r : option Region) (ms : Z) : World :=
  {| time_ms := ms;
     screenshot_save := fun region _ =>
       if region_eqb region r then Ok tt else Raise "another region";
     windows := notepad;
     pillow := studio;
     now_human := "2024-05-06 10:00:00";
     stdout := fun _ => Ok tt |}.

(* ================================================================== *)
(** * The annotation *)
(* ================================================================== *)

Definition in_box (b : Box) (i j : Z) : Prop :=
  let '(x0, y0, x1, y1) := b in x0 <= i <= x1 /\ y0 <= j <= y1.

(** The bounding box of the circle of radius [r] centred on [(x, y)]. *)
Definition ring_box (x y r : Z) : Box := (x - r, y - r, x + r, y + r).

(** What the annotation relies on from Pillow's [ellipse]: the image keeps
    its mode and size, and no pixel outside the bounding box changes. *)
Record draws_inside_box (pil : Pillow) : Prop := {
  ellipse_mode : forall im b c w im',
    ellipse pil im b c w = Ok im' -> mode im' = mode im;
  ellipse_width : forall im b c w im',
    ellipse pil im b c w = Ok im' -> width im' = width im;
  ellipse_height : forall im b c w im',
    ellipse pil im b c w = Ok im' -> height im' = height im;
  ellipse_outside : forall im b c w im' i j,
    ellipse pil im b c w = Ok im' -> ~ in_box b i j ->
    getpixel im' i j = getpixel im i j
}.

Definition marked_1000 : Path := slash IMAGES_MARKED_DIR "step_1000.png".
Definition raw_1000 : Path := slash IMAGES_DIR "step_1000.png".

(* ================================================================== *)
(** * The window inspector *)
(* ================================================================== *)


(* ================================================================== *)
(** * The application name outside Windows *)
(* ================================================================== *)

Definition three_events_elsewhere_end : State :=
  Eval vm_compute in state_after (shipped false) three_events.


(* ================================================================== *)
(** * More about the ledger and the threads *)
(* ================================================================== *)

Definition is_append (l : label) : bool :=
  match l with
  | Append _ _ => true
  | _ => false
  end.

(** The terminate key reaches [on_press]. *)
Definition is_esc (l : label) : bool :=
  match l with
  | Deliver Keyboard (Press Key_esc) => true
  | _ => false
  end.

Definition is_stopped (p : pc) : bool :=
  match p with
  | Stopped => true
  | _ => false
  end.

(** The position that goes with an action: none for the manual capture,
    both coordinates otherwise. *)
Definition position_fits (a : string) (x y : option Z) : Prop :=
  (a = "manual screenshot" /\ x = None /\ y = None)
  \/ (a <> "manual screenshot" /\ (exists n, x = Some n) /\ (exists n, y = Some n)).

(** The two references of a step name the same file: the marked one is
    the raw one, or the file of the same name under [images_marked],
    which happens for clicks only. *)
Definition refs_fit (a img_rel img_mark_rel : string) : Prop :=
  exists n,
    img_rel = "images/" ++ n
    /\ (img_mark_rel = "images/" ++ n
        \/ (img_mark_rel = "images_marked/" ++ n
            /\ startswith a "click" = true)).

Definition step_shape (st : Step) : Prop :=
  position_fits (action st) (x st) (y st)
  /\ refs_fit (action st) (img_rel st) (img_mark_rel st).

Definition carried_shape (p : pc) : Prop :=
  match p with
  | AtCapture _ a x y => position_fits a x y
  | AtLock f | AtIncr f | AtInspect f | AtMark f _ _ =>
      position_fits (f_action f) (f_x f) (f_y f)
  | AtAppend f _ _ m =>
      position_fits (f_action f) (f_x f) (f_y f)
      /\ (m = ""
          \/ (m = "images_marked/" ++ name (f_img f)
              /\ startswith (f_action f) "click" = true))
  | _ => True
  end.

Definition Shaped (s : State) : Prop :=
  Forall step_shape (steps (glob s))
  /\ forall t, carried_shape (pc_of t s).

(** The statements of the [with] block that thread [t] has still to
    execute at program point [p]. *)
Definition rest_of_block (t : tid) (p : pc) (o : World) : list label :=
  match p with
  | AtIncr _ =>
      [Incr t; Inspect t o; Mark t o; Append t o; Emit t o; Release t]
  | AtInspect _ => [Inspect t o; Mark t o; Append t o; Emit t o; Release t]
  | AtMark _ _ _ => [Mark t o; Append t o; Emit t o; Release t]
  | AtAppend _ _ _ _ => [Append t o; Emit t o; Release t]
  | AtPrint _ _ _ _ => [Emit t o; Release t]
  | AtRelease _ => [Release t]
  | _ => []
  end.

(** The same statements up to the [print]: when it raises, the exception
    leaves the block and there is no statement left to execute. *)
Definition block_to_print (t : tid) (p : pc) (o : World) : list label :=
  match p with
  | AtIncr _ => [Incr t; Inspect t o; Mark t o; Append t o; Emit t o]
  | AtInspect _ => [Inspect t o; Mark t o; Append t o; Emit t o]
  | AtMark _ _ _ => [Mark t o; Append t o; Emit t o]
  | AtAppend _ _ _ _ => [Append t o; Emit t o]
  | AtPrint _ _ _ _ => [Emit t o]
  | _ => []
  end.

(** A thread is between two callbacks, or an exception has ended its
    last one. *)
Definition left_callback (p : pc) : Prop :=
  p = Idle \/ exists e, p = Crashed e.

(** A capture of the schedule whose screenshot was saved. *)
Definition saved_capture (l : label) (ref : string) : Prop :=
  exists t o region,
    l = Capture t o
    /\ screenshot_save o region (screenshot_path o "step") = Ok tt
    /\ ref = shot_ref (time_ms o).

(** A session that ends with the terminate key. *)
Definition until_esc : list label :=
  (solo Mouse left_click (fine 1000)
   ++ [Deliver Keyboard (Press Key_esc)])%list.

Definition until_esc_end : State :=
  Eval vm_compute in state_after (shipped true) until_esc.

(** Standard output accepts every line. *)
Definition prints_all (o : World) : Prop := forall line, stdout o line = Ok tt.

(** Thread [t] leaves the [with] block from state [s]: it runs [full],
    or [short] when the [print] raises; then the lock is free, [t] has
    left its callback and the other thread has not moved.  When the
    [print] returns, [full] is run and [t] is back between callbacks. *)
Definition closes (cfg : Setup) (t : tid) (o : World) (s : State)
    (full short : list label) : Prop :=
  exists s',
    (run cfg s full = Some s' \/ run cfg s short = Some s')
    /\ lock s' = None
    /\ left_callback (pc_of t s')
    /\ pc_of (other t) s' = pc_of (other t) s
    /\ (prints_all o -> run cfg s full = Some s' /\ pc_of t s' = Idle).

(** A world whose standard output cannot encode any line. *)
Definition mute (ms : Z) : World :=
  {| time_ms := ms;
     screenshot_save := fun _ _ => Ok tt;
     windows := notepad;
     pillow := studio;
     now_human := "2024-05-06 10:00:00";
     stdout := fun _ => Raise "UnicodeEncodeError" |}.

(** The mouse thread holds the lock and is about to print. *)
Definition mouse_at_print : list label :=
  [ Deliver Mouse left_click;
    Capture Mouse (fine 1000);
    Acquire Mouse; Incr Mouse; Inspect Mouse (fine 1001);
    Mark Mouse (fine 1002); Append Mouse (fine 1003) ].

Definition mouse_at_print_end : State :=
  Eval vm_compute in state_after (shipped true) mouse_at_print.

(* ================================================================== *)
(** * The reports *)
(* ================================================================== *)

(** The characters that the source writes as [\n] and as a double
    quote. *)
Definition nl : string := String (ascii_of_nat 10) EmptyString.
Definition dq : string := String (ascii_of_nat 34) EmptyString.

(** What is fixed when the module is loaded, for the reports: the run
    identifier, whether python-docx was imported, [str(BASE_OUT)] and
    [str(BASE_OUT / rel)] for a path [rel] below it.  Files are named by
    their path below [BASE_OUT]. *)
Record Run := {
  RUN_ID : string;
  HAS_DOCX : bool;
  str_BASE_OUT : string;
  str_under : string -> string
}.

Definition HTML_THEME_DARK : bool := true.

Definition MD_FILE : string := "steps.md".
Definition HTML_FILE : string := "report.html".
Definition DOCX_FILE : string := "Relatorio_Acoes.docx".

(** A python-docx document, as the blocks added to it: a centred
    paragraph with one run (the cover lines), a heading, a plain
    paragraph, a paragraph whose run holds a picture of width
    [Inches(6.2)], the paragraph with an empty run that [add_picture]
    leaves behind when it raises, a page break. *)
Inductive Block :=
| CoverLine (text : string) (bold : bool) (pt : Z)
| Heading (text : string) (level : Z)
| Paragraph (text : string)
| Picture (path : string)
| EmptyRun
| PageBreak.

(** What a file holds: text, a saved document, or what is left of a
    document whose saving was interrupted. *)
Inductive Content :=
| Text (s : string)
| Docx (doc : list Block)
| Damaged.

(** How a write ends.  The file is opened for writing, which empties
    it, and then filled: the write is complete, or the file could not be
    opened and is as before, or an exception interrupted the write and
    the file holds [kept], the part that had reached it (nothing when
    the text could not be encoded). *)
Inductive Write :=
| Written
| NotOpened (e : string)
| Broken (e : string) (kept : string).

(** How [doc.save] ends, likewise. *)
Inductive Save :=
| Saved
| SaveNotOpened (e : string)
| SaveBroken (e : string).

(** The files of the output directory (the latest write first) and the
    lines printed by the main thread. *)
Record Outside := {
  files : list (string * Content);
  printed : list string
}.

Definition nothing_yet : Outside := {| files := []; printed := [] |}.

Fixpoint read_file (fs : list (string * Content)) (file : string)
  : option Content :=
  match fs with
  | [] => None
  | (f, c) :: rest => if String.eqb f file then Some c else read_file rest file
  end.

(** The outside world during one renderer: how writing a text to a file
    ends, whether standard output accepts a line, whether python-docx
    can open a new document, whether it accepts a block (it refuses text
    that XML cannot hold), whether it can embed a picture, how saving
    ends, and the string [now_human()] returns. *)
Record Reporting := {
  write_result : string -> string -> Write;
  print_result : string -> Exc unit;
  new_document : Exc unit;
  accepts : Block -> Exc unit;
  add_picture : string -> Exc unit;
  save_result : Save;
  report_now : string
}.

(** [print(line)] on the main thread: the line is printed when the call
    returns. *)
Definition out_print (io : Reporting) (line : string) : M Outside unit :=
  call (print_result io line) ;;;
  modify (fun d => {| files := files d; printed := printed d ++ [line] |}).

Definition store (file : string) (c : Content) : M Outside unit :=
  modify (fun d => {| files := (file, c) :: files d; printed := printed d |}).

(** [file.write_text(content, encoding="utf-8")] *)
Definition write_text (io : Reporting) (file content : string)
  : M Outside unit :=
  match write_result io file content with
  | Written => store file (Text content)
  | NotOpened e => call (Raise e)
  | Broken e kept => store file (Text kept) ;;; call (Raise e)
  end.

(** [for v in l: body] *)
Fixpoint for_each {S A} (l : list A) (body : A -> M S unit) : M S unit :=
  match l with
  | [] => pass
  | v :: rest => body v ;;; for_each rest body
  end.

(** [lines.append(v)] on a local list. *)
Definition append_to {A} (v : A) : M (list A) unit :=
  modify (fun l => (l ++ [v])%list).

(** A block of statements over a local variable, started at [init],
    inside a block over [S]: the value of the local at the end. *)
Definition with_local {S L} (init : L) (m : M L unit) : M S L :=
  match m init with
  | (Ok _, l) => ret l
  | (Raise e, _) => call (Raise e)
  end.

(** ** [write_markdown] *)

(** The loop body of [write_markdown]. *)
Definition markdown_step (s : Step) : M (list string) unit :=
  append_to ("## Passo " ++ str_int (idx s) ++ nl) ;;;
  append_to ("**" ++ ts s ++ "**" ++ nl ++ nl) ;;;
  (if truthy_str (window_title s) || truthy_str (app_name s) then
     let w := if truthy_str (window_title s)
              then "**Janela:** " ++ window_title s else "" in
     let a := if truthy_str (app_name s)
              then " (app: `" ++ app_name s ++ "`)" else "" in
     append_to ("- " ++ w ++ a ++ nl)
   else pass) ;;;
  (if startswith (action s) "click" then
     append_to ("- **Ação:** " ++ action s ++ " — posição ("
                ++ str_opt_int (x s) ++ ", " ++ str_opt_int (y s) ++ ")" ++ nl)
   else
     append_to ("- **Ação:** " ++ action s ++ nl)) ;;;
  append_to ("- **Objetivo/Observação:** _preencha aqui_" ++ nl ++ nl) ;;;
  append_to ("![screenshot](" ++ img_mark_rel s ++ ")" ++ nl ++ nl).

(** The list [lines] built by [write_markdown]. *)
Definition markdown_lines (run : Run) (ledger : list Step)
  : M (list string) unit :=
  append_to ("# Registro de Ações — " ++ RUN_ID run ++ nl) ;;;
  append_to ("> **Dica**: substitua os campos *Objetivo/Observação* após a captura."
             ++ nl ++ nl) ;;;
  for_each ledger markdown_step.

Definition write_markdown (run : Run) (io : Reporting) (ledger : list Step)
  : M Outside unit :=
  lines <~ with_local [] (markdown_lines run ledger) ;;
  write_text io MD_FILE (String.concat nl lines).

(** ** [write_html] *)

(** An f-string: literal text and replacement fields [{name:spec}]. *)
Inductive part :=
| Lit (text : string)
| Field (name spec : string).

Fixpoint lookup_name (ns : list (string * string)) (n : string)
  : option string :=
  match ns with
  | [] => None
  | (k, v) :: rest => if String.eqb k n then Some v else lookup_name rest n
  end.

(** The value of a replacement field whose expression is a name.  [ns]
    holds the string variables in scope; a name that is not bound raises
    [NameError].  For a string, the empty format specification gives the
    string itself; the only other specification the source has is not
    one that [str] accepts. *)
Definition field_value (ns : list (string * string)) (n spec : string)
  : Exc string :=
  match lookup_name ns n with
  | None => Raise ("NameError: name '" ++ n ++ "' is not defined")
  | Some v =>
      match spec with
      | EmptyString => Ok v
      | _ => Raise "ValueError: Invalid format specifier"
      end
  end.

(** The fields are evaluated from left to right. *)
Fixpoint fstring (ns : list (string * string)) (ps : list part) : Exc string :=
  match ps with
  | [] => Ok ""
  | Lit text :: rest =>
      r <- fstring ns rest ;;
      Ok (text ++ r)
  | Field n spec :: rest =>
      v <- field_value ns n spec ;;
      r <- fstring ns rest ;;
      Ok (v ++ r)
  end.

Definition css_dark : string :=
  nl
  ++ "    :root { --bg:#111; --fg:#eaeaea; --muted:#9aa0a6; --card:#1b1b1b; --accent:#7aa2ff; --border:#2a2a2a; }" ++ nl
  ++ "    ".

Definition css_light : string :=
  nl
  ++ "    :root { --bg:#f7f7f9; --fg:#1a1a1a; --muted:#616161; --card:#ffffff; --accent:#2a66ff; --border:#e6e6e6; }" ++ nl
  ++ "    ".

Definition head_template : list part :=
  [ Lit ("<!doctype html>" ++ nl
       ++ "<html lang=" ++ dq ++ "pt-br" ++ dq ++ "><head>" ++ nl
       ++ "<meta charset=" ++ dq ++ "utf-8" ++ dq ++ "/>" ++ nl
       ++ "<meta name=" ++ dq ++ "viewport" ++ dq ++ " content=" ++ dq ++ "width=device-width,initial-scale=1" ++ dq ++ "/>" ++ nl
       ++ "<title>Relatório de Ações — ");
    Field "RUN_ID" "";
    Lit ("</title>" ++ nl
       ++ "<style>" ++ nl);
    Field "css" "";
    Lit (nl
       ++ "*{box-sizing:border-box}" ++ nl
       ++ "body{margin:0;background:var(--bg);color:var(--fg);font:16px/1.5 system-ui,Segoe UI,Roboto,Arial}" ++ nl
       ++ ".container{max-width:1120px;margin:40px auto;padding:0 20px}" ++ nl
       ++ "h1{font-size:28px;margin:0 0 8px}" ++ nl
       ++ ".subtitle{color:var(--muted);margin-bottom:24px}" ++ nl
       ++ ".index{display:grid;grid-template-columns:repeat(auto-fill,minmax(220px,1fr));gap:12px;margin:16px 0 28px}" ++ nl
       ++ ".badge{display:inline-block;padding:2px 8px;background:var(--accent);color:#fff;border-radius:999px;font-size:12px;margin-left:8px}" ++ nl
       ++ ".card{background:var(--card);border:1px solid var(--border);border-radius:16px;padding:16px;margin:14px 0;box-shadow:0 2px 8px rgba(0,0,0,.15)}" ++ nl
       ++ ".card h2{margin:0 0 6px;font-size:20px}" ++ nl
       ++ ".meta{color:var(--muted);font-size:13px;margin-bottom:10px}" ++ nl
       ++ ".imgwrap{margin-top:10px;border-radius:12px;overflow:hidden;border:1px solid var(--border)}" ++ nl
       ++ ".imgwrap img{width:100%;display:block}" ++ nl
       ++ ".hr{height:1px;background:var(--border);margin:28px 0}" ++ nl
       ++ ".toplink{font-size:13px;color:var(--accent);text-decoration:none}" ++ nl
       ++ ".kv{display:grid;grid-template-columns:120px 1fr;gap:8px}" ++ nl
       ++ ".kv div:first-child{color:var(--muted)}" ++ nl
       ++ ".footer{color:var(--muted);font-size:12px;margin:32px 0}" ++ nl
       ++ "a");
    Field "color" "var(--accent); ";
    Lit (nl
       ++ "</style>" ++ nl
       ++ "</head><body><div class=" ++ dq ++ "container" ++ dq ++ ">" ++ nl
       ++ "<h1>Relatório de Ações <span class=" ++ dq ++ "badge" ++ dq ++ ">");
    Field "RUN_ID" "";
    Lit ("</span></h1>" ++ nl
       ++ "<div class=" ++ dq ++ "subtitle" ++ dq ++ ">Gerado automaticamente. Pressione ESC para encerrar; F9 captura manual.</div>" ++ nl
       ++ "<h3>Índice</h3>" ++ nl
       ++ "<div class=" ++ dq ++ "index" ++ dq ++ ">" ++ nl) ].

(** The first loop body of [write_html]: the index. *)
Definition html_index_entry (s : Step) : M (list string) unit :=
  append_to ("<a class=" ++ dq ++ "toplink" ++ dq ++ " href=" ++ dq ++ "#step-"
             ++ str_int (idx s) ++ dq ++ ">Passo " ++ str_int (idx s)
             ++ " — " ++ ts s ++ "</a>").

(** The second loop body of [write_html]: one card. *)
Definition html_card (s : Step) : M (list string) unit :=
  append_to ("<div class=" ++ dq ++ "card" ++ dq ++ " id=" ++ dq ++ "step-"
             ++ str_int (idx s) ++ dq ++ ">") ;;;
  append_to ("<h2>Passo " ++ str_int (idx s) ++ "</h2>") ;;;
  append_to ("<div class=" ++ dq ++ "meta" ++ dq ++ ">" ++ ts s ++ "</div>") ;;;
  append_to ("<div class=" ++ dq ++ "kv" ++ dq ++ ">") ;;;
  (if truthy_str (window_title s) then
     append_to ("<div>Janela</div><div>" ++ window_title s ++ "</div>")
   else pass) ;;;
  (if truthy_str (app_name s) then
     append_to ("<div>Aplicativo</div><div><code>" ++ app_name s
                ++ "</code></div>")
   else pass) ;;;
  (if startswith (action s) "click" then
     append_to ("<div>Ação</div><div>click — posição (" ++ str_opt_int (x s)
                ++ ", " ++ str_opt_int (y s) ++ ")</div>")
   else
     append_to ("<div>Ação</div><div>" ++ action s ++ "</div>")) ;;;
  append_to "<div>Observação</div><div><em>preencha aqui</em></div>" ;;;
  append_to "</div>" ;;;
  append_to ("<div class=" ++ dq ++ "imgwrap" ++ dq ++ "><img src=" ++ dq
             ++ img_mark_rel s ++ dq ++ " alt=" ++ dq ++ "Passo "
             ++ str_int (idx s) ++ dq ++ "/></div>") ;;;
  append_to ("<div style=" ++ dq ++ "margin-top:8px" ++ dq ++ "><a class=" ++ dq
             ++ "toplink" ++ dq ++ " href=" ++ dq ++ "#topo" ++ dq
             ++ ">↑ voltar ao topo</a></div>") ;;;
  append_to "</div>".

Definition write_html (run : Run) (io : Reporting) (ledger : list Step)
  : M Outside unit :=
  let css := if HTML_THEME_DARK then css_dark else css_light in
  head <~ call (fstring [("RUN_ID", RUN_ID run); ("css_dark", css_dark);
                         ("css_light", css_light); ("css", css)]
                  head_template) ;;
  idx <~ with_local [] (for_each ledger html_index_entry) ;;
  let head := head ++ String.concat nl idx
              ++ "</div><div class='hr'></div>" ++ nl in
  body <~ with_local [] (for_each ledger html_card) ;;
  let foot := nl
              ++ "<div class=" ++ dq ++ "footer" ++ dq ++ ">Relatório gerado em "
              ++ report_now io ++ " — "
              ++ str_int (Z.of_nat (List.length ledger)) ++ " passo(s).</div>"
              ++ nl
              ++ "</div></body></html>" ++ nl in
  write_text io HTML_FILE (head ++ String.concat nl body ++ foot).

(** ** [write_docx_if_possible] *)

(** A call that adds the block [b] to the document. *)
Definition add (io : Reporting) (b : Block) : M (list Block) unit :=
  call (accepts io b) ;;;
  append_to b.

(** [doc.add_picture(path, width=Inches(6.2))]: python-docx first adds a
    paragraph with an empty run, then opens the image and puts it in the
    run; when the image cannot be opened the paragraph stays. *)
Definition doc_add_picture (io : Reporting) (path : string)
  : M (list Block) unit :=
  match add_picture io path with
  | Ok _ => append_to (Picture path)
  | Raise e => append_to EmptyRun ;;; call (Raise e)
  end.

(** The loop body of [write_docx_if_possible]. *)
Definition docx_step (run : Run) (io : Reporting) (s : Step)
  : M (list Block) unit :=
  add io (Heading ("Passo " ++ str_int (idx s)) 1) ;;;
  add io (Paragraph (ts s)) ;;;
  (if truthy_str (window_title s) then
     add io (Paragraph ("Janela: " ++ window_title s))
   else pass) ;;;
  (if truthy_str (app_name s) then
     add io (Paragraph ("Aplicativo: " ++ app_name s))
   else pass) ;;;
  (if startswith (action s) "click" then
     add io (Paragraph ("Ação: " ++ action s ++ " — posição ("
                        ++ str_opt_int (x s) ++ ", " ++ str_opt_int (y s)
                        ++ ")"))
   else
     add io (Paragraph ("Ação: " ++ action s))) ;;;
  add io (Paragraph "Observação: ______________________________") ;;;
  (let imgp := str_under run (img_mark_rel s) in
   mtry (doc_add_picture io imgp) (fun _ => pass)) ;;;
  add io PageBreak.

(** The document built by [write_docx_if_possible], after
    [Document()]. *)
Definition docx_document (run : Run) (io : Reporting) (ledger : list Step)
  : M (list Block) unit :=
  add io (CoverLine "Relatório de Ações" true 28) ;;;
  add io (CoverLine ("ID: " ++ RUN_ID run ++ " — Gerado em "
                     ++ report_now io) false 12) ;;;
  add io PageBreak ;;;
  for_each ledger (docx_step run io).

(** [doc.save(DOCX_FILE)] *)
Definition doc_save (io : Reporting) (file : string) (doc : list Block)
  : M Outside unit :=
  match save_result io with
  | Saved => store file (Docx doc)
  | SaveNotOpened e => call (Raise e)
  | SaveBroken e => store file Damaged ;;; call (Raise e)
  end.

Definition write_docx_if_possible (run : Run) (io : Reporting)
    (ledger : list Step) : M Outside unit :=
  if negb (HAS_DOCX run) then
    out_print io
      "python-docx não instalado — pulando DOCX (pip install python-docx)"
  else
    call (new_document io) ;;;
    doc <~ with_local [] (docx_document run io ledger) ;;
    doc_save io DOCX_FILE doc ;;;
    out_print io ("📄 DOCX gerado: " ++ str_under run DOCX_FILE).

(** ** [start] *)

(** [start()], with the listening phase between its two halves: [ledger]
    is the value of [steps] when the listeners have been stopped.  The
    renderers run one after the other, each in its own world. *)
Definition start (run : Run) (io0 io_md io_html io_docx : Reporting)
    (ledger : list Step) : M Outside unit :=
  write_text io0 MD_FILE ("# Registro de Ações — " ++ RUN_ID run ++ nl ++ nl) ;;;
  out_print io0 "Iniciado. ESC para encerrar, F9 para screenshot manual." ;;;
  out_print io0 ("Saída: " ++ str_BASE_OUT run) ;;;
  write_markdown run io_md ledger ;;;
  write_html run io_html ledger ;;;
  write_docx_if_possible run io_docx ledger ;;;
  out_print io_docx (nl ++ "✅ Finalizado!") ;;;
  out_print io_docx ("- Markdown: " ++ str_under run MD_FILE) ;;;
  out_print io_docx ("- HTML:     " ++ str_under run HTML_FILE) ;;;
  (if HAS_DOCX run
   then out_print io_docx ("- DOCX:     " ++ str_under run DOCX_FILE)
   else pass).

(** ** Worlds and ledgers for the reports *)

Definition a_run (docx : bool) : Run :=
  {| RUN_ID := "20240506_100000"; HAS_DOCX := docx;
     str_BASE_OUT := "/home/u/recording_20240506_100000";
     str_under := fun rel => "/home/u/recording_20240506_100000/" ++ rel |}.

(** Every write, every print and every picture succeeds. *)
Definition helpful : Reporting :=
  {| write_result := fun _ _ => Written;
     print_result := fun _ => Ok tt;
     new_document := Ok tt;
     accepts := fun _ => Ok tt;
     add_picture := fun _ => Ok tt;
     save_result := Saved;
     report_now := "2024-05-06 10:05:00" |}.

(** No picture can be embedded. *)
Definition no_pictures : Reporting :=
  {| write_result := fun _ _ => Written;
     print_result := fun _ => Ok tt;
     new_document := Ok tt;
     accepts := fun _ => Ok tt;
     add_picture := fun _ => Raise "UnrecognizedImageError";
     save_result := Saved;
     report_now := "2024-05-06 10:05:00" |}.

(** The disk fills up while [steps.md] is written. *)
Definition disk_full : Reporting :=
  {| write_result := fun _ _ => Broken "OSError: No space left on device" "";
     print_result := fun _ => Ok tt;
     new_document := Ok tt;
     accepts := fun _ => Ok tt;
     add_picture := fun _ => Ok tt;
     save_result := Saved;
     report_now := "2024-05-06 10:05:00" |}.

(** python-docx accepts every block. *)
Definition accepts_all (io : Reporting) : Prop :=
  forall b, accepts io b = Ok tt.

Definition is_empty_run (b : Block) : bool :=
  match b with EmptyRun => true | _ => false end.

Definition is_heading (b : Block) : bool :=
  match b with Heading _ _ => true | _ => false end.

Definition is_picture (b : Block) : bool :=
  match b with Picture _ => true | _ => false end.

Definition is_page_break (b : Block) : bool :=
  match b with PageBreak => true | _ => false end.

(** The lines of one step in the markdown report. *)
Definition markdown_section (s : Step) : list string :=
  List.app
    ["## Passo " ++ str_int (idx s) ++ nl;
     "**" ++ ts s ++ "**" ++ nl ++ nl]
    (List.app
       (if truthy_str (window_title s) || truthy_str (app_name s)
        then ["- "
              ++ (if truthy_str (window_title s)
                  then "**Janela:** " ++ window_title s else "")
              ++ (if truthy_str (app_name s)
                  then " (app: `" ++ app_name s ++ "`)" else "")
              ++ nl]
        else [])
       [if startswith (action s) "click"
        then "- **Ação:** " ++ action s ++ " — posição ("
             ++ str_opt_int (x s) ++ ", " ++ str_opt_int (y s) ++ ")" ++ nl
        else "- **Ação:** " ++ action s ++ nl;
        "- **Objetivo/Observação:** _preencha aqui_" ++ nl ++ nl;
        "![screenshot](" ++ img_mark_rel s ++ ")" ++ nl ++ nl]).

(** The two lines before the first step. *)
Definition markdown_header (run : Run) : list string :=
  ["# Registro de Ações — " ++ RUN_ID run ++ nl;
   "> **Dica**: substitua os campos *Objetivo/Observação* após a captura."
   ++ nl ++ nl].

(** The text that [write_markdown] writes. *)
Definition markdown_text (run : Run) (ledger : list Step) : string :=
  String.concat nl
    (List.app (markdown_header run) (flat_map markdown_section ledger)).

(** The blocks of one step in the page document, given which pictures
    can be embedded. *)
Definition docx_section (run : Run) (io : Reporting) (s : Step) : list Block :=
  List.app
    [Heading ("Passo " ++ str_int (idx s)) 1;
     Paragraph (ts s)]
    (List.app
       (if truthy_str (window_title s)
        then [Paragraph ("Janela: " ++ window_title s)] else [])
       (List.app
          (if truthy_str (app_name s)
           then [Paragraph ("Aplicativo: " ++ app_name s)] else [])
          (List.app
             [if startswith (action s) "click"
              then Paragraph ("Ação: " ++ action s ++ " — posição ("
                              ++ str_opt_int (x s) ++ ", "
                              ++ str_opt_int (y s) ++ ")")
              else Paragraph ("Ação: " ++ action s);
              Paragraph "Observação: ______________________________"]
             (List.app
                [if raised (add_picture io (str_under run (img_mark_rel s)))
                 then EmptyRun
                 else Picture (str_under run (img_mark_rel s))]
                [PageBreak])))).

(** The cover. *)
Definition docx_cover (run : Run) (io : Reporting) : list Block :=
  [CoverLine "Relatório de Ações" true 28;
   CoverLine ("ID: " ++ RUN_ID run ++ " — Gerado em " ++ report_now io)
     false 12;
   PageBreak].

Definition docx_blocks (run : Run) (io : Reporting) (ledger : list Step)
  : list Block :=
  List.app (docx_cover run io) (flat_map (docx_section run io) ledger).

(* ================================================================== *)
(** * Events, steps and console lines *)
(* ================================================================== *)

(** The events for which a callback goes on to capture: a pressed click,
    a scroll, the F9 key. *)
Definition asks_for_step (l : label) : bool :=
  match l with
  | Deliver Mouse (Click _ _ _ true) => true
  | Deliver Mouse (Scroll _ _ _ _) => true
  | Deliver Keyboard (Press Key_f9) => true
  | _ => false
  end.

(** Whether a thread is working on a step that is not yet in the
    ledger. *)
Definition carrying (p : pc) : nat :=
  match p with
  | AtCapture _ _ _ _ | AtLock _ | AtIncr _ | AtInspect _ | AtMark _ _ _
  | AtAppend _ _ _ _ => 1
  | _ => 0
  end.

(** The file name inside a reference ["images/<name>"]. *)
Definition file_of_ref (r : string) : string :=
  substring 7 (String.length r - 7) r.

(** The console line of a step, from the step alone. *)
Definition console_line (st : Step) : string :=
  "[" ++ ts st ++ "] " ++ action st
  ++ " (" ++ str_opt_int (x st) ++ "," ++ str_opt_int (y st) ++ ") -> "
  ++ file_of_ref (img_rel st) ++ " | " ++ window_title st
  ++ " (" ++ app_name st ++ ")".

(** The lines printed by [record] start with a bracket. *)
Definition is_step_line (l : string) : bool := startswith l "[".

(** The line a thread is about to print. *)
Definition awaiting (p : pc) : list string :=
  match p with
  | AtPrint _ _ _ st => [console_line st]
  | _ => []
  end.

(** At the [print], the line to print is the line of the step. *)
Definition print_matches (p : pc) : Prop :=
  match p with
  | AtPrint f ti ap st =>
      record_line st (f_action f) (f_x f) (f_y f) (f_img f) ti ap
      = console_line st
  | _ => True
  end.

(** [a] is [b] with some elements left out. *)
Fixpoint subsequence {A} (a b : list A) : Prop :=
  match a, b with
  | [], _ => True
  | _ :: _, [] => False
  | v :: a', w :: b' => (v = w /\ subsequence a' b') \/ subsequence a b'
  end.

(** The lines of steps on the console and about to be printed, and the
    lines of the steps of the ledger. *)
Definition step_lines (s : State) : list string :=
  (filter is_step_line (console (glob s))
   ++ awaiting (mouse s) ++ awaiting (keyboard s))%list.

Definition ledger_lines (s : State) : list string :=
  map console_line (steps (glob s)).

Definition Matches (s : State) : Prop :=
  forall t, print_matches (pc_of t s).

(** Standard output accepts every line whenever a step is printed along
    the schedule. *)
Definition emits_all (sched : list label) : Prop :=
  forall t o, In (Emit t o) sched -> prints_all o.

(** The lines the callbacks print: the line of a step, or the error line
    of [on_press]. *)
Definition callback_line (l : string) : Prop :=
  is_step_line l = true \/ startswith l "on_press error: " = true.

(* ================================================================== *)
(** * Small facts about blocks, [strip] and [replace] *)
(* ================================================================== *)

(** A block that keeps a property of the variables, however it ends. *)
Definition keeps {S A} (P : S -> Prop) (m : M S A) : Prop :=
  forall s r s', P s -> m s = (r, s') -> P s'.

(** A block whose value, when it returns, is the final variables. *)
Definition returns_state {S} (m : M S S) : Prop :=
  forall s v s', m s = (Ok v, s') -> v = s'.

(** Whether [old] occurs somewhere in [s]. *)
Fixpoint occurs_in (old s : string) : bool :=
  match s with
  | EmptyString => false
  | String _ s' => String.prefix old s || occurs_in old s'
  end.
(* ################################################################## *)
(** * Properties *)
(* ################################################################## *)

(* ================================================================== *)
(** * Python values and exceptions *)
(* ================================================================== *)

Example replace_button_left : replace "Button.left" "Button." "" = "left".
Proof. reflexivity. Qed.

Example replace_twice : replace "aXbXc" "X" "--" = "a--b--c".
Proof. reflexivity. Qed.

Example strip_title : strip "  Notepad - file.txt  " = "Notepad - file.txt".
Proof. reflexivity. Qed.

Example str_int_neg : str_int (-3) = "-3" /\ str_int 0 = "0".
Proof. split; reflexivity. Qed.

(** Unicode white space is stripped too: a no-break space (U+00A0) at
    the left, a space and an em space (U+2003) at the right. *)
Example strip_no_break_space :
  strip (bytes [194; 160]%nat ++ "Notepad" ++ bytes [32; 226; 128; 131]%nat)
  = "Notepad".
Proof. reflexivity. Qed.

Example strip_only_white_space :
  strip (bytes [194; 160; 9; 194; 133]%nat) = "".
Proof. reflexivity. Qed.

(** A byte of a white-space character inside another character is kept:
    U+00E0 is [195; 160]. *)
Example strip_keeps_letters :
  strip (bytes [195; 160]%nat) = bytes [195; 160]%nat.
Proof. reflexivity. Qed.

(* ================================================================== *)
(** * Scenarios *)
(* ================================================================== *)

Example scenario_A :
  option_map steps
    (glob_after (shipped true)
       (solo Mouse (Click 100 200 Button_left true) (fine 1000)))
  = Some [ {| idx := 1; ts := "2024-05-06 10:00:00"; action := "click left";
              x := Some 100; y := Some 200;
              window_title := "Notepad"; app_name := "notepad.exe";
              img_rel := "images/step_1000.png";
              img_mark_rel := "images_marked/step_1000.png" |} ].
Proof. reflexivity. Qed.

Example scenario_A_console :
  option_map console
    (glob_after (shipped true)
       (solo Mouse (Click 100 200 Button_left true) (fine 1000)))
  = Some [ "[2024-05-06 10:00:00] click left (100,200) -> step_1000.png | Notepad (notepad.exe)" ].
Proof. reflexivity. Qed.

Example scenario_C :
  option_map steps
    (glob_after (shipped false)
       (solo Keyboard (Press Key_f9) (fine 2000)))
  = Some [ {| idx := 1; ts := "2024-05-06 10:00:00";
              action := "manual screenshot";
              x := None; y := None;
              window_title := "Notepad"; app_name := "";
              img_rel := "images/step_2000.png";
              img_mark_rel := "images/step_2000.png" |} ].
Proof. reflexivity. Qed.

(** A click whose screenshot cannot be decoded by Pillow: the step is
    recorded and refers to the unmarked image. *)
Example scenario_annotation_fails :
  option_map (fun g => map (fun st => (img_rel st, img_mark_rel st)) (steps g))
    (glob_after (shipped true)
       (solo Mouse (Click 100 200 Button_left true)
          {| time_ms := 1000;
             screenshot_save := fun _ _ => Ok tt;
             windows := notepad;
             pillow := broken_studio;
             now_human := "2024-05-06 10:00:00";
             stdout := fun _ => Ok tt |}))
  = Some [ ("images/step_1000.png", "images/step_1000.png") ].
Proof. reflexivity. Qed.

(** Standard output cannot encode the line of the step: the step is in
    the ledger, the exception leaves [record] and [on_click], the lock
    is free again and nothing is on the console. *)
Example scenario_print_raises :
  on_click (shipped true) (mute 1000) 100 200 Button_left true initial_globals
  = (Raise "UnicodeEncodeError",
     {| steps := [ {| idx := 1; ts := "2024-05-06 10:00:00";
                      action := "click left";
                      x := Some 100; y := Some 200;
                      window_title := "Notepad"; app_name := "notepad.exe";
                      img_rel := "images/step_1000.png";
                      img_mark_rel := "images_marked/step_1000.png" |} ];
        running := true; step_counter := 1; console := [] |})
  /\ option_map (fun s => (lock s, mouse s, List.length (steps (glob s)),
                           console (glob s)))
       (run (shipped true) initial
          [ Deliver Mouse left_click; Capture Mouse (mute 1000);
            Acquire Mouse; Incr Mouse; Inspect Mouse (mute 1000);
            Mark Mouse (mute 1000); Append Mouse (mute 1000);
            Emit Mouse (mute 1000) ])
     = Some (None, Crashed "UnicodeEncodeError", 1%nat, []).
Proof. split; reflexivity. Qed.

(** The same in [on_press]: the handler's own [print] raises as well, and
    that exception leaves the callback. *)
Example scenario_print_raises_on_press :
  fst (on_press (shipped true) (mute 1000) Key_f9 initial_globals)
  = Raise "UnicodeEncodeError"
  /\ option_map (fun s => (lock s, keyboard s, List.length (steps (glob s))))
       (run (shipped true) initial
          [ Deliver Keyboard (Press Key_f9); Capture Keyboard (mute 1000);
            Acquire Keyboard; Incr Keyboard; Inspect Keyboard (mute 1000);
            Mark Keyboard (mute 1000); Append Keyboard (mute 1000);
            Emit Keyboard (mute 1000) ])
     = Some (None, Crashed "UnicodeEncodeError", 1%nat).
Proof. split; reflexivity. Qed.

(** A title made of a no-break space is empty once stripped, and the
    win32gui lookup is consulted. *)
Example scenario_blank_title :
  active_window_info (shipped true)
    {| getActiveWindow :=
         Ok (Some {| title := Ok (Some (bytes [194; 160]%nat));
                     _hWnd := Some 4242 |});
       GetForegroundWindow := Ok 4242;
       GetWindowText := fun _ => Ok (Some "Editor");
       GetWindowThreadProcessId := fun _ => Ok 77;
       Process_name := fun _ => Ok "notepad.exe" |}
  = Ok ("Editor", "notepad.exe").
Proof. reflexivity. Qed.

(* ================================================================== *)
(** * [active_window_info] *)
(* ================================================================== *)

Lemma no_raise_ret {S A} (v : A) : no_raise (@ret S A v).
Proof. intros s. unfold ret. eauto. Qed.

Lemma no_raise_pass {S} : no_raise (@pass S).
Proof. apply no_raise_ret. Qed.

Lemma no_raise_get {S} : no_raise (@get S).
Proof. intros s. unfold get. eauto. Qed.

Lemma no_raise_modify {S} (f : S -> S) : no_raise (modify f).
Proof. intros s. unfold modify. eauto. Qed.

Lemma no_raise_bind {S A B} (m : M S A) (k : A -> M S B) :
  no_raise m -> (forall v, no_raise (k v)) -> no_raise (mbind m k).
Proof.
  intros Hm Hk s. unfold mbind.
  destruct (Hm s) as (v & s' & ->). apply Hk.
Qed.

(** [try: ... except Exception: pass] lets nothing escape, whatever the
    body does. *)
Lemma no_raise_try_pass {S} (body : M S unit) :
  no_raise (mtry body (fun _ => pass)).
Proof.
  intros s. unfold mtry, pass, ret.
  destruct (body s) as [[v | e] s']; eauto.
Qed.

Ltac no_raise_step :=
  first
    [ apply no_raise_try_pass
    | apply no_raise_pass
    | apply no_raise_ret
    | apply no_raise_get
    | apply no_raise_modify
    | apply no_raise_bind; [ | intros ? ]
    | match goal with
      | |- no_raise (if ?b then _ else _) => destruct b
      | |- no_raise (match ?o with Some _ => _ | None => _ end) => destruct o
      end ].

Lemma active_window_info_body_no_raise (cfg : Setup) (w : WinCalls) :
  no_raise (active_window_info_body cfg w).
Proof.
  unfold active_window_info_body, assign_title, assign_app.
  repeat no_raise_step.
Qed.

(** No exception escapes [active_window_info]. *)
Lemma active_window_info_total (cfg : Setup) (w : WinCalls) :
  exists title app, active_window_info cfg w = Ok (title, app).
Proof.
  unfold active_window_info.
  destruct (active_window_info_body_no_raise cfg w ("", ""))
    as ([t a] & s' & ->).
  cbn. eauto.
Qed.

Ltac run_block :=
  unfold assign_title, assign_app, mbind, mtry, call, get, modify, pass, ret;
  cbn [fst snd].

Lemma active_window_info_not_windows (cfg : Setup) (w : WinCalls) :
  is_windows cfg = false ->
  exists title, active_window_info cfg w = Ok (title, "").
Proof.
  intros Hw.
  unfold active_window_info, active_window_info_body.
  rewrite Hw. run_block. cbn [andb].
  destruct (gw cfg);
    [ destruct (getActiveWindow w) as [[win | ] | e];
      [ destruct (title win) as [t | e] | | ] | ];
    cbn [fst snd]; rewrite Bool.andb_false_r; cbn [andb fst snd]; eauto.
Qed.




(* ================================================================== *)
(** * [record] *)
(* ================================================================== *)

Lemma record_mark_spec (o : World) (action : string) (x y : option Z)
    (img_path : Path) (g : Globals) :
  exists m,
    record_mark o action x y img_path g = (Ok m, g)
    /\ (if truthy_str m then m else "images/" ++ name img_path)
       = (if annotated o action x y img_path
          then "images_marked/" ++ name img_path
          else "images/" ++ name img_path).
Proof.
  unfold record_mark, annotated. cbn [ANNOTATE_CLICK andb].
  destruct (startswith action "click"); cbn [andb].
  - unfold call, try_except, bind.
    destruct (annotate_click_on_image _ _ _ _) as [im | e];
      eexists; split; reflexivity.
  - unfold ret. eexists; split; reflexivity.
Qed.

Lemma record_spec (cfg : Setup) (o : World) (action : string)
    (x y : option Z) (img_path : Path) (g : Globals) (title app : string) :
  active_window_info cfg (windows o) = Ok (title, app) ->
  let st := recorded_step o (step_counter g) action x y img_path title app in
  let g1 := {| steps := steps g ++ [st]; running := running g;
               step_counter := step_counter g + 1; console := console g |} in
  let line := record_line st action x y img_path title app in
  record cfg o action x y img_path g
  = match stdout o line with
    | Ok _ => (Ok tt, console_append line g1)
    | Raise e => (Raise e, g1)
    end.
Proof.
  intros Hw st g1 line. subst st g1 line.
  unfold record, record_incr, record_inspect, record_append, record_print,
    print.
  unfold mbind at 1. cbn [modify].
  unfold mbind at 1. unfold call at 1. rewrite Hw.
  unfold mbind at 1.
  destruct (record_mark_spec o action x y img_path
              (set_step_counter (step_counter g + 1) g)) as (m & -> & Hm).
  run_block. unfold steps_append, set_step_counter, recorded_step.
  cbn [steps running step_counter console ts]. rewrite Hm.
  destruct (stdout o _) as [[] | e]; reflexivity.
Qed.

(* ================================================================== *)
(** * The steps, case by case *)
(* ================================================================== *)

(** A property of the initial state that every step preserves holds along
    every schedule. *)
Lemma run_invariant (cfg : Setup) (P : State -> Prop) :
  (forall s l s', P s -> step cfg s l = Some s' -> P s') ->
  forall sched s s', P s -> run cfg s sched = Some s' -> P s'.
Proof.
  intros Hstep. induction sched as [ | l sched IH]; intros s s' Hs Hrun.
  - cbn in Hrun. injection Hrun as <-. exact Hs.
  - cbn in Hrun. destruct (step cfg s l) as [s1 | ] eqn:H1; [ | discriminate ].
    eapply IH; [ | exact Hrun ]. eapply Hstep; eauto.
Qed.

Lemma glob_upd t p g lk s : glob (upd t p g lk s) = g.
Proof. destruct t; reflexivity. Qed.

Lemma lock_upd t p g lk s : lock (upd t p g lk s) = lk.
Proof. destruct t; reflexivity. Qed.

Lemma pc_upd_same t p g lk s : pc_of t (upd t p g lk s) = p.
Proof. destruct t; reflexivity. Qed.

Lemma pc_upd_other t p g lk s : pc_of (other t) (upd t p g lk s) = pc_of (other t) s.
Proof. destruct t; reflexivity. Qed.

Lemma upd_set_pc t p s : set_pc t p s = upd t p (glob s) (lock s) s.
Proof. destruct t, s; reflexivity. Qed.

Lemma upd_set_pc_glob t p g s :
  set_pc t p (set_glob g s) = upd t p g (lock s) s.
Proof. destruct t, s; reflexivity. Qed.

Lemma upd_set_pc_lock t p lk s :
  set_pc t p (set_lock lk s) = upd t p (glob s) lk s.
Proof. destruct t, s; reflexivity. Qed.

Lemma upd_unwind t cb e o s :
  unwind t cb e o s
  = upd t (fst (unwound cb e o (glob s))) (snd (unwound cb e o (glob s)))
      (lock s) s.
Proof. unfold unwind. destruct t, s; reflexivity. Qed.

Ltac same_state s :=
  destruct s; cbn [pc_of glob lock mouse keyboard] in *; subst; reflexivity.

(** An exception at the top of a callback: either [on_press] caught it
    and its [print] returned, or an exception left the callback and the
    globals are as they were. *)
Lemma unwound_cases (cb : callback) (e : string) (o : World) (g : Globals)
    (p : pc) (g' : Globals) :
  unwound cb e o g = (p, g') ->
  (p = Idle /\ g' = console_append ("on_press error: " ++ e) g)
  \/ (exists e', p = Crashed e' /\ g' = g).
Proof.
  unfold unwound, print. run_block.
  destruct cb; try (intros [= <- <-]; right; eauto).
  destruct (stdout o _) as [[] | e']; intros [= <- <-]; [ left | right ]; eauto.
Qed.

Lemma step_effect (cfg : Setup) (s : State) (l : label) (s' : State) :
  step cfg s l = Some s' ->
  exists p g lk,
    effect cfg s l p g lk /\ s' = upd (label_tid l) p g lk s.
Proof.
  intros Hstep.
  destruct l as [t ev | t o | t | t | t o | t o | t o | t o | t];
    cbn [step label_tid] in *.
  - unfold deliver in Hstep.
    destruct (pc_of t s) eqn:Hpc; try discriminate.
    destruct t, ev as [x y b pressed | x y dx dy | key]; try discriminate.
    + destruct pressed; cbn [negb] in Hstep; injection Hstep as <-.
      * do 3 eexists; split; [ apply E_click; exact Hpc | same_state s ].
      * do 3 eexists; split; [ apply E_unpressed; exact Hpc | same_state s ].
    + injection Hstep as <-.
      do 3 eexists; split; [ apply E_scroll; exact Hpc | same_state s ].
    + destruct key; cbn [Key_eqb] in Hstep; injection Hstep as <-.
      * do 3 eexists; split; [ apply E_esc; exact Hpc | same_state s ].
      * do 3 eexists; split; [ apply E_f9; exact Hpc | same_state s ].
      * do 3 eexists; split; [ apply E_other_key; exact Hpc | same_state s ].
  - destruct (pc_of t s) eqn:Hpc; try discriminate.
    injection Hstep as <-. unfold statement, call.
    destruct (captured cfg cb o x0 y0) as [img | e] eqn:Hc.
    + do 3 eexists; split; [ eapply E_captured; eauto | ].
      rewrite upd_set_pc_glob. destruct t, s; reflexivity.
    + do 3 eexists; split;
        [ eapply E_capture_raises; eauto; apply surjective_pairing | ].
      rewrite upd_unwind. destruct t, s; reflexivity.
  - destruct (pc_of t s) eqn:Hpc; try discriminate.
    destruct (lock s) eqn:Hlk; try discriminate.
    injection Hstep as <-.
    do 3 eexists; split; [ eapply E_acquire; eauto | apply upd_set_pc_lock ].
  - destruct (pc_of t s) eqn:Hpc; try discriminate.
    injection Hstep as <-.
    do 3 eexists; split; [ eapply E_incr; eauto | ].
    unfold record_incr, modify. apply upd_set_pc_glob.
  - destruct (pc_of t s) eqn:Hpc; try discriminate.
    injection Hstep as <-.
    destruct (active_window_info_total cfg (windows o)) as (ti & ap & Hw).
    do 3 eexists; split; [ eapply E_inspect; eauto | ].
    unfold locked_statement, record_inspect, call. rewrite Hw.
    cbn [fst snd]. rewrite upd_set_pc_glob. destruct t, s; reflexivity.
  - destruct (pc_of t s) eqn:Hpc; try discriminate.
    injection Hstep as <-.
    destruct (record_mark_spec o (f_action f) (f_x f) (f_y f) (f_img f)
                (glob s)) as (m & Hm & Hspec).
    do 3 eexists; split; [ eapply E_mark; eauto | ].
    unfold locked_statement. rewrite Hm.
    rewrite upd_set_pc_glob. destruct t, s; reflexivity.
  - destruct (pc_of t s) eqn:Hpc; try discriminate.
    injection Hstep as <-.
    do 3 eexists; split; [ eapply E_append; eauto | ].
    unfold locked_statement, record_append. run_block.
    apply upd_set_pc_glob.
  - destruct (pc_of t s) eqn:Hpc; try discriminate.
    injection Hstep as <-.
    unfold locked_statement, record_print, print. run_block.
    destruct (stdout o _) as [[] | e] eqn:Hout.
    + do 3 eexists; split; [ eapply E_emit; eauto | ].
      apply upd_set_pc_glob.
    + do 3 eexists; split;
        [ eapply E_emit_raises; eauto; apply surjective_pairing | ].
      rewrite upd_unwind. destruct t, s; reflexivity.
  - destruct (pc_of t s) eqn:Hpc; try discriminate.
    injection Hstep as <-.
    do 3 eexists; split; [ eapply E_release; eauto | apply upd_set_pc_lock ].
Qed.

Lemma tid_eqb_eq (a b : tid) : tid_eqb a b = true <-> a = b.
Proof. destruct a, b; cbn; split; congruence. Qed.

Lemma pc_of_upd t' t p g lk s :
  pc_of t' (upd t p g lk s) = if tid_eqb t t' then p else pc_of t' s.
Proof. destruct t, t'; reflexivity. Qed.

(** A property of program points that holds of both threads and of the
    point a thread moves to. *)
Lemma pcs_preserved (Q : pc -> Prop) t p g lk s :
  (forall t', Q (pc_of t' s)) -> Q p ->
  forall t', Q (pc_of t' (upd t p g lk s)).
Proof.
  intros Hall Hp t'. rewrite pc_of_upd. destruct (tid_eqb t t'); auto.
Qed.

Ltac effect_cases Hstep He :=
  let p := fresh "p" in
  let g := fresh "g" in
  let lk := fresh "lk" in
  let E := fresh "E" in
  destruct (step_effect _ _ _ _ Hstep) as (p & g & lk & He & E);
  rewrite E; clear E.

(** The cases of an effect, with the two ways an exception ends. *)
Ltac effect_inv He :=
  inversion He; subst;
  try match goal with
      | Hu : unwound _ _ _ _ = (_, _) |- _ =>
          let e' := fresh "e'" in
          destruct (unwound_cases _ _ _ _ _ _ Hu)
            as [(-> & ->) | (e' & -> & ->)]
      end.

(* ================================================================== *)
(** * Invariants of the two threads *)
(* ================================================================== *)

Lemma one_to_succ (n : nat) : one_to (S n) = (one_to n ++ [Z.of_nat n + 1])%list.
Proof.
  unfold one_to. rewrite seq_S, map_app. cbn [map]. f_equal. f_equal. lia.
Qed.

Lemma Inv_initial : Inv initial.
Proof.
  split; cbn; try reflexivity.
  intros []; cbn; split; discriminate.
Qed.

Lemma ahead_outside (p : pc) : in_lock p = false -> ahead p = 0.
Proof. destruct p; cbn; congruence. Qed.

Lemma ahead_split (t : tid) (s : State) :
  ahead (mouse s) + ahead (keyboard s)
  = ahead (pc_of t s) + ahead (pc_of (other t) s).
Proof. destruct t; cbn; lia. Qed.

Lemma other_neq (t : tid) : other t <> t.
Proof. destruct t; discriminate. Qed.

Lemma tid_cases (t t' : tid) : t' = t \/ t' = other t.
Proof. destruct t, t'; auto. Qed.

(** Thread [t] moves to [p], leaving globals [g] and lock [lk]: what the
    move has to respect for the invariant to survive. *)
Lemma Inv_upd (t : tid) (p : pc) (g : Globals) (lk : option tid) (s : State) :
  Inv s ->
  map idx (steps g) = one_to (List.length (steps g)) ->
  (in_lock p = true <-> lk = Some t) ->
  (lk = lock s
   \/ (lock s = None /\ lk = Some t)
   \/ (lock s = Some t /\ lk = None)) ->
  step_counter g - Z.of_nat (List.length (steps g)) - ahead p
  = step_counter (glob s) - Z.of_nat (List.length (steps (glob s)))
    - ahead (pc_of t s) ->
  Inv (upd t p g lk s).
Proof.
  intros [Hnum Hown Hcnt] Hnum' Hp Hlk Hslack. split.
  - rewrite glob_upd. exact Hnum'.
  - intros t'. rewrite lock_upd.
    destruct (tid_cases t t') as [-> | ->].
    + rewrite pc_upd_same. exact Hp.
    + rewrite pc_upd_other. rewrite Hown.
      pose proof (other_neq t).
      destruct Hlk as [-> | [[-> ->] | [-> ->]]];
        split; congruence.
  - pose proof (ahead_split t (upd t p g lk s)) as Hnew.
    rewrite pc_upd_same, pc_upd_other in Hnew.
    pose proof (ahead_split t s) as Hold.
    rewrite glob_upd. lia.
Qed.

Lemma numbered_append (l : list Step) (st : Step) :
  map idx l = one_to (List.length l) ->
  idx st = Z.of_nat (List.length l) + 1 ->
  map idx (l ++ [st]) = one_to (List.length (l ++ [st])).
Proof.
  intros Hl Hst. rewrite map_app, length_app, Hl. cbn [List.length map].
  rewrite Nat.add_1_r, one_to_succ, Hst. reflexivity.
Qed.

Lemma step_Inv (cfg : Setup) (s : State) (l : label) (s' : State) :
  Inv s -> step cfg s l = Some s' -> Inv s'.
Proof.
  intros HI Hstep. effect_cases Hstep He.
  pose proof HI as [Hnum Hown Hcnt].
  pose proof (Hown (label_tid l)) as Hme.
  pose proof (Hown (other (label_tid l))) as Hyou.
  pose proof (other_neq (label_tid l)) as Hneq.
  assert (Halone : in_lock (pc_of (label_tid l) s) = true ->
                   ahead (pc_of (other (label_tid l)) s) = 0).
  { intros Hin. apply ahead_outside.
    destruct (in_lock (pc_of (other (label_tid l)) s)); [ | reflexivity ].
    assert (lock s = Some (other (label_tid l))) by (apply Hyou; reflexivity).
    assert (lock s = Some (label_tid l)) by (apply Hme; assumption).
    congruence. }
  pose proof (ahead_split (label_tid l) s) as Hsplit.
  apply Inv_upd; [ exact HI | .. ];
    effect_inv He; cbn [label_tid] in *;
    match goal with
    | H : pc_of _ s = _ |- _ => rewrite H in *
    end;
    cbn [in_lock ahead steps step_counter set_running set_step_counter
         steps_append console_append] in *;
    try assumption; try lia;
    try (split; [ discriminate | intros E; apply Hme; exact E ]);
    try (split; congruence);
    try (left; reflexivity);
    try (right; left; split; [ assumption | reflexivity ]);
    try (right; right; split; [ apply Hme; reflexivity | reflexivity ]).
  - apply numbered_append; [ assumption | ].
    subst st. cbn [idx]. specialize (Halone eq_refl). lia.
  - rewrite length_app. cbn [List.length]. lia.
Qed.

Lemma reachable_Inv (cfg : Setup) (sched : list label) (s : State) :
  run cfg initial sched = Some s -> Inv s.
Proof.
  apply (run_invariant cfg Inv (step_Inv cfg)). exact Inv_initial.
Qed.


(** ** The actions that reach the ledger *)

Lemma step_Actions (cfg : Setup) (s : State) (l : label) (s' : State) :
  Actions s -> step cfg s l = Some s' -> Actions s'.
Proof.
  intros [Hsteps Hpcs] Hstep. effect_cases Hstep He.
  split.
  - rewrite glob_upd.
    effect_inv He; cbn [label_tid steps set_running set_step_counter
      console_append steps_append]; try assumption.
    apply Forall_app. split; [ assumption | ].
    constructor; [ | constructor ]. cbn [action].
    specialize (Hpcs t). unfold carried_action_ok in Hpcs.
    rewrite H in Hpcs. exact Hpcs.
  - apply pcs_preserved; [ assumption | ].
    pose proof (Hpcs (label_tid l)) as Hold.
    unfold carried_action_ok in *.
    effect_inv He; cbn [label_tid] in Hold;
      try (rewrite H in Hold); cbn [pc_action f_action] in *;
      try exact I; try exact Hold.
    + left. eauto.
    + right. left. eauto.
    + right. right. reflexivity.
Qed.

Lemma reachable_Actions (cfg : Setup) (sched : list label) (s : State) :
  run cfg initial sched = Some s -> Actions s.
Proof.
  apply (run_invariant cfg Actions (step_Actions cfg)).
  split; [ constructor | intros []; exact I ].
Qed.

(** ** The application name outside Windows *)

Lemma step_NoApp (cfg : Setup) (s : State) (l : label) (s' : State) :
  is_windows cfg = false ->
  NoApp s -> step cfg s l = Some s' -> NoApp s'.
Proof.
  intros Hw [Hsteps Hpcs] Hstep. effect_cases Hstep He.
  split.
  - rewrite glob_upd.
    effect_inv He; cbn [label_tid steps set_running set_step_counter
      console_append steps_append]; try assumption.
    apply Forall_app. split; [ assumption | ].
    constructor; [ | constructor ]. cbn [app_name].
    specialize (Hpcs t). rewrite H in Hpcs. exact Hpcs.
  - apply pcs_preserved; [ assumption | ].
    pose proof (Hpcs (label_tid l)) as Hold.
    effect_inv He; cbn [label_tid] in Hold;
      try (rewrite H in Hold); cbn [carried_app_empty] in *;
      try exact I; try exact Hold.
    destruct (active_window_info_not_windows cfg (windows o) Hw) as (ti & Hti).
    congruence.
Qed.

Lemma reachable_NoApp (cfg : Setup) (sched : list label) (s : State) :
  is_windows cfg = false ->
  run cfg initial sched = Some s -> NoApp s.
Proof.
  intros Hw.
  apply (run_invariant cfg NoApp (fun s l s' => step_NoApp cfg s l s' Hw)).
  split; [ constructor | intros []; exact I ].
Qed.

(* ================================================================== *)
(** * File names *)
(* ================================================================== *)

Lemma str_int_inj (a b : Z) : str_int a = str_int b -> a = b.
Proof.
  unfold str_int. intros H.
  apply DecimalZ.to_int_inj.
  assert (Hnz : forall n, Z.to_int n <> Decimal.Pos Decimal.Nil
                          /\ Z.to_int n <> Decimal.Neg Decimal.Nil).
  { intros [ | p | p]; cbn; split; try discriminate;
      intros [= Hp]; exact (DecimalPos.Unsigned.to_uint_nonnil p Hp). }
  assert (Hs : forall n,
            NilZero.int_of_string (NilZero.string_of_int (Z.to_int n))
            = Some (Z.to_int n)).
  { intros n. apply NilZero.isi; apply Hnz. }
  pose proof (Hs a) as Ha. rewrite H, Hs in Ha. congruence.
Qed.

Lemma length_append (a b : string) :
  String.length (a ++ b) = (String.length a + String.length b)%nat.
Proof. induction a as [ | c a IH]; cbn; [ reflexivity | now rewrite IH ]. Qed.

Lemma append_inv_tail (a b c : string) : a ++ c = b ++ c -> a = b.
Proof.
  revert b. induction a as [ | ch a IH]; intros [ | ch' b] H.
  - reflexivity.
  - apply (f_equal String.length) in H.
    cbn in H. rewrite length_append in H. lia.
  - apply (f_equal String.length) in H.
    cbn in H. rewrite length_append in H. lia.
  - cbn in H. injection H as -> H. f_equal. auto.
Qed.

Lemma shot_ref_inj (a b : Z) : shot_ref a = shot_ref b -> a = b.
Proof.
  unfold shot_ref. cbn [name slash]. intros H.
  cbn in H. injection H as H.
  apply append_inv_tail in H. apply str_int_inj. exact H.
Qed.

Lemma capture_path (o : World) (region : option Region) (p : Path) :
  capture o region = Ok p -> p = screenshot_path o "step".
Proof.
  unfold capture, bind.
  destruct (screenshot_save o region _); [ congruence | discriminate ].
Qed.

Lemma captured_path (cfg : Setup) (cb : callback) (o : World)
    (x y : option Z) (p : Path) :
  captured cfg cb o x y = Ok p -> p = screenshot_path o "step".
Proof.
  unfold captured, capture_with_optional_crop.
  destruct cb, (truthy_int (CROP_RADIUS cfg)), x, y; apply capture_path.
Qed.

(** ** Which captures reach the ledger *)

Lemma images_by_thread (t : tid) (s : State) :
  Permutation (images s)
    (map img_rel (steps (glob s)) ++ pending (pc_of t s)
       ++ pending (pc_of (other t) s)).
Proof.
  unfold images. destruct t; cbn [pc_of other]; [ reflexivity | ].
  apply Permutation_app_head, Permutation_app_comm.
Qed.

Lemma images_upd (t : tid) (p : pc) (g : Globals) (lk : option tid)
    (s : State) :
  Permutation (images (upd t p g lk s))
    (map img_rel (steps g) ++ pending p ++ pending (pc_of (other t) s)).
Proof.
  rewrite (images_by_thread t).
  rewrite glob_upd, pc_upd_same, pc_upd_other. reflexivity.
Qed.

(** A step adds to the images at most the file of the capture it makes. *)
Lemma step_images (cfg : Setup) (s : State) (l : label) (s' : State)
    (later : list string) :
  step cfg s l = Some s' ->
  NoDup (images s ++ map shot_ref (capture_times [l]) ++ later) ->
  NoDup (images s' ++ later).
Proof.
  intros Hstep. effect_cases Hstep He.
  rewrite (images_by_thread (label_tid l) s), images_upd.
  effect_inv He;
    cbn [label_tid capture_times map List.app steps set_running set_step_counter
         console_append steps_append];
    try (rewrite H); cbn [pending List.app]; try (intros Hnd; exact Hnd).
  - (* the capture succeeded *)
    apply captured_path in H0. subst img.
    cbn [f_img]. fold (shot_ref (time_ms o)).
    apply Permutation_NoDup.
    rewrite <- !app_assoc. apply Permutation_app_head.
    cbn [List.app]. symmetry. apply Permutation_middle.
  - (* the capture failed in [on_press] *)
    apply NoDup_remove_1.
  - (* the capture failed in a mouse callback *)
    apply NoDup_remove_1.
  - (* append *)
    subst st. rewrite map_app. cbn [map img_rel].
    rewrite <- !app_assoc. cbn [List.app]. intros Hnd; exact Hnd.
Qed.

Lemma run_images (cfg : Setup) (sched : list label) (s s' : State) :
  run cfg s sched = Some s' ->
  NoDup (images s ++ map shot_ref (capture_times sched)) ->
  NoDup (images s').
Proof.
  revert s. induction sched as [ | l sched IH]; intros s Hrun Hnd.
  - cbn in Hrun. injection Hrun as <-.
    cbn in Hnd. rewrite app_nil_r in Hnd. exact Hnd.
  - cbn [run] in Hrun.
    destruct (step cfg s l) as [s1 | ] eqn:H1; [ | discriminate ].
    apply (IH s1 Hrun).
    apply (step_images cfg s l s1 _ H1).
    replace (capture_times (l :: sched))
      with (capture_times [l] ++ capture_times sched)%list in Hnd
      by (destruct l; reflexivity).
    rewrite map_app in Hnd. exact Hnd.
Qed.

(** ** The capture behind each step *)

Lemma held_reads_other (h : Reads) (t : tid) (o : World) :
  held (reads h (Capture t o)) (other t) = held h (other t).
Proof. destruct t; reflexivity. Qed.

Lemma held_reads_same (h : Reads) (t : tid) (o : World) :
  held (reads h (Capture t o)) t = time_ms o.
Proof. destruct t; reflexivity. Qed.

Lemma Carried_upd (h h' : Reads) (t : tid) (p : pc) (g : Globals)
    (lk : option tid) (s : State) :
  Carried h s ->
  held h' (other t) = held h (other t) ->
  Forall (fun r => r = shot_ref (held h' t)) (pending p) ->
  Carried h' (upd t p g lk s).
Proof.
  intros Hc Hother Hp t'. destruct (tid_cases t t') as [-> | ->].
  - rewrite pc_upd_same. exact Hp.
  - rewrite pc_upd_other, Hother. apply Hc.
Qed.

(** A step appends the file of the latest capture of its thread. *)
Lemma step_readings_from (cfg : Setup) (s : State) (l : label) (s' : State)
    (h : Reads) :
  step cfg s l = Some s' ->
  Carried h s ->
  Carried (reads h l) s'
  /\ map img_rel (steps (glob s'))
     = (map img_rel (steps (glob s)) ++ map shot_ref (appended h l))%list.
Proof.
  intros Hstep Hc. effect_cases Hstep He. rewrite glob_upd.
  pose proof (Hc (label_tid l)) as Hme.
  effect_inv He; cbn [label_tid] in *; rewrite H in Hme;
    cbn [pending appended map steps set_running set_step_counter
         console_append steps_append] in *;
    rewrite ?app_nil_r;
    try (split; [ | reflexivity ];
         apply (Carried_upd h);
         [ exact Hc | reflexivity | first [ exact Hme | constructor ] ]).
  - (* the capture succeeded *)
    split; [ | reflexivity ].
    apply (Carried_upd h); [ exact Hc | apply held_reads_other | ].
    apply captured_path in H0. subst img.
    rewrite held_reads_same. constructor; [ reflexivity | constructor ].
  - split; [ | reflexivity ].
    apply (Carried_upd h); [ exact Hc | apply held_reads_other | constructor ].
  - split; [ | reflexivity ].
    apply (Carried_upd h); [ exact Hc | apply held_reads_other | constructor ].
  - (* append *)
    split.
    + apply (Carried_upd h); [ exact Hc | reflexivity | constructor ].
    + subst st. rewrite map_app. cbn [map img_rel].
      inversion Hme as [ | r rs Hr _ ]; subst.
      apply f_equal. apply (f_equal (fun r => [r])). exact Hr.
Qed.

Lemma run_readings (cfg : Setup) (sched : list label) (s s' : State)
    (h : Reads) :
  run cfg s sched = Some s' ->
  Carried h s ->
  map img_rel (steps (glob s'))
  = (map img_rel (steps (glob s)) ++ map shot_ref (readings_from h sched))%list.
Proof.
  revert s h. induction sched as [ | l sched IH]; intros s h Hrun Hc.
  - cbn in Hrun. injection Hrun as <-. cbn. now rewrite app_nil_r.
  - cbn [run] in Hrun.
    destruct (step cfg s l) as [s1 | ] eqn:H1; [ | discriminate ].
    destruct (step_readings_from cfg s l s1 h H1 Hc) as [Hc1 Hmap].
    rewrite (IH s1 (reads h l) Hrun Hc1), Hmap.
    cbn [readings_from]. rewrite map_app, app_assoc. reflexivity.
Qed.

(* ================================================================== *)
(** * The ledger's indices *)
(* ================================================================== *)

Lemma one_to_nth (n i : nat) :
  (i < n)%nat -> nth_error (one_to n) i = Some (Z.of_nat i + 1).
Proof.
  intros Hi. unfold one_to. rewrite nth_error_map.
  rewrite (nth_error_nth' _ 0%nat) by (rewrite length_seq; exact Hi).
  rewrite seq_nth by exact Hi. cbn [option_map]. f_equal. lia.
Qed.

Lemma count_sorted (n a : nat) :
  StronglySorted Z.lt (map Z.of_nat (seq a n)).
Proof.
  revert a. induction n as [ | n IH]; intros a; cbn; constructor.
  - apply IH.
  - apply Forall_forall. intros z Hz.
    apply in_map_iff in Hz as (k & <- & Hk). apply in_seq in Hk. lia.
Qed.

Lemma one_to_NoDup (n : nat) : NoDup (one_to n).
Proof.
  unfold one_to. apply Finite.Injective_map_NoDup; [ | apply seq_NoDup ].
  intros a b. apply Nat2Z.inj.
Qed.

(** C1.  Whatever the interleaving of the two listener threads, the
    indices of the ledger are exactly 1, 2, ..., N in this order: the
    step at (0-based) position [i] has index [i + 1], so the indices are
    strictly increasing and no index is missing or repeated. *)
Theorem ledger_indices_contiguous (cfg : Setup) (sched : list label)
    (s : State) :
  run cfg initial sched = Some s ->
  let ledger := steps (glob s) in
  map idx ledger = one_to (List.length ledger)
  /\ (forall i st, nth_error ledger i = Some st -> idx st = Z.of_nat i + 1)
  /\ StronglySorted Z.lt (map idx ledger)
  /\ NoDup (map idx ledger).
Proof.
  intros Hrun ledger.
  pose proof (inv_numbered _ (reachable_Inv cfg sched s Hrun)) as Hnum.
  fold ledger in Hnum.
  split; [ exact Hnum | ]. split; [ | split ].
  - intros i st Hi.
    assert (Hlt : (i < List.length ledger)%nat)
      by (apply nth_error_Some; congruence).
    apply (map_nth_error idx) in Hi. rewrite Hnum, one_to_nth in Hi by exact Hlt.
    congruence.
  - rewrite Hnum. apply count_sorted.
  - rewrite Hnum. apply one_to_NoDup.
Qed.

Lemma ledger_indices_contiguous_witness :
  run (shipped true) initial overtaking = Some overtaking_end
  /\ map idx (steps (glob overtaking_end)) = [1; 2].
Proof.
  assert (H : run (shipped true) initial overtaking = Some overtaking_end)
    by reflexivity.
  split; [ exact H | ].
  exact (proj1 (ledger_indices_contiguous (shipped true) overtaking
                  overtaking_end H)).
Defined.

(* ================================================================== *)
(** * What runs under the lock *)
(* ================================================================== *)

(** C2, as stated, fails: the capture is made before [record] takes the
    lock.  Here the mouse thread captures while the keyboard thread holds
    the lock; and in [overtaking] the screenshot taken second gets the
    first index. *)
Lemma capture_outside_lock :
  run (shipped true) initial keyboard_busy = Some keyboard_busy_end
  /\ lock keyboard_busy_end = Some Keyboard
  /\ builds_step (Capture Mouse (fine 1001)) = true
  /\ option_map mouse (step (shipped true) keyboard_busy_end
                         (Capture Mouse (fine 1001)))
     = Some (AtLock {| f_cb := cb_on_click; f_action := "click left";
                       f_x := Some 100; f_y := Some 200;
                       f_img := slash IMAGES_DIR "step_1001.png" |})
  /\ option_map (fun s => map (fun st => (idx st, img_rel st)) (steps (glob s)))
       (run (shipped true) initial overtaking)
     = Some [ (1, "images/step_1001.png"); (2, "images/step_1000.png") ].
Proof. repeat split; reflexivity. Qed.

(** C2, amended.  Every statement of [record]'s [with lock:] block (the
    counter increment, the window inspection, the annotation, the
    construction and append of the step, the console line) is executed by
    a thread that holds the lock, and the two threads are never both
    inside the block; the screen capture is executed before the lock is
    taken, by a thread that does not hold it. *)
Theorem record_block_under_lock (cfg : Setup) (sched : list label)
    (s : State) (l : label) (s' : State) :
  run cfg initial sched = Some s ->
  step cfg s l = Some s' ->
  (inside_with l = true -> lock s = Some (label_tid l))
  /\ (is_capture l = true -> lock s <> Some (label_tid l))
  /\ in_lock (mouse s) && in_lock (keyboard s) = false.
Proof.
  intros Hrun Hstep.
  pose proof (inv_owner _ (reachable_Inv cfg sched s Hrun)) as Hown.
  destruct (step_effect _ _ _ _ Hstep) as (p & g & lk & He & _).
  split; [ | split ].
  - intros Hin. apply Hown.
    effect_inv He; try discriminate Hin;
      cbn [label_tid]; rewrite H; reflexivity.
  - intros Hcap Hlk. apply Hown in Hlk.
    effect_inv He; try discriminate Hcap;
      cbn [label_tid] in Hlk; rewrite H in Hlk; discriminate.
  - destruct (in_lock (mouse s)) eqn:Hm; [ | reflexivity ].
    destruct (in_lock (keyboard s)) eqn:Hk; [ | reflexivity ].
    apply (Hown Mouse) in Hm. apply (Hown Keyboard) in Hk. congruence.
Qed.

Lemma record_block_under_lock_witness :
  run (shipped true) initial keyboard_busy = Some keyboard_busy_end
  /\ step (shipped true) keyboard_busy_end (Inspect Keyboard (fine 1001))
     = Some keyboard_busy_next
  /\ lock keyboard_busy_end = Some Keyboard.
Proof.
  assert (H : run (shipped true) initial keyboard_busy
              = Some keyboard_busy_end) by reflexivity.
  assert (Hs : step (shipped true) keyboard_busy_end (Inspect Keyboard (fine 1001))
               = Some keyboard_busy_next) by reflexivity.
  split; [ exact H | ]. split; [ exact Hs | ].
  exact (proj1 (record_block_under_lock (shipped true) keyboard_busy
                  keyboard_busy_end (Inspect Keyboard (fine 1001)) keyboard_busy_next H Hs)
           eq_refl).
Defined.

(* ================================================================== *)
(** * The action field *)
(* ================================================================== *)

(** C3, as stated, fails: a left click is recorded as "click left", the
    scroll as "scroll dx=0 dy=-3" and the manual capture as
    "manual screenshot"; none is the tagged form of the claim. *)
Lemma action_not_tagged :
  option_map (fun s => map action (steps (glob s)))
    (run (shipped true) initial three_events)
  = Some ["click left"; "scroll dx=0 dy=-3"; "manual screenshot"]
  /\ "click left" <> "click:left"
  /\ "scroll dx=0 dy=-3" <> "scroll:0,-3"
  /\ "manual screenshot" <> "manual-screenshot".
Proof. repeat split; try reflexivity; discriminate. Qed.

(** C3, amended.  Every recorded step's action is "click " followed by
    [str(button)] with "Button." removed, or "scroll dx=<dx> dy=<dy>", or
    "manual screenshot"; a left-button press gives exactly "click left" and
    a scroll with dx = 0, dy = -3 gives exactly "scroll dx=0 dy=-3". *)
Theorem ledger_actions (cfg : Setup) (sched : list label) (s : State) :
  run cfg initial sched = Some s ->
  Forall (fun st => action_form (action st)) (steps (glob s))
  /\ Forall (fun b => click_action b = "click " ++ button_name b)
       [Button_left; Button_middle; Button_right]
  /\ click_action Button_left = "click left"
  /\ scroll_action 0 (-3) = "scroll dx=0 dy=-3".
Proof.
  intros Hrun. split; [ exact (proj1 (reachable_Actions cfg sched s Hrun)) | ].
  repeat split; repeat constructor.
Qed.

Lemma ledger_actions_witness :
  run (shipped true) initial three_events = Some three_events_end
  /\ Forall (fun st => action_form (action st)) (steps (glob three_events_end)).
Proof.
  assert (H : run (shipped true) initial three_events = Some three_events_end)
    by reflexivity.
  split; [ exact H | ].
  exact (proj1 (ledger_actions (shipped true) three_events three_events_end H)).
Defined.

(* ================================================================== *)
(** * A capture that fails *)
(* ================================================================== *)

(** C4: the code at the failing input.  When the display cannot be read
    during a click, no step is appended, but the exception leaves
    [on_click] (likewise [on_scroll]): nothing is printed and the mouse
    thread's callback ends with the exception.  In [on_press] the same
    failure is caught: a line is printed and the callback returns. *)
Theorem capture_error_leaves_on_click :
  on_click (shipped true) (dark 1000) 100 200 Button_left true initial_globals
  = (Raise "screen grab failed", initial_globals)
  /\ on_scroll (shipped true) (dark 1000) 50 50 0 (-3) initial_globals
     = (Raise "screen grab failed", initial_globals)
  /\ run (shipped true) initial
       [Deliver Mouse left_click; Capture Mouse (dark 1000)]
     = Some {| glob := initial_globals; lock := None;
               mouse := Crashed "screen grab failed"; keyboard := Idle |}
  /\ on_press (shipped true) (dark 1000) Key_f9 initial_globals
     = (Ok ret_None,
        {| steps := []; running := true; step_counter := 0;
           console := ["on_press error: screen grab failed"] |})
  /\ run (shipped true) initial
       [Deliver Keyboard (Press Key_f9); Capture Keyboard (dark 1000)]
     = Some {| glob := {| steps := []; running := true; step_counter := 0;
                          console := ["on_press error: screen grab failed"] |};
               lock := None; mouse := Idle; keyboard := Idle |}.
Proof. repeat split; reflexivity. Qed.

(* ================================================================== *)
(** * The raw image references *)
(* ================================================================== *)

(** C5, as stated, fails: two captures in the same clock millisecond get
    the same file name, and the two steps the same [img_rel]. *)
Lemma same_millisecond_same_ref :
  option_map (fun s => map img_rel (steps (glob s)))
    (run (shipped true) initial same_millisecond)
  = Some ["images/step_1000.png"; "images/step_1000.png"]
  /\ ~ NoDup ["images/step_1000.png"; "images/step_1000.png"].
Proof.
  split; [ reflexivity | ].
  intros H. inversion H as [ | a l Hin _]; subst. apply Hin. left. reflexivity.
Qed.

(** C5, amended.  The steps of the ledger refer, in order, to the files
    of the captures behind them, named after the clock readings of those
    captures.  So two steps of the ledger have the same [img_rel] exactly
    when their captures read the same clock millisecond: any two steps
    whose captures read distinct milliseconds have distinct [img_rel],
    whatever the other captures of the session read.  In particular, when
    the readings behind the steps are pairwise distinct (and so when those
    of all the captures are), [img_rel] is unique per step. *)
Theorem image_refs_distinct (cfg : Setup) (sched : list label) (s : State) :
  run cfg initial sched = Some s ->
  map img_rel (steps (glob s)) = map shot_ref (step_readings sched)
  /\ (forall i j a b ra rb,
        nth_error (steps (glob s)) i = Some a ->
        nth_error (steps (glob s)) j = Some b ->
        nth_error (step_readings sched) i = Some ra ->
        nth_error (step_readings sched) j = Some rb ->
        (ra <> rb -> img_rel a <> img_rel b)
        /\ (ra = rb -> img_rel a = img_rel b))
  /\ (NoDup (step_readings sched) -> NoDup (map img_rel (steps (glob s))))
  /\ (NoDup (capture_times sched) -> NoDup (map img_rel (steps (glob s)))).
Proof.
  intros Hrun.
  assert (Hmap : map img_rel (steps (glob s))
                 = map shot_ref (step_readings sched)).
  { apply (run_readings cfg sched initial s (0, 0) Hrun).
    intros []; constructor. }
  split; [ exact Hmap | ]. split; [ | split ].
  - intros i j a b ra rb Ha Hb Hra Hrb.
    assert (Ea : img_rel a = shot_ref ra).
    { apply (map_nth_error img_rel) in Ha. rewrite Hmap in Ha.
      apply (map_nth_error shot_ref) in Hra. congruence. }
    assert (Eb : img_rel b = shot_ref rb).
    { apply (map_nth_error img_rel) in Hb. rewrite Hmap in Hb.
      apply (map_nth_error shot_ref) in Hrb. congruence. }
    rewrite Ea, Eb. split.
    + intros Hne E. apply Hne. apply shot_ref_inj. exact E.
    + intros ->. reflexivity.
  - intros Hnd. rewrite Hmap.
    apply Finite.Injective_map_NoDup; [ | exact Hnd ].
    intros a b. apply shot_ref_inj.
  - intros Htimes.
    assert (Himgs : NoDup (images s)).
    { apply (run_images cfg sched initial s Hrun). cbn [images initial glob
        initial_globals steps map mouse keyboard pending List.app].
      apply Finite.Injective_map_NoDup; [ | exact Htimes ].
      intros a b. apply shot_ref_inj. }
    unfold images in Himgs. apply NoDup_app_remove_r in Himgs. exact Himgs.
Qed.

Lemma image_refs_distinct_witness :
  run (shipped true) initial same_millisecond_then_click
  = Some same_millisecond_then_click_end
  /\ step_readings same_millisecond_then_click = [1000; 1000; 2000]
  /\ map img_rel (steps (glob same_millisecond_then_click_end))
     = ["images/step_1000.png"; "images/step_1000.png";
        "images/step_2000.png"].
Proof.
  assert (H : run (shipped true) initial same_millisecond_then_click
              = Some same_millisecond_then_click_end) by reflexivity.
  split; [ exact H | ]. split; [ reflexivity | ].
  rewrite (proj1 (image_refs_distinct (shipped true)
                    same_millisecond_then_click
                    same_millisecond_then_click_end H)).
  reflexivity.
Defined.

(* ================================================================== *)
(** * The marked image reference *)
(* ================================================================== *)

Lemma marked_dir_differs (n : string) : "images_marked/" ++ n <> "images/" ++ n.
Proof. cbn. discriminate. Qed.

(** C6.  [record] always appends exactly one step, whether the annotation
    raised or not.  The step's [img_mark_rel] is the path of the
    annotated image when the action is a click and
    [annotate_click_on_image] raised nothing; otherwise, for another
    action or when the annotation raised, it is [img_rel].  The two paths
    differ, so each case is recognisable.  The outcome of [record] is the
    outcome of its closing [print] alone, whose line does not mention the
    marked image: no exception of the annotation leaves [record].  Among
    the callbacks' actions, only those of [on_click] are clicks. *)
Theorem marked_ref_or_fallback (cfg : Setup) (o : World) (action : string)
    (x y : option Z) (img_path : Path) (g : Globals) :
  (exists st,
     steps (snd (record cfg o action x y img_path g)) = (steps g ++ [st])%list
     /\ img_rel st = "images/" ++ name img_path
     /\ img_mark_rel st
        = (if startswith action "click"
              && negb (raised (annotate_click_on_image (pillow o) img_path
                                 (slash IMAGES_MARKED_DIR (name img_path))
                                 (Some (x, y))))
           then "images_marked/" ++ name img_path
           else img_rel st)
     /\ "images_marked/" ++ name img_path <> img_rel st
     /\ fst (record cfg o action x y img_path g)
        = stdout o
            ("[" ++ now_human o ++ "] " ++ action
             ++ " (" ++ str_opt_int x ++ "," ++ str_opt_int y ++ ") -> "
             ++ name img_path ++ " | " ++ window_title st
             ++ " (" ++ app_name st ++ ")"))
  /\ (forall b, startswith (click_action b) "click" = true)
  /\ (forall dx dy, startswith (scroll_action dx dy) "click" = false)
  /\ startswith "manual screenshot" "click" = false.
Proof.
  split; [ | repeat split; reflexivity ].
  destruct (active_window_info_total cfg (windows o)) as (ti & ap & Hw).
  exists (recorded_step o (step_counter g) action x y img_path ti ap).
  rewrite (record_spec cfg o _ _ _ _ g ti ap Hw).
  unfold record_line.
  cbn [ts window_title app_name img_rel img_mark_rel recorded_step].
  destruct (stdout o _) as [[] | e];
    cbn [fst snd steps console_append];
    (repeat split; try reflexivity; apply marked_dir_differs).
Qed.

(* ================================================================== *)
(** * The crop region *)
(* ================================================================== *)

(** C7, as stated, fails near the left and top edges: with radius 220
    and a click at (100, 100) the region requested is [(0, 0, 440, 440)],
    not the square centred on the click. *)
Lemma crop_not_centred_near_edge :
  centred_square 100 100 220 = (-120, -120, 440, 440)
  /\ capture_with_optional_crop (cropping 220)
       (expecting (Some (centred_square 100 100 220)) 1000)
       (Some 100) (Some 100)
     = Raise "another region"
  /\ capture_with_optional_crop (cropping 220)
       (expecting (Some (0, 0, 440, 440)) 1000) (Some 100) (Some 100)
     = Ok (slash IMAGES_DIR "step_1000.png").
Proof. repeat split; reflexivity. Qed.

(** C7, amended.  With a positive crop radius and a position [(x, y)],
    the region captured is the square of side [2 * radius] whose left
    and top edges are [max 0 (x - radius)] and [max 0 (y - radius)]; it is
    centred on [(x, y)] when [x] and [y] are at least the radius.  With
    radius 0, or when a coordinate is absent, the full screen is
    captured. *)
Theorem crop_region_clamped (cfg : Setup) (o : World) :
  (0 < CROP_RADIUS cfg ->
   (forall x y,
      capture_with_optional_crop cfg o (Some x) (Some y)
      = capture o (Some (Z.max 0 (x - CROP_RADIUS cfg),
                         Z.max 0 (y - CROP_RADIUS cfg),
                         CROP_RADIUS cfg * 2, CROP_RADIUS cfg * 2)))
   /\ (forall x y,
         CROP_RADIUS cfg <= x -> CROP_RADIUS cfg <= y ->
         capture_with_optional_crop cfg o (Some x) (Some y)
         = capture o (Some (centred_square x y (CROP_RADIUS cfg)))))
  /\ (CROP_RADIUS cfg = 0 ->
      forall x y, capture_with_optional_crop cfg o x y = capture o None)
  /\ (forall x y, x = None \/ y = None ->
        capture_with_optional_crop cfg o x y = capture o None).
Proof.
  unfold capture_with_optional_crop, truthy_int, centred_square.
  split; [ | split ].
  - intros Hpos.
    assert (Hnz : (CROP_RADIUS cfg =? 0) = false) by (apply Z.eqb_neq; lia).
    rewrite Hnz. cbn [negb]. split; [ reflexivity | ].
    intros x y Hx Hy. rewrite !Z.max_r by lia. rewrite (Z.mul_comm 2). reflexivity.
  - intros Hz x y. rewrite Hz. cbn. destruct x, y; reflexivity.
  - intros x y [-> | ->]; destruct (negb _); try reflexivity.
    destruct x; reflexivity.
Qed.

Lemma crop_region_clamped_witness :
  0 < CROP_RADIUS (cropping 220)
  /\ capture_with_optional_crop (cropping 220) (fine 1000) (Some 300) (Some 100)
     = capture (fine 1000) (Some (80, 0, 440, 440)).
Proof.
  assert (H : 0 < CROP_RADIUS (cropping 220)) by reflexivity.
  split; [ exact H | ].
  exact (proj1 (proj1 (crop_region_clamped (cropping 220) (fine 1000)) H)
           300 100).
Defined.

(* ================================================================== *)
(** * The annotation *)
(* ================================================================== *)

Lemma mode_convert (m : Mode) (im : Image) : mode (convert m im) = m.
Proof. unfold convert. destruct m, (mode im) eqn:E; cbn; congruence. Qed.

Lemma width_convert (m : Mode) (im : Image) : width (convert m im) = width im.
Proof. unfold convert. destruct m, (mode im); reflexivity. Qed.

Lemma height_convert (m : Mode) (im : Image) :
  height (convert m im) = height im.
Proof. unfold convert. destruct m, (mode im); reflexivity. Qed.

Lemma channels_convert (m : Mode) (im : Image) (i j : Z) :
  channels (getpixel (convert m im) i j) = channels (getpixel im i j).
Proof.
  unfold convert. destruct m, (mode im); cbn [getpixel]; try reflexivity;
    destruct (getpixel im i j) as [[[r g] b] a]; reflexivity.
Qed.

Lemma studio_draws_inside_box : draws_inside_box studio.
Proof.
  split; cbn [ellipse studio]; intros im b c w im'.
  - intros [= <-]. reflexivity.
  - intros [= <-]. reflexivity.
  - intros [= <-]. reflexivity.
  - intros i j [= <-] Hout. cbn [getpixel paint_ring].
    destruct (in_ellipse b i j) eqn:Hin; [ | reflexivity ].
    exfalso. apply Hout.
    destruct b as [[[x0 y0] x1] y1]. unfold in_ellipse in Hin. cbn [in_box].
    repeat (apply andb_prop in Hin as [Hin ?]). lia.
Qed.

(** C8.  With a point [(x, y)], the annotation opens the source, draws on
    it (converted to RGBA) first the shadow ring, in the bounding box of
    radius [CIRCLE_RADIUS + 2] with width [CIRCLE_WIDTH + 2] and colour
    [SHADOW_COLOR], then the ring of radius [CIRCLE_RADIUS], width
    [CIRCLE_WIDTH] and colour [CIRCLE_COLOR], both centred on the point,
    and saves the result at the target path in mode RGB (no alpha).  The
    saved image has the size of the source and the colours of the source
    at every pixel outside the bounding box of the outer ring.  Without a
    point nothing is drawn: the saved image has the size and the colours of
    the source.  The annotation succeeds whenever Pillow's calls do, at
    every point: it raises only an exception of [Image.open], of one of
    the two [ellipse] calls or of [save]. *)
Theorem annotation_rings (pil : Pillow) (src dst : Path) :
  draws_inside_box pil ->
  (forall x y out,
     annotate_click_on_image pil src dst (Some (Some x, Some y)) = Ok out ->
     exists source shadowed ringed,
       Image_open pil src = Ok source
       /\ ellipse pil (convert RGBA source)
            (ring_box x y (CIRCLE_RADIUS + 2)) SHADOW_COLOR (CIRCLE_WIDTH + 2)
          = Ok shadowed
       /\ ellipse pil shadowed (ring_box x y CIRCLE_RADIUS)
            CIRCLE_COLOR CIRCLE_WIDTH
          = Ok ringed
       /\ out = convert RGB ringed
       /\ Image_save pil out dst = Ok tt
       /\ mode out = RGB
       /\ width out = width source
       /\ height out = height source
       /\ forall i j,
            ~ in_box (ring_box x y (CIRCLE_RADIUS + 2)) i j ->
            channels (getpixel out i j) = channels (getpixel source i j))
  /\ (forall out,
        annotate_click_on_image pil src dst None = Ok out ->
        exists source,
          Image_open pil src = Ok source
          /\ out = convert RGB (convert RGBA source)
          /\ Image_save pil out dst = Ok tt
          /\ mode out = RGB
          /\ width out = width source
          /\ height out = height source
          /\ forall i j,
               channels (getpixel out i j) = channels (getpixel source i j))
  /\ (forall x y source shadowed ringed,
        Image_open pil src = Ok source ->
        ellipse pil (convert RGBA source)
          (ring_box x y (CIRCLE_RADIUS + 2)) SHADOW_COLOR (CIRCLE_WIDTH + 2)
        = Ok shadowed ->
        ellipse pil shadowed (ring_box x y CIRCLE_RADIUS)
          CIRCLE_COLOR CIRCLE_WIDTH
        = Ok ringed ->
        Image_save pil (convert RGB ringed) dst = Ok tt ->
        annotate_click_on_image pil src dst (Some (Some x, Some y))
        = Ok (convert RGB ringed))
  /\ (forall source,
        Image_open pil src = Ok source ->
        Image_save pil (convert RGB (convert RGBA source)) dst = Ok tt ->
        annotate_click_on_image pil src dst None
        = Ok (convert RGB (convert RGBA source))).
Proof.
  intros Hpil. split; [ | split; [ | split ] ].
  - intros x y out. unfold annotate_click_on_image, bind, coord.
    destruct (Image_open pil src) as [source | e]; [ | discriminate ].
    replace (x - CIRCLE_RADIUS - 2, y - CIRCLE_RADIUS - 2,
             x + CIRCLE_RADIUS + 2, y + CIRCLE_RADIUS + 2)
      with (ring_box x y (CIRCLE_RADIUS + 2))
      by (unfold ring_box; now rewrite !Z.sub_add_distr, !Z.add_assoc).
    fold (ring_box x y CIRCLE_RADIUS).
    destruct (ellipse pil (convert RGBA source) _ _ _) as [shadowed | e]
      eqn:Hshadow; [ | discriminate ].
    destruct (ellipse pil shadowed _ _ _) as [ringed | e] eqn:Hring;
      [ | discriminate ].
    destruct (Image_save pil (convert RGB ringed) dst) as [[] | e] eqn:Hsave;
      [ | discriminate ].
    intros Heq.
    assert (Hout : out = convert RGB ringed) by congruence. subst out.
    exists source, shadowed, ringed.
    repeat (split; [ first [ reflexivity | assumption ] | ]).
    split; [ apply mode_convert | ].
    split.
    { rewrite width_convert, (ellipse_width _ Hpil _ _ _ _ _ Hring),
        (ellipse_width _ Hpil _ _ _ _ _ Hshadow). apply width_convert. }
    split.
    { rewrite height_convert, (ellipse_height _ Hpil _ _ _ _ _ Hring),
        (ellipse_height _ Hpil _ _ _ _ _ Hshadow). apply height_convert. }
    intros i j Hout.
    rewrite channels_convert.
    rewrite (ellipse_outside _ Hpil _ _ _ _ _ i j Hring).
    + rewrite (ellipse_outside _ Hpil _ _ _ _ _ i j Hshadow Hout).
      apply channels_convert.
    + intros Hin. apply Hout. unfold in_box, ring_box in *.
      unfold CIRCLE_RADIUS in *. lia.
  - intros out. unfold annotate_click_on_image, bind.
    destruct (Image_open pil src) as [source | e]; [ | discriminate ].
    destruct (Image_save pil _ dst) as [[] | e] eqn:Hsave; [ | discriminate ].
    intros Heq.
    assert (Hout : out = convert RGB (convert RGBA source)) by congruence.
    subst out. exists source.
    repeat (split; [ first [ reflexivity | assumption ] | ]).
    split; [ apply mode_convert | ].
    split; [ now rewrite !width_convert | ].
    split; [ now rewrite !height_convert | ].
    intros i j. now rewrite !channels_convert.
  - intros x y source shadowed ringed Hopen Hshadow Hring Hsave.
    unfold annotate_click_on_image, bind, coord. rewrite Hopen.
    replace (x - CIRCLE_RADIUS - 2, y - CIRCLE_RADIUS - 2,
             x + CIRCLE_RADIUS + 2, y + CIRCLE_RADIUS + 2)
      with (ring_box x y (CIRCLE_RADIUS + 2))
      by (unfold ring_box; now rewrite !Z.sub_add_distr, !Z.add_assoc).
    fold (ring_box x y CIRCLE_RADIUS).
    rewrite Hshadow, Hring, Hsave. reflexivity.
  - intros source Hopen Hsave.
    unfold annotate_click_on_image, bind. rewrite Hopen, Hsave. reflexivity.
Qed.

Lemma annotation_rings_witness :
  draws_inside_box studio
  /\ raised (annotate_click_on_image studio raw_1000 marked_1000
               (Some (Some 100, Some 200))) = false
  /\ forall out,
       annotate_click_on_image studio raw_1000 marked_1000
         (Some (Some 100, Some 200)) = Ok out ->
       mode out = RGB /\ width out = 1920 /\ height out = 1080.
Proof.
  split; [ exact studio_draws_inside_box | ].
  split; [ reflexivity | ].
  intros out Hout.
  destruct (proj1 (annotation_rings studio raw_1000 marked_1000
                     studio_draws_inside_box) 100 200 out Hout)
    as (source & shadowed & ringed & Hopen & _ & _ & _ & _ & Hm & Hw & Hh & _).
  cbn in Hopen. injection Hopen as <-.
  split; [ exact Hm | ]. split; [ exact Hw | exact Hh ].
Defined.

(* ================================================================== *)
(** * The window inspector *)
(* ================================================================== *)




(* ================================================================== *)
(** * The application name outside Windows *)
(* ================================================================== *)

(** C10.  When the platform test [is_windows] is false,
    [active_window_info] returns the empty string as application name
    whatever the window libraries answer, and every step of the ledger
    has [app_name = ""], along every schedule.  (The title may be
    non-empty: see [scenario_C].) *)
Theorem app_name_empty_off_windows (cfg : Setup) :
  is_windows cfg = false ->
  (forall w, exists title, active_window_info cfg w = Ok (title, ""))
  /\ (forall sched s,
        run cfg initial sched = Some s ->
        Forall (fun st => app_name st = "") (steps (glob s))).
Proof.
  intros Hw. split.
  - intros w. apply active_window_info_not_windows. exact Hw.
  - intros sched s Hrun. exact (proj1 (reachable_NoApp cfg sched s Hw Hrun)).
Qed.

Lemma app_name_empty_off_windows_witness :
  is_windows (shipped false) = false
  /\ run (shipped false) initial three_events = Some three_events_elsewhere_end
  /\ Forall (fun st => app_name st = "")
       (steps (glob three_events_elsewhere_end)).
Proof.
  assert (H : is_windows (shipped false) = false) by reflexivity.
  assert (Hrun : run (shipped false) initial three_events
                 = Some three_events_elsewhere_end) by reflexivity.
  split; [ exact H | ]. split; [ exact Hrun | ].
  exact (proj2 (app_name_empty_off_windows (shipped false) H)
           three_events three_events_elsewhere_end Hrun).
Defined.

(* ================================================================== *)
(** * A callback that runs alone *)
(* ================================================================== *)

(** Each case of [effect] is a step of the machine. *)
Lemma effect_step (cfg : Setup) (s : State) (l : label) (p : pc)
    (g : Globals) (lk : option tid) :
  effect cfg s l p g lk ->
  step cfg s l = Some (upd (label_tid l) p g lk s).
Proof.
  intros He.
  destruct He; cbn [step deliver label_tid];
    try (rewrite H); cbn [negb Key_eqb];
    unfold statement, locked_statement, call, record_incr, record_inspect,
      record_append, record_print, print;
    try (rewrite H0); run_block;
    try (rewrite upd_unwind;
         cbn [glob lock set_glob set_lock];
         match goal with
         | Hu : unwound _ _ _ _ = _ |- _ => rewrite Hu
         end; cbn [fst snd]);
    try solve [ reflexivity
              | f_equal; same_state s
              | destruct t; f_equal; same_state s ].
Qed.

Lemma upd_upd t p g lk p' g' lk' s :
  upd t p g lk (upd t p' g' lk' s) = upd t p g lk s.
Proof. destruct t; reflexivity. Qed.

Lemma run_cons (cfg : Setup) (s : State) (l : label) (rest : list label) :
  run cfg s (l :: rest)
  = match step cfg s l with Some s' => run cfg s' rest | None => None end.
Proof. reflexivity. Qed.

Ltac take_step E :=
  rewrite run_cons;
  rewrite (effect_step _ _ _ _ _ _ E);
  cbn [label_tid]; rewrite ?upd_upd.

(** From the [with lock:] line on, a thread that is not interrupted
    leaves the globals as [record] does. *)
Lemma record_alone (cfg : Setup) (t : tid) (f : Frame) (o : World)
    (s : State) :
  pc_of t s = AtLock f ->
  lock s = None ->
  (forall line, stdout o line = Ok tt) ->
  run cfg s [Acquire t; Incr t; Inspect t o; Mark t o; Append t o; Emit t o;
             Release t]
  = Some (upd t Idle
            (snd (record cfg o (f_action f) (f_x f) (f_y f) (f_img f)
                    (glob s)))
            None s).
Proof.
  intros Hpc Hlk Hout.
  destruct (active_window_info_total cfg (windows o)) as (ti & ap & Hw).
  rewrite (record_spec cfg o _ _ _ _ (glob s) ti ap Hw), Hout. cbn [snd].
  assert (E1 : effect cfg s (Acquire t) (AtIncr f) (glob s) (Some t))
    by (apply E_acquire; assumption).
  take_step E1.
  match goal with |- run _ ?s1 _ = _ =>
    assert (E2 : effect cfg s1 (Incr t) (AtInspect f)
                   (set_step_counter (step_counter (glob s1) + 1) (glob s1))
                   (lock s1))
      by (apply E_incr; apply pc_upd_same)
  end.
  take_step E2. rewrite glob_upd, lock_upd.
  match goal with |- run _ ?s1 _ = _ =>
    assert (E3 : effect cfg s1 (Inspect t o) (AtMark f ti ap)
                   (glob s1) (lock s1))
      by (apply E_inspect; [ apply pc_upd_same | exact Hw ])
  end.
  take_step E3. rewrite glob_upd, lock_upd.
  destruct (record_mark_spec o (f_action f) (f_x f) (f_y f) (f_img f)
              (set_step_counter (step_counter (glob s) + 1) (glob s)))
    as (m & Hm & Hspec).
  match goal with |- run _ ?s1 _ = _ =>
    assert (E4 : effect cfg s1 (Mark t o) (AtAppend f ti ap m)
                   (glob s1) (lock s1))
      by (apply E_mark; [ apply pc_upd_same | rewrite glob_upd; exact Hm ])
  end.
  take_step E4. rewrite glob_upd, lock_upd.
  match goal with |- run _ ?s1 _ = _ =>
    pose proof (E_append cfg s1 t f ti ap m o (pc_upd_same _ _ _ _ _)) as E5
  end.
  cbv zeta in E5. take_step E5. rewrite glob_upd, lock_upd.
  match goal with |- run _ ?s1 _ = _ =>
    pose proof (E_emit cfg s1 t f ti ap _ o (pc_upd_same _ _ _ _ _)
                  (Hout _)) as E6
  end.
  take_step E6. rewrite glob_upd, lock_upd.
  match goal with |- run _ ?s1 _ = _ =>
    pose proof (E_release cfg s1 t f (pc_upd_same _ _ _ _ _)) as E7
  end.
  take_step E7. rewrite glob_upd.
  cbn [run]. f_equal. f_equal.
  unfold record_line, console_append, steps_append, set_step_counter,
    recorded_step.
  cbn [snd steps running step_counter console ts]. rewrite Hspec.
  reflexivity.
Qed.

(** A pressed click that runs alone, when the capture succeeds: the
    machine ends where [on_click] does. *)
Lemma on_click_alone (cfg : Setup) (o : World) (x y : Z) (b : Button)
    (s : State) (img : Path) :
  pc_of Mouse s = Idle ->
  lock s = None ->
  (forall line, stdout o line = Ok tt) ->
  capture_with_optional_crop cfg o (Some x) (Some y) = Ok img ->
  on_click cfg o x y b true (glob s)
  = (Ok ret_None, snd (on_click cfg o x y b true (glob s)))
  /\ run cfg s (solo Mouse (Click x y b true) o)
     = Some (set_glob (snd (on_click cfg o x y b true (glob s))) s).
Proof.
  intros Hpc Hlk Hout Hcap.
  destruct (active_window_info_total cfg (windows o)) as (ti & ap & Hw).
  assert (Hon : on_click cfg o x y b true (glob s)
                = (Ok ret_None,
                   snd (record cfg o (click_action b) (Some x) (Some y) img
                          (glob s)))).
  { unfold on_click. cbn [negb]. unfold mbind at 1. unfold call at 1.
    rewrite Hcap. unfold mbind at 1.
    rewrite (record_spec cfg o _ _ _ _ (glob s) ti ap Hw), Hout.
    reflexivity. }
  rewrite Hon. cbn [snd]. split; [ reflexivity | ].
  unfold solo.
  assert (E1 : effect cfg s (Deliver Mouse (Click x y b true))
                 (AtCapture cb_on_click (click_action b) (Some x) (Some y))
                 (glob s) (lock s)) by (apply E_click; exact Hpc).
  take_step E1.
  match goal with |- run _ ?s1 _ = _ =>
    assert (E2 : effect cfg s1 (Capture Mouse o)
                   (AtLock {| f_cb := cb_on_click;
                              f_action := click_action b;
                              f_x := Some x; f_y := Some y; f_img := img |})
                   (glob s1) (lock s1))
      by (eapply E_captured; [ apply pc_upd_same | exact Hcap ])
  end.
  take_step E2. rewrite glob_upd, lock_upd.
  rewrite record_alone
    with (f := {| f_cb := cb_on_click; f_action := click_action b;
                  f_x := Some x; f_y := Some y; f_img := img |})
    by (first [ apply pc_upd_same | rewrite lock_upd; exact Hlk
              | exact Hout ]).
  rewrite upd_upd, glob_upd. cbn [f_action f_x f_y f_img].
  f_equal. same_state s.
Qed.

(** F9 that runs alone: the machine ends where [on_press] does, whether
    the capture succeeds or raises. *)
Lemma on_press_f9_alone (cfg : Setup) (o : World) (s : State) :
  pc_of Keyboard s = Idle ->
  lock s = None ->
  (forall line, stdout o line = Ok tt) ->
  on_press cfg o Key_f9 (glob s)
  = (Ok ret_None, snd (on_press cfg o Key_f9 (glob s)))
  /\ run cfg s (if raised (capture o None)
                then [Deliver Keyboard (Press Key_f9); Capture Keyboard o]
                else solo Keyboard (Press Key_f9) o)
     = Some (set_glob (snd (on_press cfg o Key_f9 (glob s))) s).
Proof.
  intros Hpc Hlk Hout.
  destruct (active_window_info_total cfg (windows o)) as (ti & ap & Hw).
  assert (E1 : effect cfg s (Deliver Keyboard (Press Key_f9))
                 (AtCapture cb_on_press "manual screenshot" None None)
                 (glob s) (lock s)) by (apply E_f9; exact Hpc).
  destruct (capture o None) as [img | e] eqn:Hcap; cbn [raised].
  - assert (Hon : on_press cfg o Key_f9 (glob s)
                  = (Ok ret_None,
                     snd (record cfg o "manual screenshot" None None img
                            (glob s)))).
    { unfold on_press. cbn [Key_eqb]. unfold mtry.
      unfold mbind at 1. unfold mbind at 1. unfold call at 1.
      rewrite Hcap.
      rewrite (record_spec cfg o _ _ _ _ (glob s) ti ap Hw), Hout.
      reflexivity. }
    rewrite Hon. cbn [snd]. split; [ reflexivity | ].
    unfold solo. take_step E1.
    match goal with |- run _ ?s1 _ = _ =>
      assert (E2 : effect cfg s1 (Capture Keyboard o)
                     (AtLock {| f_cb := cb_on_press;
                                f_action := "manual screenshot";
                                f_x := None; f_y := None; f_img := img |})
                     (glob s1) (lock s1))
        by (eapply E_captured; [ apply pc_upd_same | exact Hcap ])
    end.
    take_step E2. rewrite glob_upd, lock_upd.
    rewrite record_alone
      with (f := {| f_cb := cb_on_press; f_action := "manual screenshot";
                    f_x := None; f_y := None; f_img := img |})
      by (first [ apply pc_upd_same | rewrite lock_upd; exact Hlk
              | exact Hout ]).
    rewrite upd_upd, glob_upd. cbn [f_action f_x f_y f_img].
    f_equal. same_state s.
  - assert (Hon : on_press cfg o Key_f9 (glob s)
                  = (Ok ret_None,
                     console_append ("on_press error: " ++ e) (glob s))).
    { unfold on_press. cbn [Key_eqb]. unfold mtry.
      unfold mbind at 1. unfold mbind at 1. unfold call at 1.
      rewrite Hcap. unfold print. run_block. rewrite Hout. reflexivity. }
    rewrite Hon. cbn [snd]. split; [ reflexivity | ].
    take_step E1.
    match goal with |- run _ ?s1 _ = _ =>
      assert (E2 : effect cfg s1 (Capture Keyboard o) Idle
                     (console_append ("on_press error: " ++ e) (glob s1))
                     (lock s1))
        by (eapply E_capture_raises;
            [ apply pc_upd_same | exact Hcap
            | unfold unwound, print; run_block; rewrite Hout; reflexivity ])
    end.
    take_step E2. rewrite glob_upd, lock_upd.
    cbn [run]. f_equal. same_state s.
Qed.


(* ================================================================== *)
(** * The ledger only grows *)
(* ================================================================== *)

Lemma step_ledger_grows (cfg : Setup) (s : State) (l : label) (s' : State) :
  step cfg s l = Some s' ->
  exists ext,
    steps (glob s') = (steps (glob s) ++ ext)%list
    /\ List.length ext = (if is_append l then 1 else 0)%nat
    /\ step_counter (glob s) <= step_counter (glob s').
Proof.
  intros Hstep. effect_cases Hstep He. rewrite glob_upd.
  effect_inv He;
    cbn [is_append steps step_counter set_running set_step_counter
         console_append steps_append];
    try (exists []; rewrite app_nil_r; repeat split; lia).
  eexists. repeat split. lia.
Qed.

(** X1.  The ledger is append-only.  Along any schedule, from any state,
    the ledger at the end is the ledger at the start followed by one new
    step for each [steps.append] executed; nothing is removed or changed,
    and the counter never decreases. *)
Theorem ledger_append_only (cfg : Setup) (sched : list label) (s s' : State) :
  run cfg s sched = Some s' ->
  exists ext,
    steps (glob s') = (steps (glob s) ++ ext)%list
    /\ List.length ext = List.length (filter is_append sched)
    /\ step_counter (glob s) <= step_counter (glob s').
Proof.
  revert s. induction sched as [ | l sched IH]; intros s Hrun.
  - cbn in Hrun. injection Hrun as <-. exists [].
    rewrite app_nil_r. repeat split. lia.
  - rewrite run_cons in Hrun.
    destruct (step cfg s l) as [s1 | ] eqn:H1; [ | discriminate ].
    destruct (step_ledger_grows cfg s l s1 H1) as (e1 & He1 & Hn1 & Hc1).
    destruct (IH s1 Hrun) as (e2 & He2 & Hn2 & Hc2).
    exists (e1 ++ e2)%list. rewrite He2, He1, app_assoc.
    split; [ reflexivity | ]. split; [ | lia ].
    rewrite length_app, Hn1, Hn2. cbn [filter].
    destruct (is_append l); reflexivity.
Qed.

Lemma ledger_append_only_witness :
  run (shipped true) initial overtaking = Some overtaking_end
  /\ List.length (steps (glob overtaking_end)) = 2%nat.
Proof.
  assert (H : run (shipped true) initial overtaking = Some overtaking_end)
    by reflexivity.
  split; [ exact H | ].
  destruct (ledger_append_only (shipped true) overtaking initial
              overtaking_end H) as (ext & He & Hn & _).
  rewrite He, length_app, Hn. reflexivity.
Defined.

(* ================================================================== *)
(** * The shape of a recorded step *)
(* ================================================================== *)

Lemma record_mark_value (o : World) (a : string) (x y : option Z)
    (img_path : Path) (g g' : Globals) (m : string) :
  record_mark o a x y img_path g = (Ok m, g') ->
  m = ""
  \/ (m = "images_marked/" ++ name img_path /\ startswith a "click" = true).
Proof.
  unfold record_mark. cbn [ANNOTATE_CLICK andb].
  destruct (startswith a "click") eqn:Hc.
  - unfold call, try_except, bind.
    destruct (annotate_click_on_image _ _ _ _); intros [= <- _]; auto.
  - unfold ret. intros [= <- _]. auto.
Qed.

Lemma click_is_not_manual (b : Button) : click_action b <> "manual screenshot".
Proof. unfold click_action. cbn. discriminate. Qed.

Lemma scroll_is_not_manual (dx dy : Z) :
  scroll_action dx dy <> "manual screenshot".
Proof. unfold scroll_action. cbn. discriminate. Qed.

Lemma step_Shaped (cfg : Setup) (s : State) (l : label) (s' : State) :
  Shaped s -> step cfg s l = Some s' -> Shaped s'.
Proof.
  intros [Hsteps Hpcs] Hstep. effect_cases Hstep He.
  split.
  - rewrite glob_upd.
    effect_inv He; cbn [label_tid steps set_running set_step_counter
      console_append steps_append]; try assumption.
    apply Forall_app. split; [ assumption | ].
    constructor; [ | constructor ].
    specialize (Hpcs t). rewrite H in Hpcs. destruct Hpcs as [Hpos Hm].
    subst st. split; cbn [action x y img_rel img_mark_rel]; [ exact Hpos | ].
    exists (name (f_img f)). split; [ reflexivity | ].
    destruct Hm as [-> | [-> Hc]]; [ left; reflexivity | right ].
    split; [ reflexivity | exact Hc ].
  - apply pcs_preserved; [ assumption | ].
    pose proof (Hpcs (label_tid l)) as Hold.
    effect_inv He; cbn [label_tid] in Hold;
      try (rewrite H in Hold); cbn [carried_shape f_action f_x f_y f_img] in *;
      try exact I; try exact Hold.
    + right. split; [ apply click_is_not_manual | eauto ].
    + right. split; [ apply scroll_is_not_manual | eauto ].
    + left. auto.
    + split; [ exact Hold | ]. eapply record_mark_value. eassumption.
Qed.

Lemma reachable_Shaped (cfg : Setup) (sched : list label) (s : State) :
  run cfg initial sched = Some s -> Shaped s.
Proof.
  apply (run_invariant cfg Shaped (step_Shaped cfg)).
  split; [ constructor | intros []; exact I ].
Qed.

(** X2.  In every ledger the program can build, a step has a position
    exactly when it is not a manual capture: the step of a manual
    screenshot has neither [x] nor [y], every other step (click, scroll)
    has both. *)
Theorem ledger_positions (cfg : Setup) (sched : list label) (s : State) :
  run cfg initial sched = Some s ->
  Forall (fun st => position_fits (action st) (x st) (y st)) (steps (glob s)).
Proof.
  intros Hrun. destruct (reachable_Shaped cfg sched s Hrun) as [Hs _].
  eapply Forall_impl; [ | exact Hs ]. intros st [Hp _]. exact Hp.
Qed.

Lemma ledger_positions_witness :
  run (shipped true) initial three_events = Some three_events_end
  /\ Forall (fun st => position_fits (action st) (x st) (y st))
       (steps (glob three_events_end)).
Proof.
  assert (H : run (shipped true) initial three_events = Some three_events_end)
    by reflexivity.
  split; [ exact H | ].
  exact (ledger_positions (shipped true) three_events three_events_end H).
Defined.

(** X3.  In every ledger the program can build, the two image references
    of a step name the same file: [img_rel] is ["images/" ++ n] and
    [img_mark_rel] is either the same path or ["images_marked/" ++ n], the
    latter only when the action starts with "click". *)
Theorem ledger_refs_same_file (cfg : Setup) (sched : list label) (s : State) :
  run cfg initial sched = Some s ->
  Forall (fun st => refs_fit (action st) (img_rel st) (img_mark_rel st))
    (steps (glob s)).
Proof.
  intros Hrun. destruct (reachable_Shaped cfg sched s Hrun) as [Hs _].
  eapply Forall_impl; [ | exact Hs ]. intros st [_ Hr]. exact Hr.
Qed.

Lemma ledger_refs_same_file_witness :
  run (shipped true) initial three_events = Some three_events_end
  /\ Forall (fun st => refs_fit (action st) (img_rel st) (img_mark_rel st))
       (steps (glob three_events_end)).
Proof.
  assert (H : run (shipped true) initial three_events = Some three_events_end)
    by reflexivity.
  split; [ exact H | ].
  exact (ledger_refs_same_file (shipped true) three_events three_events_end H).
Defined.

(* ================================================================== *)
(** * The terminate key *)
(* ================================================================== *)

Lemma effect_stop (cfg : Setup) (s : State) (l : label) (p : pc)
    (g : Globals) (lk : option tid) :
  effect cfg s l p g lk ->
  is_stopped (pc_of (label_tid l) s) = false
  /\ is_stopped p = is_esc l
  /\ running g = running (glob s) && negb (is_esc l)
  /\ (is_esc l = true -> label_tid l = Keyboard).
Proof.
  intros He.
  effect_inv He; cbn [label_tid is_esc is_stopped negb running set_running
                      set_step_counter console_append steps_append];
    rewrite ?H, ?Bool.andb_true_r, ?Bool.andb_false_r;
    repeat split; try reflexivity; try discriminate;
    destruct t; reflexivity.
Qed.

Lemma step_running (cfg : Setup) (s : State) (l : label) (s' : State) :
  step cfg s l = Some s' ->
  running (glob s') = running (glob s) && negb (is_esc l)
  /\ (is_stopped (keyboard s') = is_stopped (keyboard s) || is_esc l)
  /\ is_stopped (mouse s') = is_stopped (mouse s).
Proof.
  intros Hstep. effect_cases Hstep He.
  destruct (effect_stop _ _ _ _ _ _ He) as (Hold & Hnew & Hrun & Hkb).
  rewrite glob_upd. split; [ exact Hrun | ].
  change (keyboard (upd (label_tid l) p g lk s))
    with (pc_of Keyboard (upd (label_tid l) p g lk s)).
  change (mouse (upd (label_tid l) p g lk s))
    with (pc_of Mouse (upd (label_tid l) p g lk s)).
  rewrite !pc_of_upd.
  destruct (label_tid l) eqn:Ht; cbn [tid_eqb pc_of] in *.
  - destruct (is_esc l); [ specialize (Hkb eq_refl); discriminate | ].
    rewrite Bool.orb_false_r, Hnew, Hold. auto.
  - rewrite Hnew, Hold. auto.
Qed.

Lemma run_running (cfg : Setup) (sched : list label) (s s' : State) :
  run cfg s sched = Some s' ->
  running (glob s') = running (glob s) && negb (existsb is_esc sched)
  /\ is_stopped (keyboard s')
     = is_stopped (keyboard s) || existsb is_esc sched
  /\ is_stopped (mouse s') = is_stopped (mouse s).
Proof.
  revert s. induction sched as [ | l sched IH]; intros s Hrun.
  - cbn in Hrun. injection Hrun as <-. cbn.
    rewrite Bool.andb_true_r, Bool.orb_false_r. auto.
  - rewrite run_cons in Hrun.
    destruct (step cfg s l) as [s1 | ] eqn:H1; [ | discriminate ].
    destruct (step_running cfg s l s1 H1) as (Hr1 & Hk1 & Hm1).
    destruct (IH s1 Hrun) as (Hr & Hk & Hm).
    rewrite Hr, Hk, Hm, Hr1, Hk1, Hm1. cbn [existsb].
    rewrite Bool.negb_orb, Bool.andb_assoc, Bool.orb_assoc. auto.
Qed.

(** X4.  [running] becomes [False] only through the terminate key: at
    the end of a schedule [running] is false exactly when an ESC press
    was handled, which is exactly when the keyboard callback returned
    [False]; from then on no keyboard callback runs, and the mouse thread
    is never stopped by a callback's return value. *)
Theorem running_until_esc (cfg : Setup) (sched : list label) (s : State) :
  run cfg initial sched = Some s ->
  running (glob s) = negb (existsb is_esc sched)
  /\ is_stopped (keyboard s) = existsb is_esc sched
  /\ is_stopped (mouse s) = false
  /\ (existsb is_esc sched = true ->
      forall l, label_tid l = Keyboard -> step cfg s l = None).
Proof.
  intros Hrun.
  destruct (run_running cfg sched initial s Hrun) as (Hr & Hk & Hm).
  cbn in Hr, Hk, Hm. repeat split; try assumption.
  intros Hesc l Hl. rewrite Hesc in Hk.
  destruct (step cfg s l) as [s1 | ] eqn:Hs; [ | reflexivity ].
  destruct (step_effect _ _ _ _ Hs) as (p & g & lk & He & _).
  exfalso. effect_inv He; cbn [label_tid] in Hl; try discriminate Hl;
    try subst t; cbn [pc_of] in *;
    match goal with
    | H : keyboard s = _ |- _ => rewrite H in Hk; discriminate Hk
    end.
Qed.

Lemma running_until_esc_witness :
  run (shipped true) initial until_esc = Some until_esc_end
  /\ running (glob until_esc_end) = false
  /\ List.length (steps (glob until_esc_end)) = 1%nat.
Proof.
  assert (H : run (shipped true) initial until_esc = Some until_esc_end)
    by reflexivity.
  split; [ exact H | ]. split; [ | reflexivity ].
  exact (proj1 (running_until_esc (shipped true) until_esc until_esc_end H)).
Defined.

(* ================================================================== *)
(** * The lock is always released *)
(* ================================================================== *)

Lemma closes_step (cfg : Setup) (t : tid) (o : World) (s : State)
    (l : label) (p : pc) (g : Globals) (lk : option tid)
    (full short : list label) :
  effect cfg s l p g lk ->
  label_tid l = t ->
  closes cfg t o (upd t p g lk s) full short ->
  closes cfg t o s (l :: full) (l :: short).
Proof.
  intros E <- (s' & Hrun & Hlk & Hleft & Hother & Hall).
  exists s'. rewrite !run_cons, (effect_step _ _ _ _ _ _ E).
  rewrite pc_upd_other in Hother. auto.
Qed.

Lemma closes_at_release (cfg : Setup) (t : tid) (o : World) (s : State)
    (f : Frame) :
  pc_of t s = AtRelease f -> closes cfg t o s [Release t] [].
Proof.
  intros H. pose proof (E_release cfg s t f H) as E.
  exists (upd t Idle (glob s) None s).
  rewrite run_cons, (effect_step _ _ _ _ _ _ E). cbn [label_tid run].
  rewrite lock_upd, pc_upd_same, pc_upd_other.
  repeat split; auto. left. reflexivity.
Qed.

Lemma closes_at_print (cfg : Setup) (t : tid) (o : World) (s : State)
    (f : Frame) (ti ap : string) (st : Step) :
  pc_of t s = AtPrint f ti ap st ->
  closes cfg t o s [Emit t o; Release t] [Emit t o].
Proof.
  intros H.
  destruct (stdout o (record_line st (f_action f) (f_x f) (f_y f) (f_img f)
                        ti ap)) as [[] | e] eqn:Hout.
  - pose proof (E_emit cfg s t f ti ap st o H Hout) as E.
    pose proof (E_release cfg _ t f
                  (pc_upd_same t (AtRelease f)
                     (console_append
                        (record_line st (f_action f) (f_x f) (f_y f)
                           (f_img f) ti ap) (glob s)) (lock s) s)) as E'.
    eexists.
    rewrite !run_cons, (effect_step _ _ _ _ _ _ E). cbn [label_tid].
    rewrite !run_cons, (effect_step _ _ _ _ _ _ E'). cbn [label_tid run].
    rewrite upd_upd, glob_upd.
    split; [ left; reflexivity | ].
    rewrite lock_upd, pc_upd_same, pc_upd_other.
    repeat split; auto. left. reflexivity.
  - destruct (unwound (f_cb f) e o (glob s)) as [p g] eqn:Hu.
    pose proof (E_emit_raises cfg s t f ti ap st o e p g H Hout Hu) as E.
    exists (upd t p g None s).
    rewrite !run_cons, (effect_step _ _ _ _ _ _ E). cbn [label_tid run].
    rewrite lock_upd, pc_upd_same, pc_upd_other.
    split; [ right; reflexivity | ]. split; [ reflexivity | ].
    split.
    { destruct (unwound_cases _ _ _ _ _ _ Hu) as [(-> & _) | (e' & -> & _)];
        [ left; reflexivity | right; eauto ]. }
    split; [ reflexivity | ].
    intros Hall. rewrite Hall in Hout. discriminate Hout.
Qed.

(** X5.  Whoever holds the lock releases it: in every reachable state
    where thread [t] holds the lock, the statements that [t] has still to
    execute in the [with] block run, whatever the window libraries,
    Pillow, the clock and standard output answer, and they end with the
    lock free.  When the closing [print] returns, all of them run and
    [t] is back between callbacks; when it raises, the exception leaves
    the block, the lock is released and [t] has left its callback.  No
    statement of [record] can leave the lock held. *)
Theorem lock_always_released (cfg : Setup) (sched : list label) (s : State)
    (t : tid) (o : World) :
  run cfg initial sched = Some s ->
  lock s = Some t ->
  exists s',
    (run cfg s (rest_of_block t (pc_of t s) o) = Some s'
     \/ run cfg s (block_to_print t (pc_of t s) o) = Some s')
    /\ lock s' = None
    /\ left_callback (pc_of t s')
    /\ pc_of (other t) s' = pc_of (other t) s
    /\ (prints_all o ->
        run cfg s (rest_of_block t (pc_of t s) o) = Some s'
        /\ pc_of t s' = Idle).
Proof.
  intros Hrun Hlk.
  pose proof (inv_owner _ (reachable_Inv cfg sched s Hrun) t) as Hown.
  apply Hown in Hlk.
  destruct (active_window_info_total cfg (windows o)) as (ti & ap & Hw).
  assert (Hmark : forall f ti ap s1,
            pc_of t s1 = AtMark f ti ap ->
            closes cfg t o s1 (rest_of_block t (AtMark f ti ap) o)
              (block_to_print t (AtMark f ti ap) o)).
  { intros f ti' ap' s1 H1.
    destruct (record_mark_spec o (f_action f) (f_x f) (f_y f) (f_img f)
                (glob s1)) as (m & Hm & _).
    apply (closes_step _ _ _ _ _ _ _ _ _ _
             (E_mark cfg s1 t f ti' ap' o m H1 Hm) eq_refl).
    pose proof (E_append cfg _ t f ti' ap' m o
                  (pc_upd_same t (AtAppend f ti' ap' m) (glob s1) (lock s1)
                     s1)) as E.
    cbv zeta in E.
    apply (closes_step _ _ _ _ _ _ _ _ _ _ E eq_refl).
    eapply closes_at_print. apply pc_upd_same. }
  assert (Hinspect : forall f s1,
            pc_of t s1 = AtInspect f ->
            closes cfg t o s1 (rest_of_block t (AtInspect f) o)
              (block_to_print t (AtInspect f) o)).
  { intros f s1 H1.
    apply (closes_step _ _ _ _ _ _ _ _ _ _
             (E_inspect cfg s1 t f o ti ap H1 Hw) eq_refl).
    apply (Hmark f ti ap). apply pc_upd_same. }
  change (closes cfg t o s (rest_of_block t (pc_of t s) o)
            (block_to_print t (pc_of t s) o)).
  destruct (pc_of t s) eqn:Hpc; try discriminate Hlk.
  - apply (closes_step _ _ _ _ _ _ _ _ _ _ (E_incr cfg s t f Hpc) eq_refl).
    apply (Hinspect f). apply pc_upd_same.
  - apply (Hinspect f). exact Hpc.
  - apply (Hmark f title0 app). exact Hpc.
  - pose proof (E_append cfg s t f title0 app marked_rel o Hpc) as E.
    cbv zeta in E.
    apply (closes_step _ _ _ _ _ _ _ _ _ _ E eq_refl).
    eapply closes_at_print. apply pc_upd_same.
  - eapply closes_at_print. exact Hpc.
  - eapply closes_at_release. exact Hpc.
Qed.

Lemma lock_always_released_witness :
  run (shipped true) initial mouse_at_print = Some mouse_at_print_end
  /\ lock mouse_at_print_end = Some Mouse
  /\ exists s',
       run (shipped true) mouse_at_print_end [Emit Mouse (mute 1004)]
       = Some s'
       /\ lock s' = None
       /\ pc_of Mouse s' = Crashed "UnicodeEncodeError".
Proof.
  assert (H : run (shipped true) initial mouse_at_print
              = Some mouse_at_print_end) by reflexivity.
  assert (Hl : lock mouse_at_print_end = Some Mouse) by reflexivity.
  split; [ exact H | ]. split; [ exact Hl | ].
  destruct (lock_always_released (shipped true) mouse_at_print
              mouse_at_print_end Mouse (mute 1004) H Hl)
    as (s' & [Hr | Hr] & Hf & _).
  - discriminate Hr.
  - exists s'. split; [ exact Hr | ]. split; [ exact Hf | ].
    cbn in Hr. injection Hr as <-. reflexivity.
Defined.

(* ================================================================== *)
(** * The title found by pygetwindow *)
(* ================================================================== *)

(** X6.  When pygetwindow returns a window whose stripped title is not
    empty, that title is the one returned, on every platform; the
    win32gui fallback is not consulted, so the result does not depend on
    what [GetForegroundWindow] and [GetWindowText] would answer. *)
Theorem pygetwindow_title_wins (cfg : Setup) (w : WinCalls) (win : Window)
    (t : option string) :
  gw cfg = true ->
  getActiveWindow w = Ok (Some win) ->
  title win = Ok t ->
  strip (or_empty t) <> "" ->
  (exists app, active_window_info cfg w = Ok (strip (or_empty t), app))
  /\ forall fg text,
       active_window_info cfg
         {| getActiveWindow := getActiveWindow w;
            GetForegroundWindow := fg;
            GetWindowText := text;
            GetWindowThreadProcessId := GetWindowThreadProcessId w;
            Process_name := Process_name w |}
       = active_window_info cfg w.
Proof.
  intros Hgw Hwin Ht Hne.
  assert (Htruthy : truthy_str (strip (or_empty t)) = true).
  { destruct (strip (or_empty t)); [ congruence | reflexivity ]. }
  assert (Hall : forall fg text,
            exists app,
              active_window_info cfg
                {| getActiveWindow := getActiveWindow w;
                   GetForegroundWindow := fg;
                   GetWindowText := text;
                   GetWindowThreadProcessId := GetWindowThreadProcessId w;
                   Process_name := Process_name w |}
              = Ok (strip (or_empty t), app)
              /\ active_window_info cfg w = Ok (strip (or_empty t), app)).
  { intros fg text.
    unfold active_window_info, active_window_info_body, attr_hWnd.
    cbn [getActiveWindow GetForegroundWindow GetWindowText
         GetWindowThreadProcessId Process_name].
    rewrite Hgw, Hwin. run_block. rewrite Ht. cbn [fst snd].
    destruct (is_windows cfg && truthy_opt_int (_hWnd win) && win32gui cfg
              && win32process cfg);
      [ destruct (_hWnd win) as [h | ];
        [ destruct (GetWindowThreadProcessId w h) as [pid | e];
          [ destruct (truthy_int pid);
            [ destruct (Process_name w pid) as [n | e] | ] | ] | ] | ];
      cbn [fst snd]; rewrite Htruthy; cbn [negb andb fst snd];
      eexists; split; reflexivity. }
  split.
  - destruct (Hall (GetForegroundWindow w) (GetWindowText w))
      as (app & _ & H). eauto.
  - intros fg text. destruct (Hall fg text) as (app & -> & ->). reflexivity.
Qed.

Lemma pygetwindow_title_wins_witness :
  gw (shipped true) = true
  /\ getActiveWindow notepad = Ok (Some notepad_window)
  /\ title notepad_window = Ok (Some "Notepad")
  /\ strip (or_empty (Some "Notepad")) <> ""
  /\ exists app,
       active_window_info (shipped true) notepad = Ok ("Notepad", app).
Proof.
  assert (H1 : gw (shipped true) = true) by reflexivity.
  assert (H2 : getActiveWindow notepad = Ok (Some notepad_window))
    by reflexivity.
  assert (H3 : title notepad_window = Ok (Some "Notepad")) by reflexivity.
  assert (H4 : strip (or_empty (Some "Notepad")) <> "") by discriminate.
  repeat (split; [ assumption | ]).
  exact (proj1 (pygetwindow_title_wins (shipped true) notepad notepad_window
                  (Some "Notepad") H1 H2 H3 H4)).
Defined.

(* ================================================================== *)
(** * Every step refers to a saved screenshot *)
(* ================================================================== *)

Lemma capture_saved (o : World) (region : option Region) (p : Path) :
  capture o region = Ok p ->
  screenshot_save o region (screenshot_path o "step") = Ok tt.
Proof.
  unfold capture, bind.
  destruct (screenshot_save o region _) as [[] | e]; [ reflexivity | discriminate ].
Qed.

Lemma captured_saved (cfg : Setup) (cb : callback) (o : World)
    (x y : option Z) (p : Path) :
  captured cfg cb o x y = Ok p ->
  exists region, screenshot_save o region (screenshot_path o "step") = Ok tt.
Proof.
  unfold captured, capture_with_optional_crop.
  destruct cb, (truthy_int (CROP_RADIUS cfg)), x, y;
    intros H; apply capture_saved in H; eauto.
Qed.

Lemma step_images_from (cfg : Setup) (s : State) (l : label) (s' : State)
    (r : string) :
  step cfg s l = Some s' ->
  In r (images s') ->
  In r (images s) \/ saved_capture l r.
Proof.
  intros Hstep. effect_cases Hstep He. intros Hin.
  apply (Permutation_in _ (images_upd _ _ _ _ _)) in Hin.
  assert (Hback : In r (map img_rel (steps (glob s))
                        ++ pending (pc_of (label_tid l) s)
                        ++ pending (pc_of (other (label_tid l)) s))%list
                  -> In r (images s)).
  { apply Permutation_in. symmetry. apply images_by_thread. }
  effect_inv He;
    cbn [label_tid steps set_running set_step_counter print modify snd
         steps_append record_print] in *;
    try (rewrite H in Hback); cbn [pending List.app] in *;
    try (left; apply Hback; exact Hin).
  - (* the capture succeeded *)
    apply in_app_or in Hin as [Hin | [Hin | Hin]].
    + left. apply Hback, in_or_app. auto.
    + right. exists t, o.
      destruct (captured_saved _ _ _ _ _ _ H0) as (region & Hsave).
      exists region. repeat split; [ exact Hsave | ].
      apply captured_path in H0. subst img. symmetry. exact Hin.
    + left. apply Hback, in_or_app. auto.
  - (* append *)
    left. apply Hback. subst st. rewrite map_app in Hin. cbn [map img_rel] in Hin.
    rewrite <- app_assoc in Hin. exact Hin.
Qed.

Lemma run_images_from (cfg : Setup) (sched : list label) (s s' : State)
    (r : string) :
  run cfg s sched = Some s' ->
  In r (images s') ->
  In r (images s) \/ exists l, In l sched /\ saved_capture l r.
Proof.
  revert s. induction sched as [ | l sched IH]; intros s Hrun Hin.
  - cbn in Hrun. injection Hrun as <-. auto.
  - rewrite run_cons in Hrun.
    destruct (step cfg s l) as [s1 | ] eqn:H1; [ | discriminate ].
    destruct (IH s1 Hrun Hin) as [Hin1 | (l' & Hl' & Hs)].
    + destruct (step_images_from cfg s l s1 r H1 Hin1) as [H0 | Hs]; auto.
      right. exists l. split; [ left; reflexivity | exact Hs ].
    + right. exists l'. split; [ right; exact Hl' | exact Hs ].
Qed.

(** X7.  Every step of the ledger refers to a screenshot that was saved:
    its [img_rel] is the file name computed by a capture of the schedule
    whose [pyautogui.screenshot(...).save(p)] returned without raising. *)
Theorem steps_refer_to_saved_captures (cfg : Setup) (sched : list label)
    (s : State) :
  run cfg initial sched = Some s ->
  Forall (fun st => exists l, In l sched /\ saved_capture l (img_rel st))
    (steps (glob s)).
Proof.
  intros Hrun. apply Forall_forall. intros st Hst.
  destruct (run_images_from cfg sched initial s (img_rel st) Hrun)
    as [[] | H]; [ | exact H ].
  unfold images. apply in_or_app. left. apply in_map. exact Hst.
Qed.

Lemma steps_refer_to_saved_captures_witness :
  run (shipped true) initial overtaking = Some overtaking_end
  /\ Forall (fun st => exists l, In l overtaking /\ saved_capture l (img_rel st))
       (steps (glob overtaking_end)).
Proof.
  assert (H : run (shipped true) initial overtaking = Some overtaking_end)
    by reflexivity.
  split; [ exact H | ].
  exact (steps_refer_to_saved_captures (shipped true) overtaking
           overtaking_end H).
Defined.

(* ================================================================== *)
(** * The markdown report *)
(* ================================================================== *)

Lemma append_to_spec {A} (v : A) (l : list A) :
  append_to v l = (Ok tt, (l ++ [v])%list).
Proof. reflexivity. Qed.

(** A loop whose body only appends. *)
Lemma for_each_appends {A B} (f : A -> list B) (body : A -> M (list B) unit)
    (vs : list A) :
  (forall v l, body v l = (Ok tt, (l ++ f v)%list)) ->
  forall l, for_each vs body l = (Ok tt, (l ++ flat_map f vs)%list).
Proof.
  intros Hbody. induction vs as [ | v vs IH]; intros l; cbn [for_each flat_map].
  - unfold pass, ret. now rewrite app_nil_r.
  - unfold mbind. rewrite Hbody, IH, app_assoc. reflexivity.
Qed.

Ltac run_appends :=
  unfold mbind, pass, ret; rewrite ?append_to_spec;
  rewrite <- ?app_assoc; cbn [List.app].

Lemma markdown_step_spec (s : Step) (l : list string) :
  markdown_step s l = (Ok tt, (l ++ markdown_section s)%list).
Proof.
  unfold markdown_step, markdown_section.
  destruct (truthy_str (window_title s) || truthy_str (app_name s));
    destruct (startswith (action s) "click");
    run_appends; reflexivity.
Qed.

Lemma markdown_lines_spec (run : Run) (ledger : list Step) :
  markdown_lines run ledger []
  = (Ok tt, (markdown_header run ++ flat_map markdown_section ledger)%list).
Proof.
  unfold markdown_lines. unfold mbind at 1. rewrite append_to_spec.
  unfold mbind at 1. rewrite append_to_spec.
  rewrite (for_each_appends markdown_section markdown_step ledger
             markdown_step_spec).
  reflexivity.
Qed.

Lemma write_markdown_spec (run : Run) (io : Reporting) (ledger : list Step)
    (d : Outside) :
  write_markdown run io ledger d
  = write_text io MD_FILE (markdown_text run ledger) d.
Proof.
  unfold write_markdown, with_local. rewrite markdown_lines_spec.
  reflexivity.
Qed.

Lemma write_text_spec (io : Reporting) (file content : string) (d : Outside) :
  write_text io file content d
  = match write_result io file content with
    | Written =>
        (Ok tt, {| files := (file, Text content) :: files d;
                   printed := printed d |})
    | NotOpened e => (Raise e, d)
    | Broken e kept =>
        (Raise e, {| files := (file, Text kept) :: files d;
                     printed := printed d |})
    end.
Proof.
  unfold write_text. destruct (write_result io file content); reflexivity.
Qed.

Lemma out_print_spec (io : Reporting) (line : string) (d : Outside) :
  out_print io line d
  = match print_result io line with
    | Ok _ => (Ok tt, {| files := files d;
                         printed := (printed d ++ [line])%list |})
    | Raise e => (Raise e, d)
    end.
Proof.
  unfold out_print. run_block.
  destruct (print_result io line) as [[] | e]; reflexivity.
Qed.

Lemma prefix_empty (s : string) : String.prefix "" s = true.
Proof. destruct s; reflexivity. Qed.

Lemma filter_flat_map {A B} (p : B -> bool) (f : A -> list B) (g : A -> list B)
    (l : list A) :
  (forall a, filter p (f a) = g a) ->
  filter p (flat_map f l) = flat_map g l.
Proof.
  intros H. induction l as [ | a l IH]; cbn [flat_map]; [ reflexivity | ].
  now rewrite filter_app, H, IH.
Qed.

Lemma flat_map_singleton {A B} (f : A -> B) (l : list A) :
  flat_map (fun a => [f a]) l = map f l.
Proof. induction l as [ | a l IH]; cbn; [ reflexivity | now rewrite IH ]. Qed.

Lemma markdown_headings (s : Step) :
  filter (fun l => startswith l "## Passo ") (markdown_section s)
  = ["## Passo " ++ str_int (idx s) ++ nl].
Proof.
  unfold markdown_section.
  destruct (truthy_str (window_title s) || truthy_str (app_name s));
    destruct (startswith (action s) "click");
    unfold startswith; cbn; rewrite ?prefix_empty; reflexivity.
Qed.

Lemma markdown_images (s : Step) :
  filter (fun l => startswith l "![screenshot](") (markdown_section s)
  = ["![screenshot](" ++ img_mark_rel s ++ ")" ++ nl ++ nl].
Proof.
  unfold markdown_section.
  destruct (truthy_str (window_title s) || truthy_str (app_name s));
    destruct (startswith (action s) "click");
    unfold startswith; cbn; rewrite ?prefix_empty; reflexivity.
Qed.

Lemma markdown_heading_lines (run : Run) (ledger : list Step) :
  filter (fun l => startswith l "## Passo ")
    (snd (markdown_lines run ledger []))
  = map (fun s => "## Passo " ++ str_int (idx s) ++ nl) ledger.
Proof.
  rewrite markdown_lines_spec. cbn [snd]. rewrite filter_app.
  rewrite (filter_flat_map _ _ (fun s => ["## Passo " ++ str_int (idx s) ++ nl]))
    by apply markdown_headings.
  rewrite flat_map_singleton. reflexivity.
Qed.

(** X8.  The markdown report has one section per step, in ledger order:
    building its lines raises nothing; among them the headings are
    ["## Passo <idx>"] for the steps in order and the image lines are
    [![screenshot](<img_mark_rel>)] for the steps in order.  The text
    handed to [write_text] for [steps.md] is these lines joined by
    newlines.  When the write is complete the file holds this text; when
    the file cannot be opened it is left as it was; when the write is
    interrupted after the file was opened, the file holds only what had
    reached it, and the exception leaves [write_markdown]. *)
Theorem markdown_one_section_per_step (run : Run) (io : Reporting)
    (ledger : list Step) (d : Outside) :
  fst (markdown_lines run ledger []) = Ok tt
  /\ filter (fun l => startswith l "## Passo ")
       (snd (markdown_lines run ledger []))
     = map (fun s => "## Passo " ++ str_int (idx s) ++ nl) ledger
  /\ filter (fun l => startswith l "![screenshot](")
       (snd (markdown_lines run ledger []))
     = map (fun s => "![screenshot](" ++ img_mark_rel s ++ ")" ++ nl ++ nl)
         ledger
  /\ write_markdown run io ledger d
     = match write_result io MD_FILE
               (String.concat nl (snd (markdown_lines run ledger []))) with
       | Written =>
           (Ok tt,
            {| files := (MD_FILE,
                         Text (String.concat nl
                                 (snd (markdown_lines run ledger []))))
                        :: files d;
               printed := printed d |})
       | NotOpened e => (Raise e, d)
       | Broken e kept =>
           (Raise e,
            {| files := (MD_FILE, Text kept) :: files d;
               printed := printed d |})
       end.
Proof.
  split; [ now rewrite markdown_lines_spec | ].
  split; [ apply markdown_heading_lines | ].
  split.
  - rewrite markdown_lines_spec. cbn [snd]. rewrite filter_app.
    rewrite (filter_flat_map _ _
               (fun s => ["![screenshot](" ++ img_mark_rel s ++ ")" ++ nl ++ nl]))
      by apply markdown_images.
    rewrite flat_map_singleton. reflexivity.
  - rewrite write_markdown_spec, write_text_spec, markdown_lines_spec.
    reflexivity.
Qed.

(** The disk fills up while the report is written: [steps.md], opened
    for writing, is left empty. *)
Example markdown_write_interrupted :
  write_markdown (a_run false) disk_full (steps (glob three_events_end))
    {| files := [(MD_FILE, Text "# Registro")]; printed := [] |}
  = (Raise "OSError: No space left on device",
     {| files := [(MD_FILE, Text ""); (MD_FILE, Text "# Registro")];
        printed := [] |})
  /\ read_file [(MD_FILE, Text ""); (MD_FILE, Text "# Registro")] MD_FILE
     = Some (Text "").
Proof. split; reflexivity. Qed.



(* ================================================================== *)
(** * The HTML report *)
(* ================================================================== *)

Lemma head_template_raises (id css : string) :
  fstring [("RUN_ID", id); ("css_dark", css_dark); ("css_light", css_light);
           ("css", css)] head_template
  = Raise "NameError: name 'color' is not defined".
Proof. vm_compute. reflexivity. Qed.

Lemma write_html_raises (run : Run) (io : Reporting) (ledger : list Step)
    (d : Outside) :
  write_html run io ledger d
  = (Raise "NameError: name 'color' is not defined", d).
Proof.
  unfold write_html. unfold mbind at 1. unfold call at 1.
  rewrite head_template_raises. reflexivity.
Qed.

(** X10.  [write_html] never writes the report.  The f-string that builds
    the page head contains the replacement field [{ color:var(--accent); }],
    left unescaped in the style sheet, and no variable [color] exists:
    for every run identifier, ledger and state of the disk the call
    raises [NameError] while evaluating the head, before any line of the
    index or of the body is built; no file is written and nothing is
    printed. *)
Theorem html_report_never_written (run : Run) (io : Reporting)
    (ledger : list Step) (d : Outside) :
  In (Field "color" "var(--accent); ") head_template
  /\ fst (write_html run io ledger d)
     = Raise "NameError: name 'color' is not defined"
  /\ files (snd (write_html run io ledger d)) = files d
  /\ printed (snd (write_html run io ledger d)) = printed d.
Proof.
  rewrite write_html_raises. repeat split.
  unfold head_template. cbn [In]. do 5 right. left. reflexivity.
Qed.

(* ================================================================== *)
(** * The end of the session *)
(* ================================================================== *)

Lemma read_file_other (file other : string) (c : Content)
    (fs : list (string * Content)) :
  String.eqb file other = false ->
  read_file ((file, c) :: fs) other = read_file fs other.
Proof. intros H. cbn [read_file]. rewrite H. reflexivity. Qed.

Lemma read_file_same (file : string) (c : Content)
    (fs : list (string * Content)) :
  read_file ((file, c) :: fs) file = Some c.
Proof. cbn [read_file]. rewrite String.eqb_refl. reflexivity. Qed.

(** X11.  [start] never reaches its end.  After the listeners are
    stopped it writes [steps.md]; then [write_html] raises and the
    exception leaves [start]: for every ledger and every behaviour of the
    disk and of standard output, [start] ends with an exception,
    [report.html] and the .docx file are not written,
    [write_docx_if_possible] is not called and the closing lines
    ("Finalizado!", the list of files) are never printed.  When both
    writes of [steps.md] are complete and the two opening lines are
    printed, the exception is the [NameError] of the HTML head, and
    [steps.md] then holds the complete markdown report. *)
Theorem session_ends_with_exception (run : Run)
    (io0 io_md io_html io_docx : Reporting) (ledger : list Step)
    (d : Outside) :
  exists e d',
    start run io0 io_md io_html io_docx ledger d = (Raise e, d')
    /\ read_file (files d') HTML_FILE = read_file (files d) HTML_FILE
    /\ read_file (files d') DOCX_FILE = read_file (files d) DOCX_FILE
    /\ (exists more,
          printed d' = (printed d ++ more)%list
          /\ incl more
               ["Iniciado. ESC para encerrar, F9 para screenshot manual.";
                "Saída: " ++ str_BASE_OUT run])
    /\ (write_result io0 MD_FILE
          ("# Registro de Ações — " ++ RUN_ID run ++ nl ++ nl) = Written ->
        print_result io0
          "Iniciado. ESC para encerrar, F9 para screenshot manual." = Ok tt ->
        print_result io0 ("Saída: " ++ str_BASE_OUT run) = Ok tt ->
        write_result io_md MD_FILE
          (String.concat nl (snd (markdown_lines run ledger []))) = Written ->
        e = "NameError: name 'color' is not defined"
        /\ read_file (files d') MD_FILE
           = Some (Text (String.concat nl
                           (snd (markdown_lines run ledger []))))).
Proof.
  assert (Hhtml : String.eqb MD_FILE HTML_FILE = false) by reflexivity.
  assert (Hdocx : String.eqb MD_FILE DOCX_FILE = false) by reflexivity.
  pose proof (markdown_lines_spec run ledger) as Hlines.
  unfold start.
  unfold mbind at 1. rewrite write_text_spec.
  destruct (write_result io0 MD_FILE _) as [ | e0 | e0 kept0 ].
  - unfold mbind at 1. rewrite out_print_spec.
    destruct (print_result io0 _) as [[] | e1].
    + unfold mbind at 1. rewrite out_print_spec.
      destruct (print_result io0 _) as [[] | e2].
      * unfold mbind at 1.
        rewrite write_markdown_spec, write_text_spec.
        unfold markdown_text. rewrite Hlines. cbn [snd].
        destruct (write_result io_md MD_FILE _) as [ | e3 | e3 kept3 ].
        -- unfold mbind at 1. rewrite write_html_raises.
           eexists. eexists. split; [ reflexivity | ].
           cbn [files printed].
           rewrite !(read_file_other _ _ _ _ Hhtml),
             !(read_file_other _ _ _ _ Hdocx), read_file_same.
           repeat split.
           eexists. split; [ rewrite <- app_assoc; reflexivity
                           | apply incl_refl ].
        -- eexists. eexists. split; [ reflexivity | ].
           cbn [files printed].
           rewrite !(read_file_other _ _ _ _ Hhtml),
             !(read_file_other _ _ _ _ Hdocx).
           repeat split; try discriminate.
           eexists. split; [ rewrite <- app_assoc; reflexivity
                           | apply incl_refl ].
        -- eexists. eexists. split; [ reflexivity | ].
           cbn [files printed].
           rewrite !(read_file_other _ _ _ _ Hhtml),
             !(read_file_other _ _ _ _ Hdocx).
           repeat split; try discriminate.
           eexists. split; [ rewrite <- app_assoc; reflexivity
                           | apply incl_refl ].
      * eexists. eexists. split; [ reflexivity | ].
        cbn [files printed].
        rewrite !(read_file_other _ _ _ _ Hhtml),
          !(read_file_other _ _ _ _ Hdocx).
        repeat split; try discriminate.
        eexists. split; [ reflexivity | ].
        intros l [<- | []]. left. reflexivity.
    + eexists. eexists. split; [ reflexivity | ].
      cbn [files printed].
      rewrite !(read_file_other _ _ _ _ Hhtml),
        !(read_file_other _ _ _ _ Hdocx).
      repeat split; try discriminate.
      exists []. split; [ now rewrite app_nil_r | intros ? [] ].
  - eexists. eexists. split; [ reflexivity | ].
    repeat split; try discriminate.
    exists []. split; [ now rewrite app_nil_r | intros ? [] ].
  - eexists. eexists. split; [ reflexivity | ].
    cbn [files printed].
    rewrite !(read_file_other _ _ _ _ Hhtml),
      !(read_file_other _ _ _ _ Hdocx).
    repeat split; try discriminate.
    exists []. split; [ now rewrite app_nil_r | intros ? [] ].
Qed.

Lemma session_ends_with_exception_witness :
  exists d',
    start (a_run true) helpful helpful helpful helpful
      (steps (glob three_events_end)) nothing_yet
    = (Raise "NameError: name 'color' is not defined", d')
    /\ read_file (files d') HTML_FILE = None.
Proof.
  destruct (session_ends_with_exception (a_run true) helpful helpful helpful
              helpful (steps (glob three_events_end)) nothing_yet)
    as (e & d' & Hs & Hh & _ & _ & Hmd).
  destruct (Hmd eq_refl eq_refl eq_refl eq_refl) as [-> _].
  exists d'. split; [ exact Hs | exact Hh ].
Defined.

(* ================================================================== *)
(** * The page document *)
(* ================================================================== *)

Lemma add_spec (io : Reporting) (b : Block) (l : list Block) :
  add io b l
  = match accepts io b with
    | Ok _ => (Ok tt, (l ++ [b])%list)
    | Raise e => (Raise e, l)
    end.
Proof.
  unfold add. run_block. destruct (accepts io b) as [[] | e]; reflexivity.
Qed.

(** Inside its [try], [add_picture] leaves a picture or an empty run. *)
Lemma doc_add_picture_try (io : Reporting) (path : string) (l : list Block) :
  mtry (doc_add_picture io path) (fun _ => pass) l
  = (Ok tt,
     (l ++ [if raised (add_picture io path) then EmptyRun
            else Picture path])%list).
Proof.
  unfold doc_add_picture. run_block.
  destruct (add_picture io path) as [[] | e]; reflexivity.
Qed.

Lemma docx_step_spec (run : Run) (io : Reporting) (s : Step) (l : list Block) :
  accepts_all io ->
  docx_step run io s l = (Ok tt, (l ++ docx_section run io s)%list).
Proof.
  intros Hall. unfold docx_step, docx_section.
  destruct (truthy_str (window_title s));
    destruct (truthy_str (app_name s));
    destruct (startswith (action s) "click");
    unfold mbind, pass, ret;
    repeat (rewrite add_spec, Hall; cbv beta iota);
    rewrite doc_add_picture_try;
    repeat (rewrite add_spec, Hall; cbv beta iota);
    rewrite <- ?app_assoc; cbn [List.app]; reflexivity.
Qed.

Lemma docx_document_spec (run : Run) (io : Reporting) (ledger : list Step) :
  accepts_all io ->
  docx_document run io ledger [] = (Ok tt, docx_blocks run io ledger).
Proof.
  intros Hall. unfold docx_document, docx_blocks, docx_cover.
  unfold mbind at 1. rewrite add_spec, Hall.
  unfold mbind at 1. rewrite add_spec, Hall.
  unfold mbind at 1. rewrite add_spec, Hall.
  rewrite (for_each_appends (docx_section run io) (docx_step run io) ledger
             (fun s l => docx_step_spec run io s l Hall)).
  reflexivity.
Qed.

Ltac docx_cases run io s :=
  unfold docx_section;
  destruct (truthy_str (window_title s)), (truthy_str (app_name s)),
    (startswith (action s) "click"),
    (raised (add_picture io (str_under run (img_mark_rel s))));
  reflexivity.

Lemma docx_section_headings (run : Run) (io : Reporting) (s : Step) :
  filter is_heading (docx_section run io s)
  = [Heading ("Passo " ++ str_int (idx s)) 1].
Proof. docx_cases run io s. Qed.

Lemma docx_section_breaks (run : Run) (io : Reporting) (s : Step) :
  filter is_page_break (docx_section run io s) = [PageBreak].
Proof. docx_cases run io s. Qed.

Lemma docx_section_pictures (run : Run) (io : Reporting) (s : Step) :
  filter (fun b => is_picture b || is_empty_run b) (docx_section run io s)
  = [if raised (add_picture io (str_under run (img_mark_rel s)))
     then EmptyRun else Picture (str_under run (img_mark_rel s))].
Proof. docx_cases run io s. Qed.

Lemma docx_section_text (run : Run) (io io' : Reporting) (s : Step) :
  filter (fun b => negb (is_picture b || is_empty_run b))
    (docx_section run io s)
  = filter (fun b => negb (is_picture b || is_empty_run b))
      (docx_section run io' s).
Proof.
  unfold docx_section.
  destruct (truthy_str (window_title s)), (truthy_str (app_name s)),
    (startswith (action s) "click"),
    (raised (add_picture io (str_under run (img_mark_rel s)))),
    (raised (add_picture io' (str_under run (img_mark_rel s))));
    reflexivity.
Qed.

(** Whether a loop raises, when whether its body raises does not depend
    on the variable. *)
Lemma for_each_outcome {A B} (body body' : A -> M (list B) unit)
    (vs : list A) :
  (forall v l l', fst (body' v l') = fst (body v l)) ->
  forall l l', fst (for_each vs body' l') = fst (for_each vs body l).
Proof.
  intros Hbody. induction vs as [ | v vs IH]; intros l l'; cbn [for_each].
  - reflexivity.
  - unfold mbind. pose proof (Hbody v l l') as Hv.
    destruct (body' v l') as [[[] | e'] l1'], (body v l) as [[[] | e] l1];
      cbn [fst] in *; try discriminate Hv; [ apply IH | exact Hv ].
Qed.

Ltac accept_cases io io' Hacc :=
  repeat
    (rewrite ?doc_add_picture_try; cbv beta iota;
     first
       [ reflexivity
       | rewrite (add_spec io'), Hacc, (add_spec io);
         match goal with
         | |- context [accepts io ?b] => destruct (accepts io b) as [[] | ?]
         end;
         cbv beta iota; cbn [fst snd] ]).

Lemma docx_step_outcome (run : Run) (io io' : Reporting) (s : Step)
    (l l' : list Block) :
  (forall b, accepts io' b = accepts io b) ->
  fst (docx_step run io' s l') = fst (docx_step run io s l).
Proof.
  intros Hacc. unfold docx_step.
  destruct (truthy_str (window_title s));
    destruct (truthy_str (app_name s));
    destruct (startswith (action s) "click");
    unfold mbind, pass, ret;
    accept_cases io io' Hacc.
Qed.

(** X12.  In the page document a picture that cannot be embedded leaves
    the empty paragraph that [add_picture] had added, and nothing else is
    lost.  Whether building the document raises does not depend on the
    pictures.  When python-docx accepts the blocks, building raises
    nothing; the document has one heading ["Passo <idx>"] per step in
    ledger order and one page break after the cover and after every step;
    every step has, in ledger order, the picture of its marked image when
    [add_picture] returned and an empty run when it raised; and everything
    else is the same whatever [add_picture] does. *)
Theorem docx_skips_failed_pictures (run : Run) (io : Reporting)
    (ledger : list Step) :
  (forall io',
     (forall b, accepts io' b = accepts io b) ->
     report_now io' = report_now io ->
     fst (docx_document run io' ledger [])
     = fst (docx_document run io ledger []))
  /\ (accepts_all io ->
      fst (docx_document run io ledger []) = Ok tt
      /\ filter is_heading (snd (docx_document run io ledger []))
         = map (fun s => Heading ("Passo " ++ str_int (idx s)) 1) ledger
      /\ List.length
           (filter is_page_break (snd (docx_document run io ledger [])))
         = S (List.length ledger)
      /\ filter (fun b => is_picture b || is_empty_run b)
           (snd (docx_document run io ledger []))
         = map (fun s =>
                  if raised (add_picture io (str_under run (img_mark_rel s)))
                  then EmptyRun
                  else Picture (str_under run (img_mark_rel s)))
             ledger
      /\ forall io',
           accepts_all io' ->
           report_now io' = report_now io ->
           filter (fun b => negb (is_picture b || is_empty_run b))
             (snd (docx_document run io' ledger []))
           = filter (fun b => negb (is_picture b || is_empty_run b))
               (snd (docx_document run io ledger []))).
Proof.
  split.
  - intros io' Hacc Hnow. unfold docx_document.
    unfold mbind. rewrite Hnow. accept_cases io io' Hacc.
    apply for_each_outcome. intros s l l'.
    apply docx_step_outcome. exact Hacc.
  - intros Hall. rewrite (docx_document_spec run io ledger Hall).
    cbn [fst snd]. unfold docx_blocks.
    split; [ reflexivity | ]. split; [ | split; [ | split ] ].
    + rewrite filter_app. cbn [filter docx_cover is_heading List.app].
      rewrite (filter_flat_map _ _
                 (fun s => [Heading ("Passo " ++ str_int (idx s)) 1]))
        by apply docx_section_headings.
      apply flat_map_singleton.
    + rewrite filter_app. cbn [filter docx_cover is_page_break List.app].
      rewrite (filter_flat_map _ _ (fun _ => [PageBreak]))
        by apply docx_section_breaks.
      rewrite flat_map_singleton. cbn [List.length]. rewrite length_map.
      reflexivity.
    + rewrite filter_app.
      cbn [filter docx_cover is_picture is_empty_run orb List.app].
      rewrite (filter_flat_map _ _
                 (fun s =>
                    [if raised (add_picture io (str_under run (img_mark_rel s)))
                     then EmptyRun
                     else Picture (str_under run (img_mark_rel s))]))
        by apply docx_section_pictures.
      apply flat_map_singleton.
    + intros io' Hall' Hnow. rewrite (docx_document_spec run io' ledger Hall').
      cbn [snd]. unfold docx_blocks.
      rewrite !filter_app. f_equal.
      * unfold docx_cover. rewrite Hnow. reflexivity.
      * induction ledger as [ | s ledger IH]; cbn [flat_map];
          [ reflexivity | ].
        rewrite !filter_app, IH. f_equal. apply docx_section_text.
Qed.

Lemma docx_skips_failed_pictures_witness :
  accepts_all no_pictures
  /\ filter (fun b => is_picture b || is_empty_run b)
       (snd (docx_document (a_run true) no_pictures
               (steps (glob three_events_end)) []))
     = [EmptyRun; EmptyRun; EmptyRun].
Proof.
  assert (H : accepts_all no_pictures) by (intros b; reflexivity).
  split; [ exact H | ].
  rewrite (proj1 (proj2 (proj2 (proj2
             (proj2 (docx_skips_failed_pictures (a_run true) no_pictures
                       (steps (glob three_events_end))) H))))).
  reflexivity.
Defined.

(** X13.  Without python-docx, [write_docx_if_possible] writes no file and
    prints the notice.  With it, when the document can be opened and
    python-docx accepts the blocks, whatever happened to the pictures:
    when [doc.save] is complete the file holds the document and the
    announcing [print] decides the outcome; when the file cannot be
    opened the exception is the result and the disk is as before; when
    saving is interrupted the exception is the result and a damaged file
    is left. *)
Theorem docx_written_when_possible (run : Run) (io : Reporting)
    (ledger : list Step) (d : Outside) :
  (HAS_DOCX run = false ->
   write_docx_if_possible run io ledger d
   = match print_result io
             "python-docx não instalado — pulando DOCX (pip install python-docx)"
     with
     | Ok _ =>
         (Ok tt,
          {| files := files d;
             printed := List.app (printed d)
                          ["python-docx não instalado — pulando DOCX (pip install python-docx)"] |})
     | Raise e => (Raise e, d)
     end)
  /\ (HAS_DOCX run = true ->
      new_document io = Ok tt ->
      accepts_all io ->
      write_docx_if_possible run io ledger d
      = match save_result io with
        | Saved =>
            let saved :=
              (DOCX_FILE, Docx (snd (docx_document run io ledger [])))
              :: files d in
            match print_result io
                    ("📄 DOCX gerado: " ++ str_under run DOCX_FILE) with
            | Ok _ =>
                (Ok tt,
                 {| files := saved;
                    printed := List.app (printed d)
                                 ["📄 DOCX gerado: "
                                  ++ str_under run DOCX_FILE] |})
            | Raise e => (Raise e, {| files := saved; printed := printed d |})
            end
        | SaveNotOpened e => (Raise e, d)
        | SaveBroken e =>
            (Raise e,
             {| files := (DOCX_FILE, Damaged) :: files d;
                printed := printed d |})
        end).
Proof.
  unfold write_docx_if_possible. split.
  - intros ->. cbn [negb]. apply out_print_spec.
  - intros -> Hnew Hall. cbn [negb].
    unfold with_local. rewrite (docx_document_spec run io ledger Hall).
    unfold doc_save. rewrite Hnew. run_block. cbn [snd].
    destruct (save_result io) as [ | e | e]; [ | reflexivity | reflexivity ].
    unfold store, out_print. run_block. cbn [files printed].
    destruct (print_result io _) as [[] | e]; reflexivity.
Qed.

Lemma docx_written_when_possible_witness :
  HAS_DOCX (a_run true) = true
  /\ new_document no_pictures = Ok tt
  /\ accepts_all no_pictures
  /\ fst (write_docx_if_possible (a_run true) no_pictures
            (steps (glob three_events_end)) nothing_yet) = Ok tt.
Proof.
  assert (H : accepts_all no_pictures) by (intros b; reflexivity).
  split; [ reflexivity | ]. split; [ reflexivity | ]. split; [ exact H | ].
  rewrite (proj2 (docx_written_when_possible (a_run true) no_pictures
                    (steps (glob three_events_end)) nothing_yet)
             eq_refl eq_refl H).
  reflexivity.
Defined.

(* ================================================================== *)
(** * No step without an event *)
(* ================================================================== *)

Lemma step_weight (cfg : Setup) (s : State) (l : label) (s' : State) :
  step cfg s l = Some s' ->
  (List.length (steps (glob s')) + carrying (mouse s') + carrying (keyboard s')
   <= List.length (steps (glob s)) + carrying (mouse s) + carrying (keyboard s)
      + (if asks_for_step l then 1 else 0))%nat.
Proof.
  intros Hstep. effect_cases Hstep He.
  assert (Hsplit : forall u : State,
            (carrying (mouse u) + carrying (keyboard u)
             = carrying (pc_of (label_tid l) u)
               + carrying (pc_of (other (label_tid l)) u))%nat).
  { intros u. destruct (label_tid l); cbn [pc_of other]; lia. }
  pose proof (Hsplit s) as H0.
  pose proof (Hsplit (upd (label_tid l) p g lk s)) as H1.
  rewrite pc_upd_same, pc_upd_other in H1. rewrite glob_upd.
  effect_inv He;
    cbn [label_tid asks_for_step steps set_running set_step_counter
         console_append steps_append carrying] in *;
    try (rewrite H in H0); cbn [carrying] in *;
    rewrite ?length_app; cbn [List.length]; lia.
Qed.

(** X14.  No step without an event: the ledger never has more steps
    than pressed clicks, scrolls and F9 presses were delivered.  Button
    releases, the terminate key and all other keys add nothing. *)
Theorem steps_need_events (cfg : Setup) (sched : list label) (s : State) :
  run cfg initial sched = Some s ->
  (List.length (steps (glob s)) <= List.length (filter asks_for_step sched))%nat.
Proof.
  intros Hrun.
  assert (Hgen : forall sched s0 s1,
            run cfg s0 sched = Some s1 ->
            (List.length (steps (glob s1)) + carrying (mouse s1)
             + carrying (keyboard s1)
             <= List.length (steps (glob s0)) + carrying (mouse s0)
                + carrying (keyboard s0)
                + List.length (filter asks_for_step sched))%nat).
  { clear. induction sched as [ | l sched IH]; intros s0 s1 Hrun.
    - cbn in Hrun. injection Hrun as <-. cbn. lia.
    - rewrite run_cons in Hrun.
      destruct (step cfg s0 l) as [s' | ] eqn:H1; [ | discriminate ].
      pose proof (step_weight cfg s0 l s' H1).
      pose proof (IH s' s1 Hrun). cbn [filter].
      destruct (asks_for_step l); cbn [List.length]; lia. }
  specialize (Hgen sched initial s Hrun). cbn in Hgen. lia.
Qed.

Lemma steps_need_events_witness :
  run (shipped true) initial until_esc = Some until_esc_end
  /\ (List.length (steps (glob until_esc_end)) <= 1)%nat.
Proof.
  assert (H : run (shipped true) initial until_esc = Some until_esc_end)
    by reflexivity.
  split; [ exact H | ].
  exact (steps_need_events (shipped true) until_esc until_esc_end H).
Defined.

(* ================================================================== *)
(** * The console mirrors the ledger *)
(* ================================================================== *)

Lemma substring_all (s : string) : substring 0 (String.length s) s = s.
Proof. induction s as [ | c s IH]; cbn; [ reflexivity | now rewrite IH ]. Qed.

Lemma file_of_ref_images (n : string) : file_of_ref ("images/" ++ n) = n.
Proof.
  unfold file_of_ref. cbn [append String.length Nat.sub substring].
  rewrite Nat.sub_0_r. apply substring_all.
Qed.

Lemma awaiting_outside_lock (p : pc) : in_lock p = false -> awaiting p = [].
Proof. destruct p; cbn; congruence. Qed.

Lemma console_line_is_step_line (st : Step) :
  is_step_line (console_line st) = true.
Proof.
  unfold is_step_line, startswith, console_line. cbn. apply prefix_empty.
Qed.

Lemma error_line_is_not_step_line (e : string) :
  is_step_line ("on_press error: " ++ e) = false.
Proof. reflexivity. Qed.

Lemma subsequence_app_same {A} (a b : list A) (v : A) :
  subsequence a b -> subsequence (a ++ [v]) (b ++ [v]).
Proof.
  revert a. induction b as [ | w b IH]; intros [ | u a] H; cbn in *.
  - auto.
  - contradiction.
  - destruct b; cbn; [ auto | right; apply (IH [] I) ].
  - destruct H as [[-> H] | H]; [ left; split; auto | ].
    right. apply (IH (u :: a) H).
Qed.

Lemma subsequence_drop_last {A} (a b : list A) (v : A) :
  subsequence (a ++ [v]) b -> subsequence a b.
Proof.
  revert a. induction b as [ | w b IH]; intros [ | u a] H; cbn in *;
    try exact I; try contradiction.
  destruct H as [[-> H] | H]; [ left; split; auto | ].
  right. apply (IH (u :: a) H).
Qed.

Lemma step_Matches (cfg : Setup) (s : State) (l : label) (s' : State) :
  Matches s -> step cfg s l = Some s' -> Matches s'.
Proof.
  unfold Matches. intros Hm Hstep. effect_cases Hstep He.
  apply (pcs_preserved print_matches); [ assumption | ].
  effect_inv He; cbn [print_matches]; try exact I.
  subst st. unfold record_line, console_line.
  cbn [ts action x y img_rel window_title app_name].
  rewrite file_of_ref_images. reflexivity.
Qed.

Lemma awaiting_apart (t : tid) (s : State) :
  Inv s ->
  (awaiting (mouse s) ++ awaiting (keyboard s))%list
  = (awaiting (pc_of t s) ++ awaiting (pc_of (other t) s))%list.
Proof.
  intros HI. destruct t; cbn [pc_of other]; [ reflexivity | ].
  pose proof (inv_owner _ HI Mouse) as Hm.
  pose proof (inv_owner _ HI Keyboard) as Hk.
  cbn [pc_of] in Hm, Hk.
  destruct (in_lock (mouse s)) eqn:Em.
  - destruct (in_lock (keyboard s)) eqn:Ek.
    + assert (lock s = Some Mouse) by (apply Hm; reflexivity).
      assert (lock s = Some Keyboard) by (apply Hk; reflexivity).
      congruence.
    + rewrite (awaiting_outside_lock _ Ek). now rewrite app_nil_r.
  - rewrite (awaiting_outside_lock _ Em). now rewrite app_nil_r.
Qed.

(** What a step does to the lines of steps: nothing, or the line of the
    appended step is added on both sides, or the line about to be printed
    is lost with the exception of its [print]. *)
Lemma step_step_lines (cfg : Setup) (s : State) (l : label) (s' : State) :
  Inv s -> Matches s -> step cfg s l = Some s' ->
  (step_lines s' = step_lines s /\ ledger_lines s' = ledger_lines s)
  \/ (exists v,
        step_lines s' = (step_lines s ++ [v])%list
        /\ ledger_lines s' = (ledger_lines s ++ [v])%list)
  \/ (exists t o line e v,
        l = Emit t o /\ stdout o line = Raise e
        /\ step_lines s = (step_lines s' ++ [v])%list
        /\ ledger_lines s' = ledger_lines s).
Proof.
  intros HI HM Hstep.
  pose proof (step_Inv cfg s l s' HI Hstep) as HI'.
  pose proof (inv_owner _ HI) as Hown.
  unfold step_lines, ledger_lines.
  rewrite (awaiting_apart (label_tid l) s HI),
    (awaiting_apart (label_tid l) s' HI').
  clear HI'. effect_cases Hstep He.
  rewrite glob_upd, pc_upd_same, pc_upd_other.
  assert (Hidle : in_lock (pc_of (label_tid l) s) = true ->
                  awaiting (pc_of (other (label_tid l)) s) = []).
  { intros Hin. apply awaiting_outside_lock.
    destruct (in_lock (pc_of (other (label_tid l)) s)) eqn:Hin';
      [ | reflexivity ].
    apply Hown in Hin. apply Hown in Hin'.
    pose proof (other_neq (label_tid l)). congruence. }
  pose proof (HM (label_tid l)) as Hp.
  effect_inv He; cbn [label_tid] in *; rewrite H in *;
    cbn [in_lock awaiting steps console set_running set_step_counter
         console_append steps_append print_matches List.app] in *;
    rewrite ?filter_app; cbn [filter];
    rewrite ?error_line_is_not_step_line, ?app_nil_r;
    try (left; split; reflexivity).
  - (* append *)
    right. left. exists (console_line st).
    rewrite (Hidle eq_refl), !app_nil_r, map_app. split; reflexivity.
  - (* the print returns *)
    left. rewrite Hp, console_line_is_step_line.
    rewrite (Hidle eq_refl), !app_nil_r. split; reflexivity.
  - (* the print raises, [on_press] prints *)
    right. right. exists t, o. do 3 eexists.
    split; [ reflexivity | ]. split; [ eassumption | ].
    rewrite (Hidle eq_refl), !app_nil_r. split; reflexivity.
  - right. right. exists t, o. do 3 eexists.
    split; [ reflexivity | ]. split; [ eassumption | ].
    rewrite (Hidle eq_refl), !app_nil_r. split; reflexivity.
Qed.

Lemma reachable_Matches (cfg : Setup) (sched : list label) (s : State) :
  run cfg initial sched = Some s -> Inv s /\ Matches s.
Proof.
  apply (run_invariant cfg (fun s => Inv s /\ Matches s)).
  - intros s0 l s1 [HI HM] Hstep. split.
    + eapply step_Inv; eassumption.
    + eapply step_Matches; eassumption.
  - split; [ exact Inv_initial | intros []; exact I ].
Qed.

(** The lines of steps form a subsequence of the ledger's, and the
    whole of it while standard output accepts them. *)
Lemma run_step_lines (cfg : Setup) (sched : list label) (s s' : State) :
  Inv s -> Matches s ->
  run cfg s sched = Some s' ->
  (subsequence (step_lines s) (ledger_lines s) ->
   subsequence (step_lines s') (ledger_lines s'))
  /\ (emits_all sched ->
      step_lines s = ledger_lines s -> step_lines s' = ledger_lines s').
Proof.
  revert s. induction sched as [ | l sched IH]; intros s HI HM Hrun.
  - cbn in Hrun. injection Hrun as <-. auto.
  - rewrite run_cons in Hrun.
    destruct (step cfg s l) as [s1 | ] eqn:H1; [ | discriminate ].
    pose proof (step_Inv cfg s l s1 HI H1) as HI1.
    pose proof (step_Matches cfg s l s1 HM H1) as HM1.
    destruct (IH s1 HI1 HM1 Hrun) as [IHsub IHeq].
    destruct (step_step_lines cfg s l s1 HI HM H1)
      as [[E1 E2] | [(v & E1 & E2) | (t & o & line & e & v & -> & Hout & E1 & E2)]].
    + rewrite E1, E2 in *. split; [ exact IHsub | ].
      intros Hall. apply IHeq. intros t o Hin. apply (Hall t o).
      right. exact Hin.
    + split.
      * intros Hsub. apply IHsub. rewrite E1, E2.
        apply subsequence_app_same. exact Hsub.
      * intros Hall Heq. apply IHeq.
        -- intros t o Hin. apply (Hall t o). right. exact Hin.
        -- rewrite E1, E2, Heq. reflexivity.
    + split.
      * intros Hsub. apply IHsub. rewrite E2.
        rewrite E1 in Hsub. apply (subsequence_drop_last _ _ _ Hsub).
      * intros Hall. exfalso.
        rewrite (Hall t o (or_introl eq_refl) line) in Hout.
        discriminate Hout.
Qed.

Lemma step_console_lines (cfg : Setup) (s : State) (l : label) (s' : State) :
  Forall callback_line (console (glob s)) ->
  step cfg s l = Some s' ->
  Forall callback_line (console (glob s')).
Proof.
  intros Hall Hstep.
  assert (Herr : forall e,
            Forall callback_line
              (console (console_append ("on_press error: " ++ e) (glob s)))).
  { intros e. cbn [console console_append].
    apply Forall_app. split; [ assumption | ].
    constructor; [ | constructor ]. right.
    unfold startswith. cbn. apply prefix_empty. }
  effect_cases Hstep He. rewrite glob_upd.
  effect_inv He;
    cbn [console set_running set_step_counter steps_append];
    try assumption; try apply Herr.
  cbn [console console_append].
  apply Forall_app. split; [ assumption | ].
  constructor; [ | constructor ]. left.
  unfold is_step_line, startswith, record_line. cbn. apply prefix_empty.
Qed.

(** X15.  The console follows the ledger.  Among the lines of the
    [print] calls that returned, those of [record] (they start with "[")
    are lines of steps of the ledger, in ledger order, each showing that
    step's time, action, position, file name, window title and
    application, and no step has two lines.  The only other lines the
    callbacks print are the error lines of [on_press].  Lines are missing
    only if a [print] of a step raised: when standard output accepts the
    lines at every [print] of a step and no thread is inside [record],
    there is exactly one line per step. *)
Theorem console_mirrors_ledger (cfg : Setup) (sched : list label) (s : State) :
  run cfg initial sched = Some s ->
  subsequence (filter is_step_line (console (glob s)))
    (map console_line (steps (glob s)))
  /\ Forall callback_line (console (glob s))
  /\ (emits_all sched ->
      lock s = None ->
      filter is_step_line (console (glob s))
      = map console_line (steps (glob s))).
Proof.
  intros Hrun.
  destruct (run_step_lines cfg sched initial s Inv_initial
              (fun t => match t with Mouse => I | Keyboard => I end) Hrun)
    as [Hsub Heq].
  specialize (Hsub I). unfold step_lines, ledger_lines in *.
  split; [ | split ].
  - revert Hsub.
    generalize (filter is_step_line (console (glob s))) as a.
    generalize (map console_line (steps (glob s))) as b.
    generalize (awaiting (mouse s) ++ awaiting (keyboard s))%list as c.
    intros c. induction c as [ | v c IH] using rev_ind; intros b a H.
    + now rewrite app_nil_r in H.
    + rewrite app_assoc in H. apply subsequence_drop_last in H. auto.
  - apply (run_invariant cfg _ (step_console_lines cfg) sched initial s);
      [ constructor | exact Hrun ].
  - intros Hall Hlk. specialize (Heq Hall eq_refl).
    destruct (reachable_Matches cfg sched s Hrun) as [HI _].
    pose proof (inv_owner _ HI) as Hown.
    assert (Hm : awaiting (mouse s) = []).
    { apply awaiting_outside_lock.
      destruct (in_lock (mouse s)) eqn:Hin; [ | reflexivity ].
      apply (Hown Mouse) in Hin. congruence. }
    assert (Hk : awaiting (keyboard s) = []).
    { apply awaiting_outside_lock.
      destruct (in_lock (keyboard s)) eqn:Hin; [ | reflexivity ].
      apply (Hown Keyboard) in Hin. congruence. }
    rewrite Hm, Hk, !app_nil_r in Heq. exact Heq.
Qed.

Lemma console_mirrors_ledger_witness :
  run (shipped true) initial three_events = Some three_events_end
  /\ emits_all three_events
  /\ lock three_events_end = None
  /\ filter is_step_line (console (glob three_events_end))
     = map console_line (steps (glob three_events_end)).
Proof.
  assert (H : run (shipped true) initial three_events = Some three_events_end)
    by reflexivity.
  assert (Hl : lock three_events_end = None) by reflexivity.
  assert (He : emits_all three_events).
  { intros t o Hin line. cbn in Hin.
    repeat (destruct Hin as [Hin | Hin];
            [ try discriminate Hin; injection Hin as _ <-; reflexivity | ]).
    destruct Hin. }
  split; [ exact H | ]. split; [ exact He | ]. split; [ exact Hl | ].
  exact (proj2 (proj2 (console_mirrors_ledger (shipped true) three_events
                         three_events_end H)) He Hl).
Defined.

(* ================================================================== *)
(** * The title is stripped *)
(* ================================================================== *)

Lemma length_drop (n : nat) (s : string) :
  String.length (drop n s) = (String.length s - n)%nat.
Proof.
  revert s. induction n as [ | n IH]; intros [ | c s]; cbn; auto.
Qed.

Lemma prefix_drop (w s : string) :
  String.prefix w s = true -> s = w ++ drop (String.length w) s.
Proof.
  revert s. induction w as [ | c w IH]; intros s H; [ reflexivity | ].
  destruct s as [ | d s]; [ discriminate H | ].
  cbn [String.prefix] in H.
  destruct (ascii_dec c d) as [-> | ]; [ | discriminate H ].
  cbn. f_equal. apply IH. exact H.
Qed.

Lemma prefix_append (w s x : string) :
  String.prefix w s = true -> String.prefix w (s ++ x) = true.
Proof.
  revert s. induction w as [ | c w IH]; intros s H; [ apply prefix_empty | ].
  destruct s as [ | d s]; [ discriminate H | ].
  cbn [String.prefix append] in *.
  destruct (ascii_dec c d); [ auto | discriminate H ].
Qed.

Lemma append_assoc (a b c : string) : (a ++ b) ++ c = a ++ (b ++ c).
Proof. induction a as [ | ch a IH]; cbn; [ reflexivity | now rewrite IH ]. Qed.

Lemma rev_onto_spec (s acc : string) :
  rev_onto s acc = rev_string s ++ acc.
Proof.
  unfold rev_string. revert acc.
  induction s as [ | c s IH]; intros acc; [ reflexivity | ].
  cbn [rev_onto]. rewrite (IH (String c acc)), (IH (String c EmptyString)).
  rewrite append_assoc. reflexivity.
Qed.

Lemma append_empty_r (s : string) : s ++ "" = s.
Proof. induction s as [ | c s IH]; cbn; [ reflexivity | now rewrite IH ]. Qed.

Lemma rev_string_cons (c : ascii) (s : string) :
  rev_string (String c s) = rev_string s ++ String c EmptyString.
Proof. unfold rev_string at 1. cbn [rev_onto]. apply rev_onto_spec. Qed.

Lemma rev_string_append (a b : string) :
  rev_string (a ++ b) = rev_string b ++ rev_string a.
Proof.
  induction a as [ | c a IH]; cbn [append].
  - change (rev_string "") with "". now rewrite append_empty_r.
  - rewrite !rev_string_cons, IH, append_assoc. reflexivity.
Qed.

Lemma rev_string_involutive (s : string) : rev_string (rev_string s) = s.
Proof.
  induction s as [ | c s IH]; [ reflexivity | ].
  rewrite rev_string_cons, rev_string_append, IH. reflexivity.
Qed.

Lemma length_rev_string (s : string) :
  String.length (rev_string s) = String.length s.
Proof.
  induction s as [ | c s IH]; [ reflexivity | ].
  rewrite rev_string_cons, length_append, IH. cbn. lia.
Qed.

(** No white space to remove at the left. *)
Lemma strip_one_none (ws : list string) (s : string) :
  strip_one ws s = None <-> Forall (fun w => String.prefix w s = false) ws.
Proof.
  induction ws as [ | w ws IH]; cbn [strip_one].
  - split; [ constructor | reflexivity ].
  - destruct (String.prefix w s) eqn:Hp.
    + split; [ discriminate | ].
      intros H. inversion H; subst. congruence.
    + rewrite IH. split.
      * intros H. constructor; assumption.
      * intros H. inversion H; assumption.
Qed.

Lemma strip_one_some (ws : list string) (s r : string) :
  strip_one ws s = Some r ->
  exists w, In w ws /\ String.prefix w s = true
            /\ r = drop (String.length w) s.
Proof.
  induction ws as [ | w ws IH]; cbn [strip_one]; [ discriminate | ].
  destruct (String.prefix w s) eqn:Hp.
  - intros [= <-]. exists w. cbn. auto.
  - intros H. destruct (IH H) as (w' & Hin & Hw & Hr).
    exists w'. cbn. auto.
Qed.

(** What [lstrip_with] leaves is the end of the string. *)
Lemma lstrip_with_suffix (ws : list string) (fuel : nat) (s : string) :
  exists y, s = y ++ lstrip_with ws fuel s.
Proof.
  revert s. induction fuel as [ | k IH]; intros s; cbn [lstrip_with].
  - exists "". reflexivity.
  - destruct (strip_one ws s) as [r | ] eqn:Hs; [ | exists ""; reflexivity ].
    destruct (strip_one_some ws s r Hs) as (w & _ & Hp & ->).
    destruct (IH (drop (String.length w) s)) as (y & Hy).
    exists (w ++ y). rewrite append_assoc, <- Hy.
    apply prefix_drop. exact Hp.
Qed.

(** With enough fuel, [lstrip_with] leaves no white space at the left. *)
Lemma lstrip_with_clean (ws : list string) (fuel : nat) (s : string) :
  Forall (fun w => w <> "") ws ->
  (String.length s <= fuel)%nat ->
  strip_one ws (lstrip_with ws fuel s) = None.
Proof.
  intros Hws. revert s. induction fuel as [ | k IH]; intros s Hlen;
    cbn [lstrip_with].
  - destruct s; [ | cbn in Hlen; lia ].
    apply strip_one_none. rewrite Forall_forall in *.
    intros w Hin. specialize (Hws w Hin).
    destruct w; [ congruence | reflexivity ].
  - destruct (strip_one ws s) as [r | ] eqn:Hs; [ | exact Hs ].
    destruct (strip_one_some ws s r Hs) as (w & Hin & Hp & ->).
    apply IH. rewrite length_drop.
    rewrite Forall_forall in Hws. specialize (Hws w Hin).
    destruct w as [ | c w]; [ congruence | ].
    destruct s; [ discriminate Hp | ]. cbn [String.length] in *. lia.
Qed.

Lemma lstrip_with_fixed (ws : list string) (fuel : nat) (s : string) :
  strip_one ws s = None -> lstrip_with ws fuel s = s.
Proof. intros H. destruct fuel; cbn [lstrip_with]; [ | rewrite H ]; reflexivity. Qed.

Lemma whitespace_not_empty : Forall (fun w => w <> "") whitespace.
Proof. unfold whitespace. cbn. repeat constructor; discriminate. Qed.

Lemma whitespace_rev_not_empty :
  Forall (fun w => w <> "") (map rev_string whitespace).
Proof. unfold whitespace. cbn. repeat constructor; discriminate. Qed.

Lemma lstrip_clean (s : string) : strip_one whitespace (lstrip s) = None.
Proof.
  apply lstrip_with_clean; [ exact whitespace_not_empty | apply Nat.le_refl ].
Qed.

Lemma rstrip_clean (s : string) :
  strip_one (map rev_string whitespace) (rev_string (rstrip s)) = None.
Proof.
  unfold rstrip. rewrite rev_string_involutive.
  apply lstrip_with_clean; [ exact whitespace_rev_not_empty | ].
  rewrite length_rev_string. apply Nat.le_refl.
Qed.

(** [rstrip] keeps a beginning of the string. *)
Lemma rstrip_prefix (s : string) : exists x, s = rstrip s ++ x.
Proof.
  unfold rstrip.
  destruct (lstrip_with_suffix (map rev_string whitespace) (String.length s)
              (rev_string s)) as (y & Hy).
  exists (rev_string y).
  rewrite <- rev_string_append, <- Hy, rev_string_involutive. reflexivity.
Qed.

Lemma rstrip_keeps_clean (s : string) :
  strip_one whitespace s = None -> strip_one whitespace (rstrip s) = None.
Proof.
  rewrite !strip_one_none, !Forall_forall. intros H w Hin.
  destruct (rstrip_prefix s) as (x & Hx).
  destruct (String.prefix w (rstrip s)) eqn:Hp; [ | reflexivity ].
  apply (prefix_append _ _ x) in Hp. rewrite <- Hx in Hp.
  rewrite (H w Hin) in Hp. discriminate Hp.
Qed.

Lemma strip_idem (s : string) : strip (strip s) = strip s.
Proof.
  unfold strip.
  pose proof (rstrip_keeps_clean (lstrip s) (lstrip_clean s)) as Hl.
  unfold lstrip at 1. rewrite (lstrip_with_fixed _ _ _ Hl).
  pose proof (rstrip_clean (lstrip s)) as Hr.
  unfold rstrip at 1. rewrite (lstrip_with_fixed _ _ _ Hr).
  apply rev_string_involutive.
Qed.

Lemma keeps_ret {S A} (P : S -> Prop) (v : A) : keeps P (@ret S A v).
Proof. intros s r s' Hs [= _ <-]. exact Hs. Qed.

Lemma keeps_pass {S} (P : S -> Prop) : keeps P (@pass S).
Proof. apply keeps_ret. Qed.

Lemma keeps_call {S A} (P : S -> Prop) (e : Exc A) : keeps P (@call S A e).
Proof. intros s r s' Hs [= _ <-]. exact Hs. Qed.

Lemma keeps_get {S} (P : S -> Prop) : keeps P (@get S).
Proof. intros s r s' Hs [= _ <-]. exact Hs. Qed.

Lemma keeps_modify {S} (P : S -> Prop) (f : S -> S) :
  (forall s, P s -> P (f s)) -> keeps P (modify f).
Proof. intros Hf s r s' Hs [= _ <-]. auto. Qed.

Lemma keeps_bind {S A B} (P : S -> Prop) (m : M S A) (k : A -> M S B) :
  keeps P m -> (forall v, keeps P (k v)) -> keeps P (mbind m k).
Proof.
  intros Hm Hk s r s' Hs. unfold mbind.
  destruct (m s) as [[v | e] s1] eqn:H1.
  - apply (Hk v). eapply Hm; eauto.
  - intros [= _ <-]. eapply Hm; eauto.
Qed.

Lemma keeps_try {S A} (P : S -> Prop) (m : M S A) (h : string -> M S A) :
  keeps P m -> (forall e, keeps P (h e)) -> keeps P (mtry m h).
Proof.
  intros Hm Hh s r s' Hs. unfold mtry.
  destruct (m s) as [[v | e] s1] eqn:H1.
  - intros [= _ <-]. eapply Hm; eauto.
  - apply (Hh e). eapply Hm; eauto.
Qed.

Lemma returns_state_get {S} : returns_state (@get S).
Proof. intros s v s' [= <- <-]. reflexivity. Qed.

Lemma returns_state_bind {S A} (m : M S A) (k : A -> M S S) :
  (forall v, returns_state (k v)) -> returns_state (mbind m k).
Proof.
  intros Hk s v s'. unfold mbind.
  destruct (m s) as [[x | e] s1]; [ apply Hk | discriminate ].
Qed.

Ltac keeps_step :=
  first
    [ apply keeps_pass
    | apply keeps_ret
    | apply keeps_get
    | apply keeps_call
    | apply keeps_bind; [ | intros ? ]
    | apply keeps_try; [ | intros ? ]
    | match goal with
      | |- keeps _ (if ?b then _ else _) => destruct b
      | |- keeps _ (match ?o with Some _ => _ | None => _ end) => destruct o
      end ].

Lemma body_keeps_stripped (cfg : Setup) (w : WinCalls) :
  keeps (fun v : Vars => strip (fst v) = fst v)
    (active_window_info_body cfg w).
Proof.
  unfold active_window_info_body, assign_title, assign_app.
  repeat first
    [ keeps_step
    | apply keeps_modify; intros ? ?; cbn [fst snd];
      first [ reflexivity | apply strip_idem | assumption ] ].
Qed.

(** X16.  The title that [active_window_info] returns never has white
    space at either end, Unicode white space included: stripping it again
    changes nothing, no white-space character begins it and none ends
    it. *)
Theorem title_is_stripped (cfg : Setup) (w : WinCalls) (t a : string) :
  active_window_info cfg w = Ok (t, a) ->
  strip t = t
  /\ Forall (fun space => String.prefix space t = false) whitespace
  /\ Forall (fun space =>
               String.prefix (rev_string space) (rev_string t) = false)
       whitespace.
Proof.
  unfold active_window_info. intros H.
  destruct (active_window_info_body cfg w ("", "")) as [r v] eqn:Hb.
  cbn [fst] in H. subst r.
  assert (Hv : (t, a) = v).
  { revert Hb. unfold active_window_info_body.
    generalize ("", "") at 2. intros s0 Hb. revert s0 Hb.
    match goal with
    | |- forall s0, ?m s0 = _ -> _ =>
        assert (Hr : returns_state m)
          by (repeat (apply returns_state_bind; intros ?);
              apply returns_state_get)
    end.
    intros s0 Hb. exact (Hr s0 _ _ Hb). }
  pose proof (body_keeps_stripped cfg w ("", "") _ _ eq_refl Hb) as Hs.
  rewrite <- Hv in Hs. cbn [fst] in Hs.
  split; [ exact Hs | ]. rewrite <- Hs. unfold strip. split.
  - apply strip_one_none. apply rstrip_keeps_clean, lstrip_clean.
  - pose proof (rstrip_clean (lstrip t)) as Hr.
    apply strip_one_none in Hr. rewrite Forall_map in Hr. exact Hr.
Qed.

Lemma title_is_stripped_witness :
  active_window_info (shipped true) notepad = Ok ("Notepad", "notepad.exe")
  /\ strip "Notepad" = "Notepad".
Proof.
  assert (H : active_window_info (shipped true) notepad
              = Ok ("Notepad", "notepad.exe")) by reflexivity.
  split; [ exact H | ].
  exact (proj1 (title_is_stripped (shipped true) notepad "Notepad"
                  "notepad.exe" H)).
Defined.

(* ================================================================== *)
(** * The button of a click *)
(* ================================================================== *)

Lemma replace_from_absent (old new s : string) :
  occurs_in old s = false -> replace_from 0 old new s = s.
Proof.
  induction s as [ | c s IH]; [ reflexivity | ].
  cbn [occurs_in replace_from]. intros H.
  apply Bool.orb_false_elim in H as [Hp Ho].
  rewrite Hp, IH by exact Ho. reflexivity.
Qed.

Lemma click_action_strips_prefix (b : Button) :
  click_action b = "click " ++ replace (button_name b) "Button." "".
Proof.
  unfold click_action, str_Button, replace.
  cbn [append replace_from]. cbn [prefix]. 
  repeat match goal with
         | |- context [if ascii_dec ?a ?a then _ else _] =>
             destruct (ascii_dec a a); [ | congruence ]
         end.
  rewrite prefix_empty. reflexivity.
Qed.

(** X17.  The action of a click names the button without the enumeration
    prefix: for every button whose name does not itself contain
    "Button.", the action is "click " followed by the button's name. *)
Theorem click_action_names_button (b : Button) :
  occurs_in "Button." (button_name b) = false ->
  click_action b = "click " ++ button_name b.
Proof.
  intros H. rewrite click_action_strips_prefix. unfold replace.
  rewrite replace_from_absent by exact H. reflexivity.
Qed.

Lemma click_action_names_button_witness :
  occurs_in "Button." (button_name {| button_name := "x1" |}) = false
  /\ click_action {| button_name := "x1" |} = "click x1".
Proof.
  assert (H : occurs_in "Button." (button_name {| button_name := "x1" |})
              = false) by reflexivity.
  split; [ exact H | ].
  exact (click_action_names_button {| button_name := "x1" |} H).
Defined.
